(** * Starfish S3 gateway: result cache, path rewrite engine, listing converter

    A shallow embedding of the read path of the Starfish backend
    (backend/starfish: cache.go, path_rewrite.go, types.go, starfish.go)
    together with the properties its specification states about it.

    Conventions of the embedding:
    - Go strings are byte strings: [string] of the standard library.
    - [int], [int64] are [Z]; where the code does arithmetic on them the
      two's-complement wrap-around is written out ([wrap64]).
    - [time.Time] is an instant in nanoseconds, a [Z]; [time.Duration] is a [Z].
      [time.Now()] is an explicit argument [now] of every operation that reads
      the clock.
    - A Go map is a [gmap]; a nil-able pointer is an [option].
    - A float64 is an IEEE 754 binary64 value ([SpecFloat] of the standard
      library), with the conversion from integers and the division rounded
      to nearest, ties to even.
    - The metrics manager is an external object that only records what it is
      given: it is modelled by the log of the events added to it.
    - Functions of Go's standard library that the code calls but the
      repository does not define (regexp, text/template parsing, time
      formatting, path cleaning, sort.Slice) are parameters, gathered in
      [GoLib]; nothing is assumed about them beyond what is stated where
      they are used. For the examples on ties, sort.Slice is also written
      out as package sort runs it ([gosort]). *)

From Stdlib Require Import ZArith List String Ascii Lia Permutation Sorted.
From Stdlib Require Import DecimalString.
From Stdlib Require DecimalZ DecimalPos SpecFloat.
From stdpp Require Import base gmap strings list fin_maps.

Local Open Scope string_scope.
Local Open Scope Z_scope.

(* ===================================================================== *)
(** ** Machine integers and clock                                          *)
(* ===================================================================== *)

(** Two's-complement wrap-around of a 64-bit signed integer. *)
Definition wrap64 (z : Z) : Z := (z + 2 ^ 63) mod 2 ^ 64 - 2 ^ 63.

Definition MaxInt64 : Z := 2 ^ 63 - 1.
Definition MinInt64 : Z := - 2 ^ 63.

(** [t.After(u)]: [t] is strictly later than [u]. *)
Definition time_After (t u : Z) : bool := u <? t.

(** [t.Add(d)]. *)
Definition time_Add (t d : Z) : Z := t + d.

(* ===================================================================== *)
(** ** types.go                                                            *)
(* ===================================================================== *)

Record StarfishZone := {
  zone_ID : Z;
  zone_Name : string;
  zone_RelativePath : string
}.

Record StarfishEntry := {
  ID : Z;
  Filename : string;
  ParentPath : string;
  FullPath : string;
  Type_ : Z;
  Size : Z;
  Mode : string;
  UID : Z;
  GID : Z;
  CreateTimeUnix : Z;
  ModifyTimeUnix : Z;
  AccessTimeUnix : Z;
  Volume : string;
  Inode : Z;
  SizeUnit : string;
  TagsExplicitStr : string;
  TagsInheritedStr : string;
  Zones : list StarfishZone
}.

Record StarfishQueryResponse := {
  Entries : list StarfishEntry;
  Total : Z
}.

(* ===================================================================== *)
(** ** metrics (external collaborator)                                     *)
(* ===================================================================== *)

Record MetricTag := { tag_Key : string; tag_Value : string }.

Record MetricEvent := {
  metric_name : string;
  metric_value : Z;
  metric_tags : list MetricTag
}.

(** [m.Add(name, value, tags...)] on a possibly nil manager. The code guards
    every call with [if c.metricsManager != nil]. *)
Definition metrics_Add (m : option (list MetricEvent))
    (name : string) (value : Z) (tags : list MetricTag) : option (list MetricEvent) :=
  match m with
  | None => None
  | Some log => Some (log ++ [ {| metric_name := name; metric_value := value; metric_tags := tags |} ])%list
  end.

(* ===================================================================== *)
(** ** cache.go                                                            *)
(* ===================================================================== *)

Record CachedResult := {
  Data : option StarfishQueryResponse;
  CachedAt : Z;
  ExpiresAt : Z;
  VolumeAndPath : string;
  HitCount : Z
}.

Record QueryCache := {
  data : gmap string CachedResult;
  defaultTTL : Z;
  metricsManager : option (list MetricEvent)
}.

Definition NewQueryCache (ttl : Z) (mm : option (list MetricEvent)) : QueryCache :=
  {| data := ∅; defaultTTL := ttl; metricsManager := mm |}.

Definition key_tag (key : string) : MetricTag :=
  {| tag_Key := "cache_key"; tag_Value := key |}.

(** [cached.HitCount++] through the pointer stored in the map. *)
Definition bump (cached : CachedResult) : CachedResult :=
  {| Data := Data cached;
     CachedAt := CachedAt cached;
     ExpiresAt := ExpiresAt cached;
     VolumeAndPath := VolumeAndPath cached;
     HitCount := wrap64 (HitCount cached + 1) |}.

(** [QueryCache.Get]: the cache after the call and the pointer returned
    ([None] is Go's nil). *)
Definition Get (c : QueryCache) (now : Z) (key : string)
    : QueryCache * option StarfishQueryResponse :=
  match data c !! key with
  | None =>
      ({| data := data c; defaultTTL := defaultTTL c;
          metricsManager := metrics_Add (metricsManager c) "starfish_cache_miss" 1 [key_tag key] |},
       None)
  | Some cached =>
      if time_After now (ExpiresAt cached) then
        ({| data := delete key (data c); defaultTTL := defaultTTL c;
            metricsManager :=
              metrics_Add (metricsManager c) "starfish_cache_miss" 1
                [key_tag key; {| tag_Key := "reason"; tag_Value := "expired" |}] |},
         None)
      else
        let cached' := bump cached in
        ({| data := <[key := cached']> (data c); defaultTTL := defaultTTL c;
            metricsManager :=
              metrics_Add
                (metrics_Add (metricsManager c) "starfish_cache_hit" 1 [key_tag key])
                "starfish_cache_hit_count" (HitCount cached') [key_tag key] |},
         Data cached')
  end.

(** [QueryCache.Set]. *)
Definition CacheSet (c : QueryCache) (now : Z) (key : string)
    (d : option StarfishQueryResponse) (volumeAndPath : string) : QueryCache :=
  let data' := <[key := {| Data := d; CachedAt := now;
                            ExpiresAt := time_Add now (defaultTTL c);
                            VolumeAndPath := volumeAndPath;
                            HitCount := 0 |}]> (data c) in
  {| data := data'; defaultTTL := defaultTTL c;
     metricsManager :=
       metrics_Add
         (metrics_Add (metricsManager c) "starfish_cache_set" 1 [key_tag key])
         "starfish_cache_entries" (Z.of_nat (size data')) [] |}.

(** [QueryCache.Invalidate]. *)
Definition Invalidate (c : QueryCache) (key : string) : QueryCache :=
  match data c !! key with
  | Some _ =>
      let data' := delete key (data c) in
      {| data := data'; defaultTTL := defaultTTL c;
         metricsManager :=
           metrics_Add
             (metrics_Add (metricsManager c) "starfish_cache_invalidate" 1 [key_tag key])
             "starfish_cache_entries" (Z.of_nat (size data')) [] |}
  | None => c
  end.

(** [QueryCache.Clear]. The Go method has no result: the embedding returns
    the cache after the call and the (empty) result [tt]. *)
Definition Clear (c : QueryCache) : QueryCache * unit :=
  let clearedCount := Z.of_nat (size (data c)) in
  ({| data := ∅; defaultTTL := defaultTTL c;
      metricsManager :=
        metrics_Add
          (metrics_Add (metricsManager c) "starfish_cache_clear" clearedCount [])
          "starfish_cache_entries" 0 [] |},
   tt).

(** The counters of the loop of [Stats]: valid, expired, totalHits. *)
Record StatsAcc := { acc_valid : Z; acc_expired : Z; acc_totalHits : Z }.

Definition stats_step (now : Z) (acc : StatsAcc) (cached : CachedResult) : StatsAcc :=
  if time_After now (ExpiresAt cached) then
    {| acc_valid := acc_valid acc; acc_expired := acc_expired acc + 1;
       acc_totalHits := acc_totalHits acc |}
  else
    {| acc_valid := acc_valid acc + 1; acc_expired := acc_expired acc;
       acc_totalHits := wrap64 (acc_totalHits acc + HitCount cached) |}.

(** [for _, cached := range c.data { ... }] *)
Definition stats_loop (now : Z) (l : list (string * CachedResult)) : StatsAcc :=
  fold_left (fun acc kv => stats_step now acc (snd kv)) l
    {| acc_valid := 0; acc_expired := 0; acc_totalHits := 0 |}.

(** Go's float64 is IEEE 754 binary64: 53 bits of precision, exponents
    below 1024, results rounded to the nearest value, ties to even. *)
Definition float64 : Type := SpecFloat.spec_float.

(** The literal [0.0]. *)
Definition float64_zero : float64 := SpecFloat.S754_zero false.

(** The conversion [float64(n)] of an integer, rounded when [n] has more
    than 53 significant bits. *)
Definition float64_of_int (n : Z) : float64 := SpecFloat.binary_normalize 53 1024 n 0 false.

(** [x / y] on float64. *)
Definition float64_div (x y : float64) : float64 := SpecFloat.SFdiv 53 1024 x y.

(** The map returned by [Stats], one field per key; the ratio is the
    float64 in it. *)
Record CacheStats := {
  total_entries : Z;
  valid_entries : Z;
  expired_entries : Z;
  total_hits : Z;
  cache_hit_ratio : float64
}.

Definition Stats (c : QueryCache) (now : Z) : CacheStats :=
  let acc := stats_loop now (map_to_list (data c)) in
  let len := Z.of_nat (size (data c)) in
  {| total_entries := len;
     valid_entries := acc_valid acc;
     expired_entries := acc_expired acc;
     total_hits := acc_totalHits acc;
     cache_hit_ratio :=
       if 0 <? len
       then float64_div (float64_of_int (acc_totalHits acc)) (float64_of_int len)
       else float64_zero |}.

(* ===================================================================== *)
(** ** Go's strings and fmt packages, the part modelled directly           *)
(* ===================================================================== *)

(** [strings.HasPrefix(s, prefix)]. *)
Definition strings_HasPrefix (s pre : string) : bool := String.prefix pre s.

(** [s[n:]], for [n <= len(s)]. *)
Definition string_drop (n : nat) (s : string) : string :=
  String.substring n (String.length s - n) s.

(** [s[:n]], for [n <= len(s)]. *)
Definition string_take (n : nat) (s : string) : string := String.substring 0 n s.

(** [strings.HasSuffix(s, suffix)]. *)
Definition strings_HasSuffix (s suf : string) : bool :=
  (String.length suf <=? String.length s)%nat
  && String.eqb (string_drop (String.length s - String.length suf) s) suf.

(** [strings.TrimPrefix(s, prefix)]. *)
Definition strings_TrimPrefix (s pre : string) : string :=
  if strings_HasPrefix s pre then string_drop (String.length pre) s else s.

(** [strings.TrimSuffix(s, suffix)]. *)
Definition strings_TrimSuffix (s suf : string) : string :=
  if strings_HasSuffix s suf then string_take (String.length s - String.length suf) s else s.

(** [strings.Index(s, substr)]: the index of the first instance of [substr]
    in [s]; [None] is Go's -1. *)
Definition strings_Index (s substr : string) : option nat := String.index 0 substr s.

(** [strings.Contains(s, substr)]. *)
Definition strings_Contains (s substr : string) : bool :=
  match strings_Index s substr with Some _ => true | None => false end.

(** [strings.Join(elems, sep)]. *)
Definition strings_Join (elems : list string) (sep : string) : string :=
  String.concat sep elems.

(** [strings.Split(s, sep)] for a non-empty separator. Every round removes
    at least one byte, so [length s] rounds are enough. *)
Fixpoint split_rounds (rounds : nat) (s sep : string) : list string :=
  match rounds with
  | O => [s]
  | S n =>
      match strings_Index s sep with
      | None => [s]
      | Some i => string_take i s :: split_rounds n (string_drop (i + String.length sep) s) sep
      end
  end.

(** [fmt.Sprintf("%d", z)]. *)
Definition itoa (z : Z) : string := NilZero.string_of_int (Z.to_int z).

(** The double quote, for [fmt.Sprintf("\"%d-%d\"", ...)]. *)
Definition dquote : string := String (ascii_of_nat 34) EmptyString.

(** [time.Unix(sec, nsec)] and the zero [time.Time{}] (January 1, year 1). *)
Definition time_Unix (sec nsec : Z) : Z := sec * 1000000000 + nsec.
Definition time_zero : Z := -62135596800 * 1000000000.
Definition time_IsZero (t : Z) : bool := t =? time_zero.

(* ===================================================================== *)
(** ** path_rewrite.go: data                                               *)
(* ===================================================================== *)

Record PathRewriteRule := {
  Bucket : string;
  Pattern : string;
  Template : string;
  Priority : Z
}.

Record PathRewriteConfig := { Rules : list PathRewriteRule }.

(** [StarfishBackend] (types.go): the fields the read path consults. The
    HTTP client, the locks and the refresh interval play no part in it. *)
Record StarfishBackend := {
  apiEndpoint : string;
  bearerToken : string;
  fileServerURL : string;
  cache : QueryCache;
  collections : gmap string string;
  pathRewriteConfig : option PathRewriteConfig;
  backend_metricsManager : option (list MetricEvent)
}.

(** The fields of [TemplateData] that [executeTemplate] fills in; the
    function-valued fields of the struct are left nil by the code. *)
Record TemplateData := {
  Entry : StarfishEntry;
  ModifyTimeFormatted : string;
  CreateTimeFormatted : string;
  AccessTimeFormatted : string;
  SizeFormatted : string;
  OriginalKey : string
}.

(** Values that flow through a template: the argument and result types of
    the functions of the FuncMap. *)
Inductive value :=
| VString (s : string)
| VInt (n : Z)
| VInt64 (n : Z)
| VBool (b : bool)
| VStrings (l : list string)
| VEntry (e : StarfishEntry)
| VTime (t : Z).

(** A function of the FuncMap: [None] is a call the template engine
    rejects (wrong number or type of arguments). *)
Definition gofunc : Type := list value -> option value.
Definition FuncMap : Type := list (string * gofunc).

Fixpoint funcs_lookup (fm : FuncMap) (name : string) : option gofunc :=
  match fm with
  | [] => None
  | (n, f) :: rest => if String.eqb n name then Some f else funcs_lookup rest name
  end.

Inductive template_error := TemplateParseError | TemplateExecutionError.

(** The functions of Go's standard library that the engine calls and the
    repository does not define. *)
Record GoLib := {
  (** [regexp.Compile(p)]: an error, or the [MatchString] of the result *)
  regexp_Compile : string -> option (string -> bool);
  (** [template.New("path").Funcs(fm).Parse(t)]: an error, or the [Execute]
      of the result, itself an error or the text written to the buffer *)
  template_Parse : FuncMap -> string -> option (TemplateData -> option string);
  (** [sort.Slice(x, less)], on a copy of the slice *)
  sort_Slice : (PathRewriteRule -> PathRewriteRule -> bool) ->
               list PathRewriteRule -> list PathRewriteRule;
  time_Format : Z -> string -> string;
  filepath_Ext : string -> string;
  filepath_Base : string -> string;
  filepath_Dir : string -> string;
  filepath_Clean : string -> string;
  filepath_Join : list string -> string;
  strings_ToLower : string -> string;
  strings_ToUpper : string -> string;
  strings_Title : string -> string;
  strings_TrimSpace : string -> string;
  strings_TrimLeft : string -> string -> string;
  strings_TrimRight : string -> string -> string;
  strings_Replace : string -> string -> string -> Z -> string;
  strings_ReplaceAll : string -> string -> string -> string;
  (** [strings.Split(s, "")]: the UTF-8 sequences of [s] *)
  strings_explode : string -> list string;
  (** [fmt.Sprintf("%v", v)] *)
  fmt_Sprint : value -> string;
  (** [fmt.Sscanf(s, "%d", &result)], with [result] initially 0 *)
  fmt_Sscan_d : string -> Z
}.

(** [strings.Split(s, sep)]. *)
Definition strings_Split (L : GoLib) (s sep : string) : list string :=
  if String.eqb sep "" then strings_explode L s
  else split_rounds (String.length s) s sep.

(** What sort.Slice promises for the comparison of [applyPathRewrite]: the
    result is a rearrangement of the slice in which no rule is followed by
    one of higher priority. Go documents the sort as not stable. *)
Definition priority_less (a b : PathRewriteRule) : bool := Priority b <? Priority a.

Definition descending (l : list PathRewriteRule) : Prop :=
  ForallOrdPairs (fun a b => Priority b <= Priority a) l.

Definition sort_Slice_contract (L : GoLib) : Prop :=
  forall rules : list PathRewriteRule,
    Permutation (sort_Slice L priority_less rules) rules /\
    descending (sort_Slice L priority_less rules).

(** The order in which [for k := range m] visits the keys of a map. Go
    leaves it unspecified and randomises it: the order is an argument of
    every function that ranges over a map whose order can be observed. An
    admissible order only rearranges the keys. *)
Definition map_order : Type := list string -> list string.

Definition admissible_order (ord : map_order) : Prop :=
  forall keys, Permutation (ord keys) keys.

(* ===================================================================== *)
(** ** types.go and path_rewrite.go: methods of StarfishEntry              *)
(* ===================================================================== *)

Definition GetCreateTime (e : StarfishEntry) : Z :=
  if 0 <? CreateTimeUnix e then time_Unix (CreateTimeUnix e) 0 else time_zero.

Definition GetModifyTime (e : StarfishEntry) : Z :=
  if 0 <? ModifyTimeUnix e then time_Unix (ModifyTimeUnix e) 0 else time_zero.

Definition GetAccessTime (e : StarfishEntry) : Z :=
  if 0 <? AccessTimeUnix e then time_Unix (AccessTimeUnix e) 0 else time_zero.

Definition IsFile (e : StarfishEntry) : bool := Type_ e =? 32768.

Definition KB : Z := 1024.
Definition MB : Z := 1024 * 1024.
Definition GB : Z := 1024 * 1024 * 1024.
Definition TB : Z := 1024 * 1024 * 1024 * 1024.

Definition unit_in (unit : string) (names : list string) : bool :=
  existsb (String.eqb unit) names.

(** [formatSizeWithUnit]; [/] on int64 truncates towards zero. *)
Definition formatSizeWithUnit (size : Z) (unit : string) : string :=
  if unit_in unit ["bytes"; "b"] then itoa size
  else if unit_in unit ["kb"; "KB"] then itoa (size ÷ KB)
  else if unit_in unit ["mb"; "MB"] then itoa (size ÷ MB)
  else if unit_in unit ["gb"; "GB"] then itoa (size ÷ GB)
  else if unit_in unit ["tb"; "TB"] then itoa (size ÷ TB)
  else if unit_in unit ["auto"] then
    if size <? KB then itoa size +:+ "B"
    else if size <? MB then itoa (size ÷ KB) +:+ "KB"
    else if size <? GB then itoa (size ÷ MB) +:+ "MB"
    else if size <? TB then itoa (size ÷ GB) +:+ "GB"
    else itoa (size ÷ TB) +:+ "TB"
  else itoa size.

Definition formatSize (size : Z) : string := formatSizeWithUnit size "auto".

Section EntryMethods.
Variable L : GoLib.

Definition GetTagsExplicit (e : StarfishEntry) : list string :=
  if String.eqb (TagsExplicitStr e) "" then [] else strings_Split L (TagsExplicitStr e) ",".

Definition GetTagsInherited (e : StarfishEntry) : list string :=
  if String.eqb (TagsInheritedStr e) "" then [] else strings_Split L (TagsInheritedStr e) ",".

Definition GetModifyTimeFormatted (e : StarfishEntry) (layout : string) : string :=
  if 0 <? ModifyTimeUnix e then time_Format L (time_Unix (ModifyTimeUnix e) 0) layout else "".

Definition GetCreateTimeFormatted (e : StarfishEntry) (layout : string) : string :=
  if 0 <? CreateTimeUnix e then time_Format L (time_Unix (CreateTimeUnix e) 0) layout else "".

Definition GetAccessTimeFormatted (e : StarfishEntry) (layout : string) : string :=
  if 0 <? AccessTimeUnix e then time_Format L (time_Unix (AccessTimeUnix e) 0) layout else "".

Definition GetSizeFormatted (e : StarfishEntry) (unit : string) : string :=
  formatSizeWithUnit (Size e) unit.

Definition GetFilenameWithoutExt (e : StarfishEntry) : string :=
  strings_TrimSuffix (Filename e) (filepath_Ext L (Filename e)).

Definition GetExtension (e : StarfishEntry) : string := filepath_Ext L (Filename e).
Definition GetParentDir (e : StarfishEntry) : string := filepath_Dir L (ParentPath e).
Definition GetVolumeName (e : StarfishEntry) : string := Volume e.
Definition GetUIDString (e : StarfishEntry) : string := itoa (UID e).
Definition GetGIDString (e : StarfishEntry) : string := itoa (GID e).
Definition GetSizeString (e : StarfishEntry) : string := itoa (Size e).
Definition GetInodeString (e : StarfishEntry) : string := itoa (Inode e).

(** [tagMap[tag] = true] for every tag of a slice. *)
Definition mark_tags (tags : list string) (tagMap : gmap string bool) : gmap string bool :=
  fold_left (fun m tag => <[tag := true]> m) tags tagMap.

(** [GetAllTags]: the keys of [tagMap], appended in the order in which
    the final [range] visits them. *)
Definition GetAllTags (ord : map_order) (e : StarfishEntry) : list string :=
  let tagMap := mark_tags (GetTagsInherited e) (mark_tags (GetTagsExplicit e) ∅) in
  ord (map_to_list tagMap).*1.

(* =================================================================== *)
(** ** path_rewrite.go: executeTemplate                                *)
(* =================================================================== *)

Definition str1 (f : string -> string) : gofunc := fun args =>
  match args with [VString s] => Some (VString (f s)) | _ => None end.

Definition str2 (f : string -> string -> string) : gofunc := fun args =>
  match args with [VString s; VString t] => Some (VString (f s t)) | _ => None end.

Definition pred2 (f : string -> string -> bool) : gofunc := fun args =>
  match args with [VString s; VString t] => Some (VBool (f s t)) | _ => None end.

Definition entry_str (f : StarfishEntry -> string) : gofunc := fun args =>
  match args with [VEntry e] => Some (VString (f e)) | _ => None end.

Definition entry_str2 (f : StarfishEntry -> string -> string) : gofunc := fun args =>
  match args with [VEntry e; VString s] => Some (VString (f e s)) | _ => None end.

Definition entry_strings (f : StarfishEntry -> list string) : gofunc := fun args =>
  match args with [VEntry e] => Some (VStrings (f e)) | _ => None end.

Definition int64_2 (f : Z -> Z -> Z) : gofunc := fun args =>
  match args with [VInt64 a; VInt64 b] => Some (VInt64 (f a b)) | _ => None end.

Fixpoint all_strings (args : list value) : option (list string) :=
  match args with
  | [] => Some []
  | VString s :: rest =>
      match all_strings rest with Some l => Some (s :: l) | None => None end
  | _ => None
  end.

(** The FuncMap of [executeTemplate], entry by entry. *)
Definition funcMap (ord : map_order) : FuncMap :=
  [ (* String manipulation *)
    ("join", fun args =>
       match args with
       | [VStrings l; VString sep] => Some (VString (strings_Join l sep))
       | _ => None
       end);
    ("split", fun args =>
       match args with
       | [VString s; VString sep] => Some (VStrings (strings_Split L s sep))
       | _ => None
       end);
    ("lower", str1 (strings_ToLower L));
    ("upper", str1 (strings_ToUpper L));
    ("title", str1 (strings_Title L));
    ("trim", str1 (strings_TrimSpace L));
    ("trimLeft", str2 (strings_TrimLeft L));
    ("trimRight", str2 (strings_TrimRight L));
    ("replace", fun args =>
       match args with
       | [VString s; VString old; VString new; VInt n] =>
           Some (VString (strings_Replace L s old new n))
       | _ => None
       end);
    ("replaceAll", fun args =>
       match args with
       | [VString s; VString old; VString new] =>
           Some (VString (strings_ReplaceAll L s old new))
       | _ => None
       end);
    ("hasPrefix", pred2 strings_HasPrefix);
    ("hasSuffix", pred2 strings_HasSuffix);
    ("contains", pred2 strings_Contains);
    (* Path manipulation *)
    ("ext", str1 (filepath_Ext L));
    ("base", str1 (filepath_Base L));
    ("dir", str1 (filepath_Dir L));
    ("clean", str1 (filepath_Clean L));
    ("joinPath", fun args =>
       match all_strings args with
       | Some elems => Some (VString (filepath_Join L elems))
       | None => None
       end);
    (* Time formatting *)
    ("formatTime", fun args =>
       match args with
       | [VTime t; VString layout] =>
           Some (VString (if time_IsZero t then "" else time_Format L t layout))
       | _ => None
       end);
    ("formatUnix", fun args =>
       match args with
       | [VInt64 unixTime; VString layout] =>
           Some (VString (if unixTime <=? 0 then ""
                          else time_Format L (time_Unix unixTime 0) layout))
       | _ => None
       end);
    (* Size formatting *)
    ("formatSize", fun args =>
       match args with
       | [VInt64 size; VString unit] => Some (VString (formatSizeWithUnit size unit))
       | _ => None
       end);
    (* Entry-specific functions *)
    ("getModifyTimeFormatted", entry_str2 GetModifyTimeFormatted);
    ("getCreateTimeFormatted", entry_str2 GetCreateTimeFormatted);
    ("getAccessTimeFormatted", entry_str2 GetAccessTimeFormatted);
    ("getSizeFormatted", entry_str2 GetSizeFormatted);
    ("getFilenameWithoutExt", entry_str GetFilenameWithoutExt);
    ("getExtension", entry_str GetExtension);
    ("getParentDir", entry_str GetParentDir);
    ("getVolumeName", entry_str GetVolumeName);
    ("getUIDString", entry_str GetUIDString);
    ("getGIDString", entry_str GetGIDString);
    ("getSizeString", entry_str GetSizeString);
    ("getInodeString", entry_str GetInodeString);
    ("getTagsExplicit", entry_strings GetTagsExplicit);
    ("getTagsInherited", entry_strings GetTagsInherited);
    ("getAllTags", entry_strings (GetAllTags ord));
    (* Array/slice operations *)
    ("first", fun args =>
       match args with
       | [VStrings slice] => Some (VString (List.hd "" slice))
       | _ => None
       end);
    ("last", fun args =>
       match args with
       | [VStrings slice] => Some (VString (List.last slice ""))
       | _ => None
       end);
    ("index", fun args =>
       match args with
       | [VStrings slice; VInt i] =>
           Some (VString (if (0 <=? i) && (i <? Z.of_nat (length slice))
                          then List.nth (Z.to_nat i) slice "" else ""))
       | _ => None
       end);
    ("length", fun args =>
       match args with
       | [VStrings slice] => Some (VInt (Z.of_nat (length slice)))
       | _ => None
       end);
    (* Conditional operations *)
    ("if", fun args =>
       match args with
       | [VBool condition; VString trueVal; VString falseVal] =>
           Some (VString (if condition then trueVal else falseVal))
       | _ => None
       end);
    ("default", str2 (fun v defaultValue => if String.eqb v "" then defaultValue else v));
    (* Mathematical operations *)
    ("add", int64_2 (fun a b => wrap64 (a + b)));
    ("sub", int64_2 (fun a b => wrap64 (a - b)));
    ("mul", int64_2 (fun a b => wrap64 (a * b)));
    ("div", int64_2 (fun a b => if b =? 0 then 0 else wrap64 (a ÷ b)));
    (* Type conversions *)
    ("toString", fun args =>
       match args with [v] => Some (VString (fmt_Sprint L v)) | _ => None end);
    ("toInt", fun args =>
       match args with
       | [VInt64 v] => Some (VInt64 v)
       | [VInt v] => Some (VInt64 v)
       | [VString s] => Some (VInt64 (fmt_Sscan_d L s))
       | [_] => Some (VInt64 0)
       | _ => None
       end) ].

(** [executeTemplate]: the new key, or the error returned. *)
Definition executeTemplate (ord : map_order) (entry : StarfishEntry)
    (templateStr originalKey : string) : string + template_error :=
  let data :=
    {| Entry := entry;
       ModifyTimeFormatted := time_Format L (GetModifyTime entry) "2006/01/02";
       CreateTimeFormatted := time_Format L (GetCreateTime entry) "2006/01/02";
       AccessTimeFormatted := time_Format L (GetAccessTime entry) "2006/01/02";
       SizeFormatted := formatSize (Size entry);
       OriginalKey := originalKey |} in
  match template_Parse L (funcMap ord) templateStr with
  | None => inr TemplateParseError
  | Some tmpl =>
      match tmpl data with
      | None => inr TemplateExecutionError
      | Some buf =>
          let result := strings_TrimSpace L buf in
          let result := strings_TrimPrefix result "/" in
          inl result
      end
  end.

(* =================================================================== *)
(** ** path_rewrite.go: applyRule, applyPathRewrite                    *)
(* =================================================================== *)

(** [applyRule]: the pair [(matched, key)]. *)
Definition applyRule (ord : map_order) (entry : StarfishEntry) (originalKey : string)
    (rule : PathRewriteRule) : bool * string :=
  match regexp_Compile L (Pattern rule) with
  | None => (false, originalKey)
  | Some re =>
      if negb (re originalKey) then (false, originalKey)
      else
        match executeTemplate ord entry (Template rule) originalKey with
        | inr _ => (false, originalKey)
        | inl newKey => (true, newKey)
        end
  end.

(** [rule.Bucket == "*" || rule.Bucket == bucket]. *)
Definition rule_applies (bucket : string) (rule : PathRewriteRule) : bool :=
  String.eqb (Bucket rule) "*" || String.eqb (Bucket rule) bucket.

(** The loop of [applyPathRewrite] over the sorted rules. *)
Fixpoint rewrite_loop (ord : map_order) (entry : StarfishEntry)
    (originalKey bucket : string) (sortedRules : list PathRewriteRule) : string :=
  match sortedRules with
  | [] => originalKey
  | rule :: rest =>
      if rule_applies bucket rule then
        match applyRule ord entry originalKey rule with
        | (true, newKey) => newKey
        | (false, _) => rewrite_loop ord entry originalKey bucket rest
        end
      else rewrite_loop ord entry originalKey bucket rest
  end.

(** [applyPathRewrite]. *)
Definition applyPathRewrite (ord : map_order) (b : StarfishBackend)
    (entry : StarfishEntry) (originalKey bucket : string) : string :=
  match pathRewriteConfig b with
  | None => originalKey
  | Some cfg =>
      if (length (Rules cfg) =? 0)%nat then originalKey
      else rewrite_loop ord entry originalKey bucket
             (sort_Slice L priority_less (Rules cfg))
  end.

End EntryMethods.

(* ===================================================================== *)
(** ** starfish.go: the listing converter                                  *)
(* ===================================================================== *)

Module s3response.

Record Object := {
  Key : string;
  Size : Z;
  LastModified : Z;
  ETag : string
}.

Record ListObjectsResult := {
  Contents : list Object;
  CommonPrefixes : list string;
  IsTruncated : bool;
  MaxKeys : Z;
  Name : string;
  Prefix : string;
  Delimiter : string
}.

Record ListObjectsV2Result := {
  V2Contents : list Object;
  V2CommonPrefixes : list string;
  V2IsTruncated : bool;
  V2MaxKeys : Z;
  V2Name : string;
  V2Prefix : string;
  V2Delimiter : string;
  V2KeyCount : Z;
  V2StartAfter : string
}.

End s3response.

(** [int32(n)]. *)
Definition wrap32 (z : Z) : Z := (z + 2 ^ 31) mod 2 ^ 32 - 2 ^ 31.

(** [shouldBeCommonPrefix]. The slice [objectKey[len(prefix):]] is taken
    after the [HasPrefix] test, hence in range. *)
Definition shouldBeCommonPrefix (objectKey prefix delimiter : string) : bool :=
  if negb (strings_HasPrefix objectKey prefix) then false
  else
    let afterPrefix := string_drop (String.length prefix) objectKey in
    match strings_Index afterPrefix delimiter with
    | None => false
    | Some delimiterIndex =>
        (delimiterIndex + String.length delimiter <? String.length afterPrefix)%nat
    end.

(** [getCommonPrefix]. The function slices [objectKey[len(prefix):]]
    without a test of its own: [None] is the run-time panic of a slice out
    of range. *)
Definition getCommonPrefix (objectKey prefix delimiter : string) : option string :=
  if (String.length objectKey <? String.length prefix)%nat then None
  else
    let afterPrefix := string_drop (String.length prefix) objectKey in
    match strings_Index afterPrefix delimiter with
    | None => Some prefix
    | Some delimiterIndex =>
        Some (prefix +:+ string_take (delimiterIndex + String.length delimiter) afterPrefix)
    end.

(** [containsCommonPrefix]. *)
Fixpoint containsCommonPrefix (commonPrefixes : list string) (newPrefix : string) : bool :=
  match commonPrefixes with
  | [] => false
  | cp :: rest => if String.eqb cp newPrefix then true else containsCommonPrefix rest newPrefix
  end.

(** [generateETag]. *)
Definition generateETag (entry : StarfishEntry) : string :=
  dquote +:+ itoa (Size entry) +:+ "-" +:+ itoa (ModifyTimeUnix entry) +:+ dquote.

Section Listing.
Variable L : GoLib.

(** [buildObjectKeyFromEntryWithBucket]. Neither the backend nor the
    bucket is consulted by the body. *)
Definition buildObjectKeyFromEntryWithBucket (b : StarfishBackend)
    (entry : StarfishEntry) (bucket : string) : string :=
  if negb (String.eqb (FullPath entry) "") then strings_TrimPrefix (FullPath entry) "/"
  else if negb (String.eqb (ParentPath entry) "") then
    filepath_Join L [ParentPath entry; Filename entry]
  else Filename entry.

(** The variables of the loop of the two converters. *)
Record loop_state := {
  contents : list s3response.Object;
  commonPrefixes : list string;
  isTruncated : bool;
  count : Z
}.

Definition loop_init : loop_state :=
  {| contents := []; commonPrefixes := []; isTruncated := false; count := 0 |}.

(** The loop [for _, entry := range starfishResult.Entries], shared word
    for word by [convertToListObjectsResult] and
    [convertToListObjectsV2Result]. [None] is a panic of the body. *)
Fixpoint convert_loop (b : StarfishBackend) (bucket prefix delimiter startAfter : string)
    (maxKeys : Z) (entries : list StarfishEntry) (st : loop_state) : option loop_state :=
  match entries with
  | [] => Some st
  | entry :: rest =>
      if (0 <? maxKeys) && (maxKeys <=? count st) then
        Some {| contents := contents st; commonPrefixes := commonPrefixes st;
                isTruncated := true; count := count st |}
      else
        let objectKey := buildObjectKeyFromEntryWithBucket b entry bucket in
        if negb (String.eqb startAfter "") && String.leb objectKey startAfter then
          convert_loop b bucket prefix delimiter startAfter maxKeys rest st
        else if negb (String.eqb delimiter "")
                && shouldBeCommonPrefix objectKey prefix delimiter then
          match getCommonPrefix objectKey prefix delimiter with
          | None => None
          | Some commonPrefix =>
              if negb (containsCommonPrefix (commonPrefixes st) commonPrefix) then
                convert_loop b bucket prefix delimiter startAfter maxKeys rest
                  {| contents := contents st;
                     commonPrefixes := (commonPrefixes st ++ [commonPrefix])%list;
                     isTruncated := isTruncated st; count := count st |}
              else convert_loop b bucket prefix delimiter startAfter maxKeys rest st
          end
        else
          let eTag := generateETag entry in
          let modifyTime := GetModifyTime entry in
          convert_loop b bucket prefix delimiter startAfter maxKeys rest
            {| contents :=
                 (contents st ++
                  [ {| s3response.Key := objectKey;
                       s3response.Size := Size entry;
                       s3response.LastModified := modifyTime;
                       s3response.ETag := eTag |} ])%list;
               commonPrefixes := commonPrefixes st;
               isTruncated := isTruncated st;
               count := count st + 1 |}
  end.

(** [convertToListObjectsResult]. *)
Definition convertToListObjectsResult (b : StarfishBackend)
    (starfishResult : StarfishQueryResponse)
    (bucket prefix delimiter startAfter : string) (maxKeys : Z)
    : option s3response.ListObjectsResult :=
  match convert_loop b bucket prefix delimiter startAfter maxKeys
          (Entries starfishResult) loop_init with
  | None => None
  | Some st =>
      Some {| s3response.Contents := contents st;
              s3response.CommonPrefixes := commonPrefixes st;
              s3response.IsTruncated := isTruncated st;
              s3response.MaxKeys := wrap32 maxKeys;
              s3response.Name := bucket;
              s3response.Prefix := prefix;
              s3response.Delimiter := delimiter |}
  end.

(** [convertToListObjectsV2Result]. *)
Definition convertToListObjectsV2Result (b : StarfishBackend)
    (starfishResult : StarfishQueryResponse)
    (bucket prefix delimiter startAfter : string) (maxKeys : Z)
    : option s3response.ListObjectsV2Result :=
  match convert_loop b bucket prefix delimiter startAfter maxKeys
          (Entries starfishResult) loop_init with
  | None => None
  | Some st =>
      Some {| s3response.V2Contents := contents st;
              s3response.V2CommonPrefixes := commonPrefixes st;
              s3response.V2IsTruncated := isTruncated st;
              s3response.V2MaxKeys := wrap32 maxKeys;
              s3response.V2Name := bucket;
              s3response.V2Prefix := prefix;
              s3response.V2Delimiter := delimiter;
              s3response.V2KeyCount := wrap32 (Z.of_nat (length (contents st)));
              s3response.V2StartAfter := startAfter |}
  end.

End Listing.

(* ===================================================================== *)
(** ** Reference definitions used in the statements                        *)
(* ===================================================================== *)

(** Insertion of [x] into a list ordered by [less], after every element it
    does not strictly precede: equal elements keep their order. *)
Fixpoint insert_after_equals {A} (less : A -> A -> bool) (x : A) (l : list A) : list A :=
  match l with
  | [] => [x]
  | y :: rest =>
      if less x y then x :: y :: rest else y :: insert_after_equals less x rest
  end.

(** Insertion sort, stable: what the specification asks of the ordering of
    the rules (descending priority, configuration order on ties). *)
Definition stable_sort {A} (less : A -> A -> bool) (l : list A) : list A :=
  fold_left (fun acc x => insert_after_equals less x acc) l [].

(** The rewrite as the specification words it: the rules are tried in
    descending priority order, stable on ties. *)
Definition applyPathRewrite_stable (L : GoLib) (ord : map_order) (b : StarfishBackend)
    (entry : StarfishEntry) (originalKey bucket : string) : string :=
  match pathRewriteConfig b with
  | None => originalKey
  | Some cfg =>
      rewrite_loop L ord entry originalKey bucket (stable_sort priority_less (Rules cfg))
  end.

(** A rule that fails: its pattern does not compile, or its template does
    not parse or does not execute. *)
Definition rule_fails (L : GoLib) (ord : map_order) (entry : StarfishEntry)
    (originalKey : string) (rule : PathRewriteRule) : bool :=
  match regexp_Compile L (Pattern rule) with
  | None => true
  | Some _ =>
      match executeTemplate L ord entry (Template rule) originalKey with
      | inr _ => true
      | inl _ => false
      end
  end.

(** The tests of the loop body of the converters, named. *)
Definition skipped (startAfter objectKey : string) : bool :=
  negb (String.eqb startAfter "") && String.leb objectKey startAfter.

Definition folded (prefix delimiter objectKey : string) : bool :=
  negb (String.eqb delimiter "") && shouldBeCommonPrefix objectKey prefix delimiter.

Definition at_limit (maxKeys count : Z) : bool := (0 <? maxKeys) && (maxKeys <=? count).

(** The object appended for an entry that is neither skipped nor folded. *)
Definition plain_object (objectKey : string) (entry : StarfishEntry) : s3response.Object :=
  {| s3response.Key := objectKey;
     s3response.Size := Size entry;
     s3response.LastModified := GetModifyTime entry;
     s3response.ETag := generateETag entry |}.

(** Sum of the hit counters of a list of cache entries. *)
Definition sum_hits (l : list (string * CachedResult)) : Z :=
  fold_right (fun kv acc => HitCount (snd kv) + acc) 0 l.

(** An entry is valid at [now] when [now] is not after its expiry. *)
Definition valid_at (now : Z) (kv : string * CachedResult) : bool :=
  negb (time_After now (ExpiresAt (snd kv))).

(* ===================================================================== *)
(** ** An instance of the library, to run the code on examples             *)
(* ===================================================================== *)

(** The examples below run the engine on a handful of patterns and
    templates. [example_lib] interprets exactly those the way Go does:
    the patterns and templates are listed with what [regexp.Compile] and
    [Parse] make of them, and a parsed template is evaluated by a small
    interpreter that calls the functions of the FuncMap. A pattern or a
    template outside the tables is reported as an error, and the library
    functions the examples never reach are given the simplest value of
    their type. *)

Inductive texpr :=
| TField (path : list string)
| TStr (s : string)
| TNum (n : Z)
| TCall (f : string) (args : list texpr).

Inductive tnode :=
| TText (s : string)
| TAction (e : texpr).

Definition entry_field (e : StarfishEntry) (f : string) : option value :=
  if String.eqb f "Filename" then Some (VString (Filename e))
  else if String.eqb f "ParentPath" then Some (VString (ParentPath e))
  else if String.eqb f "FullPath" then Some (VString (FullPath e))
  else if String.eqb f "Volume" then Some (VString (Volume e))
  else if String.eqb f "Size" then Some (VInt64 (Size e))
  else if String.eqb f "ModifyTimeUnix" then Some (VInt64 (ModifyTimeUnix e))
  else None.

Definition data_field (d : TemplateData) (path : list string) : option value :=
  match path with
  | ["Entry"] => Some (VEntry (Entry d))
  | ["Entry"; f] => entry_field (Entry d) f
  | ["OriginalKey"] => Some (VString (OriginalKey d))
  | ["SizeFormatted"] => Some (VString (SizeFormatted d))
  | ["ModifyTimeFormatted"] => Some (VString (ModifyTimeFormatted d))
  | _ => None
  end.

Fixpoint eval_texpr (fm : FuncMap) (d : TemplateData) (e : texpr) : option value :=
  match e with
  | TField path => data_field d path
  | TStr s => Some (VString s)
  | TNum n => Some (VInt64 n)
  | TCall f args =>
      match funcs_lookup fm f with
      | None => None
      | Some g =>
          let fix eval_args (l : list texpr) : option (list value) :=
            match l with
            | [] => Some []
            | a :: rest =>
                match eval_texpr fm d a, eval_args rest with
                | Some v, Some vs => Some (v :: vs)
                | _, _ => None
                end
            end in
          match eval_args args with
          | Some vs => g vs
          | None => None
          end
      end
  end.

(** How a value is printed into the output. *)
Definition print_value (v : value) : option string :=
  match v with
  | VString s => Some s
  | VInt n | VInt64 n => Some (itoa n)
  | VBool true => Some "true"
  | VBool false => Some "false"
  | VStrings l => Some ("[" +:+ strings_Join l " " +:+ "]")
  | VEntry _ | VTime _ => None
  end.

Fixpoint exec_nodes (fm : FuncMap) (d : TemplateData) (nodes : list tnode) : option string :=
  match nodes with
  | [] => Some ""
  | TText s :: rest =>
      match exec_nodes fm d rest with Some out => Some (s +:+ out) | None => None end
  | TAction e :: rest =>
      match eval_texpr fm d e with
      | None => None
      | Some v =>
          match print_value v, exec_nodes fm d rest with
          | Some s, Some out => Some (s +:+ out)
          | _, _ => None
          end
      end
  end.

(** Every function a template calls must be in the FuncMap when it is
    parsed. *)
Fixpoint funcs_defined (fm : FuncMap) (e : texpr) : bool :=
  match e with
  | TCall f args =>
      match funcs_lookup fm f with
      | None => false
      | Some _ => forallb (funcs_defined fm) args
      end
  | _ => true
  end.

Definition node_defined (fm : FuncMap) (n : tnode) : bool :=
  match n with TText _ => true | TAction e => funcs_defined fm e end.

Definition quoted (s : string) : string := dquote +:+ s +:+ dquote.

Definition tmpl_filename : string := "{{.Entry.Filename}}".
Definition tmpl_archive : string := "archive/{{.Entry.Filename}}".
Definition tmpl_all_tags : string := "{{join (getAllTags .Entry) " +:+ quoted "/" +:+ "}}".
Definition tmpl_explicit_tags : string :=
  "{{join (getTagsExplicit .Entry) " +:+ quoted "/" +:+ "}}/{{.Entry.Filename}}".
Definition tmpl_by_size : string :=
  "{{getSizeFormatted .Entry " +:+ quoted "mb" +:+ "}}MB/{{.Entry.Filename}}".
Definition tmpl_first : string := "first/{{.Entry.Filename}}".
Definition tmpl_second : string := "second/{{.Entry.Filename}}".
Definition tmpl_missing_field : string := "{{.Missing}}".
Definition tmpl_unclosed : string := "{{.Entry.Filename".
Definition tmpl_unknown_func : string := "{{nosuch .Entry}}".

Definition filename_node : tnode := TAction (TField ["Entry"; "Filename"]).

(** The templates of the examples, with their parse trees. *)
Definition example_templates : list (string * list tnode) :=
  [ (tmpl_filename, [filename_node]);
    (tmpl_archive, [TText "archive/"; filename_node]);
    (tmpl_all_tags,
      [TAction (TCall "join" [TCall "getAllTags" [TField ["Entry"]]; TStr "/"])]);
    (tmpl_explicit_tags,
      [TAction (TCall "join" [TCall "getTagsExplicit" [TField ["Entry"]]; TStr "/"]);
       TText "/"; filename_node]);
    (tmpl_by_size,
      [TAction (TCall "getSizeFormatted" [TField ["Entry"]; TStr "mb"]);
       TText "MB/"; filename_node]);
    (tmpl_first, [TText "first/"; filename_node]);
    (tmpl_second, [TText "second/"; filename_node]);
    (tmpl_missing_field, [TAction (TField ["Missing"])]);
    (tmpl_unknown_func, [TAction (TCall "nosuch" [TField ["Entry"]])]) ].

Fixpoint assoc {A} (l : list (string * A)) (k : string) : option A :=
  match l with
  | [] => None
  | (k', v) :: rest => if String.eqb k' k then Some v else assoc rest k
  end.

Definition example_Parse (fm : FuncMap) (t : string)
    : option (TemplateData -> option string) :=
  match assoc example_templates t with
  | None => None
  | Some nodes =>
      if forallb (node_defined fm) nodes then Some (fun d => exec_nodes fm d nodes)
      else None
  end.

Definition newline : string := String (ascii_of_nat 10) EmptyString.

Definition pat_any : string := "^(.*)$".
Definition pat_pdf : string := "\.pdf$".
Definition pat_bad : string := "[".

(** The patterns of the examples: [pat_any] matches a key without a line
    break, [pat_pdf] a key that ends in .pdf, and [pat_bad] (an unclosed
    bracket expression) does not compile. *)
Definition example_Compile (p : string) : option (string -> bool) :=
  if String.eqb p pat_any then Some (fun s => negb (strings_Contains s newline))
  else if String.eqb p pat_pdf then Some (fun s => strings_HasSuffix s ".pdf")
  else None.

Definition is_space (c : ascii) : bool :=
  let n := nat_of_ascii c in
  ((9 <=? n) && (n <=? 13))%nat || (n =? 32)%nat.

Fixpoint trim_left_space (s : string) : string :=
  match s with
  | String c rest => if is_space c then trim_left_space rest else s
  | EmptyString => s
  end.

Fixpoint string_rev (s : string) : string :=
  match s with
  | EmptyString => EmptyString
  | String c rest => string_rev rest +:+ String c EmptyString
  end.

(** [strings.TrimSpace] on ASCII text. *)
Definition ascii_TrimSpace (s : string) : string :=
  string_rev (trim_left_space (string_rev (trim_left_space s))).

Definition example_lib_with
    (sorter : (PathRewriteRule -> PathRewriteRule -> bool) ->
              list PathRewriteRule -> list PathRewriteRule) : GoLib :=
  {| regexp_Compile := example_Compile;
     template_Parse := example_Parse;
     sort_Slice := sorter;
     time_Format := fun _ layout => layout;
     filepath_Ext := fun _ => "";
     filepath_Base := fun s => s;
     filepath_Dir := fun s => s;
     filepath_Clean := fun s => s;
     filepath_Join := fun elems => strings_Join elems "/";
     strings_ToLower := fun s => s;
     strings_ToUpper := fun s => s;
     strings_Title := fun s => s;
     strings_TrimSpace := ascii_TrimSpace;
     strings_TrimLeft := fun s _ => s;
     strings_TrimRight := fun s _ => s;
     strings_Replace := fun s _ _ _ => s;
     strings_ReplaceAll := fun s _ _ => s;
     strings_explode := fun s => [s];
     fmt_Sprint := fun v => match print_value v with Some s => s | None => "" end;
     fmt_Sscan_d := fun _ => 0 |}.

(** Insertion sort is what [sort.Slice] runs on a slice of at most twelve
    elements (Go 1.19 and later). *)
Definition example_lib : GoLib := example_lib_with stable_sort.

(** Two orders in which a [range] may visit the keys of a map. *)
Definition order_forward : map_order := fun keys => keys.
Definition order_backward : map_order := fun keys => rev keys.

Definition example_entry : StarfishEntry :=
  {| ID := 1; Filename := "document.pdf"; ParentPath := ""; FullPath := "/data/document.pdf";
     Type_ := 32768; Size := 1048576; Mode := ""; UID := 1000; GID := 1000;
     CreateTimeUnix := 0; ModifyTimeUnix := 1705316400; AccessTimeUnix := 0;
     Volume := "storage1"; Inode := 0; SizeUnit := "";
     TagsExplicitStr := "project-a,important"; TagsInheritedStr := "";
     Zones := [] |}.

Definition backend_with (rules : option PathRewriteConfig) : StarfishBackend :=
  {| apiEndpoint := "http://starfish.example/api"; bearerToken := "token";
     fileServerURL := ""; cache := NewQueryCache 3600000000000 None;
     collections := ∅; pathRewriteConfig := rules;
     backend_metricsManager := None |}.

Definition mk_rule (bucket pattern template : string) (priority : Z) : PathRewriteRule :=
  {| Bucket := bucket; Pattern := pattern; Template := template; Priority := priority |}.

(** An entry that only carries a full path, as a listing sees it. *)
Definition entry_at (full : string) : StarfishEntry :=
  {| ID := 0; Filename := ""; ParentPath := ""; FullPath := full;
     Type_ := 32768; Size := 0; Mode := ""; UID := 0; GID := 0;
     CreateTimeUnix := 0; ModifyTimeUnix := 0; AccessTimeUnix := 0;
     Volume := ""; Inode := 0; SizeUnit := "";
     TagsExplicitStr := ""; TagsInheritedStr := ""; Zones := [] |}.

(** Successive reads of one key, at the given instants. *)
Fixpoint read_all (c : QueryCache) (key : string) (times : list Z)
    : QueryCache * list (option StarfishQueryResponse) :=
  match times with
  | [] => (c, [])
  | now :: rest =>
      let (c1, r) := Get c now key in
      let (c2, rs) := read_all c1 key rest in
      (c2, r :: rs)
  end.

Definition example_response : StarfishQueryResponse :=
  {| Entries := [example_entry]; Total := 1 |}.

(** A cache with a time to live of 10, after [Set] of key [k] at instant 0. *)
Definition example_cache : QueryCache :=
  CacheSet (NewQueryCache 10 None) 0 "k" (Some example_response) "storage1:/data".

(** What one round of the loop of [applyPathRewrite] makes of a rule: the
    new key when the rule is for the bucket and applies, nothing when the
    loop goes on to the next rule. *)
Definition try_rule (L : GoLib) (ord : map_order) (entry : StarfishEntry)
    (originalKey bucket : string) (rule : PathRewriteRule) : option string :=
  if rule_applies bucket rule then
    match applyRule L ord entry originalKey rule with
    | (true, newKey) => Some newKey
    | (false, _) => None
    end
  else None.

(** The rules of the test of the repository, by bucket. *)
Definition rules_by_bucket : list PathRewriteRule :=
  [ mk_rule "*" pat_any tmpl_archive 100;
    mk_rule "Archive" pat_any tmpl_explicit_tags 200;
    mk_rule "Tagged-Data" pat_any tmpl_by_size 300 ].


(** A rule whose template joins the union of the tags. *)
Definition rules_all_tags : list PathRewriteRule :=
  [ mk_rule "*" pat_any tmpl_all_tags 100 ].

(** A pattern that does not compile, a template that does not parse, a
    template that does not execute, and a rule that works. *)
Definition rules_failing : list PathRewriteRule :=
  [ mk_rule "*" pat_bad tmpl_first 400;
    mk_rule "*" pat_any tmpl_unclosed 300;
    mk_rule "*" pat_any tmpl_missing_field 200;
    mk_rule "*" pat_any tmpl_archive 100 ].

Definition backend_of (rules : list PathRewriteRule) : StarfishBackend :=
  backend_with (Some {| Rules := rules |}).

(** The body of the loop of the converters for one entry, past the test of
    the limit: the entry is skipped, folded into a common prefix, or
    appended as a plain object. *)
Definition convert_step (L : GoLib) (b : StarfishBackend)
    (bucket prefix delimiter startAfter : string)
    (st : loop_state) (entry : StarfishEntry) : option loop_state :=
  let objectKey := buildObjectKeyFromEntryWithBucket L b entry bucket in
  if skipped startAfter objectKey then Some st
  else if folded prefix delimiter objectKey then
    match getCommonPrefix objectKey prefix delimiter with
    | None => None
    | Some commonPrefix =>
        if containsCommonPrefix (commonPrefixes st) commonPrefix then Some st
        else Some {| contents := contents st;
                     commonPrefixes := (commonPrefixes st ++ [commonPrefix])%list;
                     isTruncated := isTruncated st; count := count st |}
    end
  else
    Some {| contents := (contents st ++ [plain_object objectKey entry])%list;
            commonPrefixes := commonPrefixes st;
            isTruncated := isTruncated st;
            count := count st + 1 |}.

(** [isTruncated = true; break]. *)
Definition truncate (st : loop_state) : loop_state :=
  {| contents := contents st; commonPrefixes := commonPrefixes st;
     isTruncated := true; count := count st |}.

(** The entries that become plain objects when the listing is not cut
    short: neither skipped by the cursor nor folded. *)
Definition is_plain (L : GoLib) (b : StarfishBackend)
    (bucket prefix delimiter startAfter : string) (entry : StarfishEntry) : bool :=
  let objectKey := buildObjectKeyFromEntryWithBucket L b entry bucket in
  negb (skipped startAfter objectKey) && negb (folded prefix delimiter objectKey).

Definition plain_objects (L : GoLib) (b : StarfishBackend)
    (bucket prefix delimiter startAfter : string) (entries : list StarfishEntry)
    : list s3response.Object :=
  List.map
    (fun e => plain_object (buildObjectKeyFromEntryWithBucket L b e bucket) e)
    (List.filter (is_plain L b bucket prefix delimiter startAfter) entries).

(** The entries that are folded, with the common prefix each stands for. *)
Definition folds_to (L : GoLib) (b : StarfishBackend)
    (bucket prefix delimiter startAfter : string) (entry : StarfishEntry)
    (commonPrefix : string) : Prop :=
  let objectKey := buildObjectKeyFromEntryWithBucket L b entry bucket in
  skipped startAfter objectKey = false /\
  folded prefix delimiter objectKey = true /\
  getCommonPrefix objectKey prefix delimiter = Some commonPrefix.

(** The listing of the delimiter example: two keys under [a/]. *)
Definition example_listing : StarfishQueryResponse :=
  {| Entries := [entry_at "/a/b/c.txt"; entry_at "/a/d.txt"]; Total := 2 |}.

(** Five entries, for the truncation examples. *)
Definition five_entries : StarfishQueryResponse :=
  {| Entries := [entry_at "/k1"; entry_at "/k2"; entry_at "/k3"; entry_at "/k4";
                 entry_at "/k5"];
     Total := 5 |}.

(** [QueryCache.GetCacheMetrics]: the loop is the one of [Stats], written
    out a second time in the source; the result is a map of int64. *)
Definition GetCacheMetrics (c : QueryCache) (now : Z) : gmap string Z :=
  let acc := stats_loop now (map_to_list (data c)) in
  <["starfish_cache_total_hits" := acc_totalHits acc]>
    (<["starfish_cache_expired_entries" := acc_expired acc]>
       (<["starfish_cache_valid_entries" := acc_valid acc]>
          (<["starfish_cache_total_entries" := Z.of_nat (size (data c))]> ∅))).

(** The loop of [validatePathRewriteConfig], from rule [i] on: the error
    returned ([None] is nil). *)
Fixpoint validate_rules (i : Z) (rules : list PathRewriteRule) : option string :=
  match rules with
  | [] => None
  | rule :: rest =>
      if String.eqb (Bucket rule) "" then
        Some ("rule " +:+ itoa i +:+ ": bucket name cannot be empty")
      else if String.eqb (Pattern rule) "" then
        Some ("rule " +:+ itoa i +:+ ": pattern cannot be empty")
      else if String.eqb (Template rule) "" then
        Some ("rule " +:+ itoa i +:+ ": template cannot be empty")
      else if Priority rule <? 0 then
        Some ("rule " +:+ itoa i +:+ ": priority cannot be negative")
      else validate_rules (i + 1) rest
  end.

(** [validatePathRewriteConfig]. *)
Definition validatePathRewriteConfig (config : option PathRewriteConfig) : option string :=
  match config with
  | None => None
  | Some cfg => validate_rules 0 (Rules cfg)
  end.

(** [CreateDefaultPathRewriteConfig]. *)
Definition CreateDefaultPathRewriteConfig : PathRewriteConfig :=
  {| Rules :=
       [ mk_rule "*" "^(.*)$"
           ("{{.GetModifyTimeFormatted " +:+ quoted "2006/01/02" +:+ "}}/{{.Filename}}") 100;
         mk_rule "Archive" "^(.*)$"
           ("{{.GetModifyTimeFormatted " +:+ quoted "01/02/2006" +:+ "}}/{{.Filename}}") 200;
         mk_rule "Tagged-Data" "^(.*)$"
           ("{{join .GetTagsExplicit " +:+ quoted "/" +:+ "}}/{{.Filename}}") 300 ] |}.

(** What the validation asks of a rule. *)
Definition rule_ok (rule : PathRewriteRule) : Prop :=
  Bucket rule <> "" /\ Pattern rule <> "" /\ Template rule <> "" /\ 0 <= Priority rule.

(** The errors of the S3 layer that the read path returns. *)
Inductive APIError :=
| ErrNoSuchKey
| ErrNoSuchBucket
| ErrInternalError
| ErrAccessDenied
| ErrNotImplemented
| ErrNoSuchBucketPolicy.

(** An [error] value: an error of the S3 layer, or any other error with its
    message. *)
Inductive error :=
| S3Error (e : APIError)
| OtherError (msg : string).

Module s3.

Record HeadObjectOutput := {
  ETag : string;
  LastModified : Z;
  ContentLength : Z
}.

(** The fields of the inputs that the listing operations read; each is a
    pointer in Go, [None] is nil, and [MaxKeys] points to an int32. *)
Record ListObjectsInput := {
  Bucket : option string;
  Prefix : option string;
  Delimiter : option string;
  Marker : option string;
  MaxKeys : option Z
}.

Record ListObjectsV2Input := {
  V2Bucket : option string;
  V2Prefix : option string;
  V2Delimiter : option string;
  V2StartAfter : option string;
  V2MaxKeys : option Z
}.

(** The body is the content that the file server sent. *)
Record GetObjectOutput := {
  Body : string;
  ObjectETag : string;
  ObjectLastModified : Z;
  ObjectContentLength : Z
}.

End s3.

(** The search of [HeadObject] and [GetObject] through the entries of the
    query result: the first entry whose key is the object. *)
Fixpoint find_entry (L : GoLib) (b : StarfishBackend) (bucket object : string)
    (entries : list StarfishEntry) : option StarfishEntry :=
  match entries with
  | [] => None
  | entry :: rest =>
      if String.eqb (buildObjectKeyFromEntryWithBucket L b entry bucket) object
      then Some entry
      else find_entry L b bucket object rest
  end.

(** [HeadObject], given what [QueryStarfish] returned for the bucket and
    the conversion [starfishErrToS3Err] of its errors. *)
Definition HeadObject (L : GoLib) (starfishErrToS3Err : error -> error)
    (b : StarfishBackend) (queried : StarfishQueryResponse + error)
    (bucket object : string) : s3.HeadObjectOutput + error :=
  match queried with
  | inr err => inr (starfishErrToS3Err err)
  | inl result =>
      match find_entry L b bucket object (Entries result) with
      | None => inr (S3Error ErrNoSuchKey)
      | Some entry =>
          inl {| s3.ETag := generateETag entry;
                 s3.LastModified := GetModifyTime entry;
                 s3.ContentLength := Size entry |}
      end
  end.

(** The map that [InitializeCollections] builds from the tag names it
    decoded. *)
Definition collections_of (tagNames : list string) : gmap string string :=
  fold_left (fun m tagName => <[tagName := "Collections:" +:+ tagName]> m) tagNames ∅.

Definition with_collections (b : StarfishBackend) (m : gmap string string)
    : StarfishBackend :=
  {| apiEndpoint := apiEndpoint b; bearerToken := bearerToken b;
     fileServerURL := fileServerURL b; cache := cache b;
     collections := m; pathRewriteConfig := pathRewriteConfig b;
     backend_metricsManager := backend_metricsManager b |}.

(** [InitializeCollections], given the outcome of the request to the tag
    set: the tag names decoded, or the error of whichever step failed. Every
    failure returns before the map is touched. *)
Definition InitializeCollections (b : StarfishBackend) (fetched : list string + error)
    : StarfishBackend * option error :=
  match fetched with
  | inr err => (b, Some err)
  | inl tagNames => (with_collections b (collections_of tagNames), None)
  end.

(** [GetCollectionTag]: the pair [(tag, exists)]. *)
Definition GetCollectionTag (b : StarfishBackend) (bucketName : string) : string * bool :=
  match collections b !! bucketName with
  | Some tag => (tag, true)
  | None => ("", false)
  end.

(** [AddCollection]. *)
Definition AddCollection (b : StarfishBackend) (bucketName collectionTag : string)
    : StarfishBackend :=
  with_collections b (<[bucketName := collectionTag]> (collections b)).

(** [GetAllCollections]: a fresh map filled entry by entry. *)
Definition GetAllCollections (b : StarfishBackend) : gmap string string :=
  fold_left (fun result kv => <[fst kv := snd kv]> result)
    (map_to_list (collections b)) ∅.

(** [HeadBucket]: the error returned ([None] is success). *)
Definition HeadBucket (b : StarfishBackend) (bucket : string) : option error :=
  match collections b !! bucket with
  | Some _ => None
  | None => Some (S3Error ErrNoSuchBucket)
  end.

(** The key of an entry, as every operation of the backend builds it. *)
Definition key_of (L : GoLib) (b : StarfishBackend) (bucket : string)
    (entry : StarfishEntry) : string :=
  buildObjectKeyFromEntryWithBucket L b entry bucket.

(** [QueryStarfish]. The collection of the bucket is looked up first, and
    without one the call returns before any request is built. [request]
    stands for the rest of the body, the exchange with the Starfish API for
    a collection tag, a volume path and a filter: the decoded response, or
    the error of the step that failed. *)
Definition QueryStarfish (b : StarfishBackend)
    (request : string -> string -> string -> StarfishQueryResponse + error)
    (bucket volumeAndPath additionalQuery : string) : StarfishQueryResponse + error :=
  match GetCollectionTag b bucket with
  | (_, false) => inr (OtherError ("no Collections: tag found for bucket: " +:+ bucket))
  | (collectionTag, true) => request collectionTag volumeAndPath additionalQuery
  end.

(** The readings of [time.Now()] during one listing call, in the order the
    code takes them: in [Get], before the query, in [time.Since] after it,
    and in [Set]. *)
Record readings := {
  at_Get : Z;
  at_start : Z;
  at_Since : Z;
  at_Set : Z
}.

(** [t.Sub(u)], which saturates, and [d.Milliseconds()]. *)
Definition time_Sub (t u : Z) : Z := Z.max MinInt64 (Z.min MaxInt64 (t - u)).
Definition Milliseconds (d : Z) : Z := Z.quot d 1000000.

Definition with_cache (b : StarfishBackend) (c : QueryCache) : StarfishBackend :=
  {| apiEndpoint := apiEndpoint b; bearerToken := bearerToken b;
     fileServerURL := fileServerURL b; cache := c;
     collections := collections b; pathRewriteConfig := pathRewriteConfig b;
     backend_metricsManager := backend_metricsManager b |}.

Definition with_metrics (b : StarfishBackend) (m : option (list MetricEvent))
    : StarfishBackend :=
  {| apiEndpoint := apiEndpoint b; bearerToken := bearerToken b;
     fileServerURL := fileServerURL b; cache := cache b;
     collections := collections b; pathRewriteConfig := pathRewriteConfig b;
     backend_metricsManager := m |}.

(** [fmt.Sprintf("v1:%s:%s:%s", bucket, prefix, delimiter)], and the same
    with [v2]. *)
Definition cacheKey (version bucket prefix delimiter : string) : string :=
  version +:+ ":" +:+ bucket +:+ ":" +:+ prefix +:+ ":" +:+ delimiter.

(** The block [if b.metricsManager != nil] after the query. The events of
    the backend go to the log of its own field and those of the cache
    methods to the log of the cache; when both fields hold one manager, its
    log is the two in the order of the calls. *)
Definition record_query (b : StarfishBackend) (operation bucket : string)
    (clk : readings) (queried : StarfishQueryResponse + error) : StarfishBackend :=
  let duration := Milliseconds (time_Sub (at_Since clk) (at_start clk)) in
  let tags := [ {| tag_Key := "bucket"; tag_Value := bucket |};
                {| tag_Key := "operation"; tag_Value := operation |} ] in
  let m := metrics_Add (backend_metricsManager b) "starfish_query_duration_ms"
             duration tags in
  with_metrics b
    match queried with
    | inr _ => metrics_Add m "starfish_query_errors" 1 tags
    | inl result =>
        metrics_Add (metrics_Add m "starfish_query_success" 1 tags)
          "starfish_objects_returned" (Z.of_nat (length (Entries result)))
          [ {| tag_Key := "bucket"; tag_Value := bucket |} ]
    end.

Section ListingCalls.
Variable L : GoLib.
Variable starfishErrToS3Err : error -> error.
Variable request : string -> string -> string -> StarfishQueryResponse + error.

(** The body that [ListObjects] and [ListObjectsV2] share from the cache
    key on; they differ in the version of the key, the operation tag of the
    metrics and the converter. The result is the backend after the call
    with what the call returns; [None] is a panic. *)
Definition listing_call {R : Type} (version operation : string)
    (convert : StarfishBackend -> StarfishQueryResponse -> option R)
    (b : StarfishBackend) (clk : readings) (bucket prefix delimiter : string)
    : option (StarfishBackend * (R + error)) :=
  let key := cacheKey version bucket prefix delimiter in
  let (c1, cached) := Get (cache b) (at_Get clk) key in
  let b1 := with_cache b c1 in
  match cached with
  | Some hit =>
      match convert b1 hit with
      | Some r => Some (b1, inl r)
      | None => None
      end
  | None =>
      let additionalQuery := strings_Join ["type=f"] " " in
      let queried := QueryStarfish b1 request bucket "" additionalQuery in
      let b2 := record_query b1 operation bucket clk queried in
      match queried with
      | inr err => Some (b2, inr (starfishErrToS3Err err))
      | inl result =>
          let b3 := with_cache b2
                      (CacheSet (cache b2) (at_Set clk) key (Some result) bucket) in
          match convert b3 result with
          | Some r => Some (b3, inl r)
          | None => None
          end
      end
  end.

(** [ListObjects]. A nil [Bucket] is dereferenced, which panics. *)
Definition ListObjects (b : StarfishBackend) (clk : readings)
    (input : s3.ListObjectsInput)
    : option (StarfishBackend * (s3response.ListObjectsResult + error)) :=
  match s3.Bucket input with
  | None => None
  | Some bucket =>
      let prefix := default "" (s3.Prefix input) in
      let delimiter := default "" (s3.Delimiter input) in
      let startAfter := default "" (s3.Marker input) in
      let maxKeys := default 1000 (s3.MaxKeys input) in
      listing_call "v1" "ListObjects"
        (fun b' result =>
           convertToListObjectsResult L b' result bucket prefix delimiter startAfter maxKeys)
        b clk bucket prefix delimiter
  end.

(** [ListObjectsV2]. *)
Definition ListObjectsV2 (b : StarfishBackend) (clk : readings)
    (input : s3.ListObjectsV2Input)
    : option (StarfishBackend * (s3response.ListObjectsV2Result + error)) :=
  match s3.V2Bucket input with
  | None => None
  | Some bucket =>
      let prefix := default "" (s3.V2Prefix input) in
      let delimiter := default "" (s3.V2Delimiter input) in
      let startAfter := default "" (s3.V2StartAfter input) in
      let maxKeys := default 1000 (s3.V2MaxKeys input) in
      listing_call "v2" "ListObjectsV2"
        (fun b' result =>
           convertToListObjectsV2Result L b' result bucket prefix delimiter startAfter
             maxKeys)
        b clk bucket prefix delimiter
  end.

End ListingCalls.


(** The bytes [0] to [9], and the strings made of them. *)
Definition is_digit (c : ascii) : bool :=
  (48 <=? nat_of_ascii c)%nat && (nat_of_ascii c <=? 57)%nat.

Fixpoint all_digits (s : string) : bool :=
  match s with
  | EmptyString => true
  | String c rest => is_digit c && all_digits rest
  end.


(** What the request to the file server comes to: no request could be
    made of the URL, the exchange failed, or a response with its status and
    body. The messages are those of the underlying errors. *)
Inductive fetch_result :=
| RequestNotCreated (msg : string)
| TransportError (msg : string)
| Response (status : Z) (body : string).

(** [GetObject]. [headQueried] is what [QueryStarfish] returned inside
    [HeadObject] and [queried] what it returned to [GetObject] itself, a
    second request; [fetch] is the request to the file server for a URL,
    sent with the token of the backend in the internal header. *)
Definition GetObject (L : GoLib) (starfishErrToS3Err : error -> error)
    (b : StarfishBackend) (fetch : string -> string -> fetch_result)
    (headQueried queried : StarfishQueryResponse + error)
    (bucket object : string) : s3.GetObjectOutput + error :=
  if String.eqb (fileServerURL b) "" then inr (S3Error ErrNotImplemented)
  else
    match HeadObject L starfishErrToS3Err b headQueried bucket object with
    | inr err => inr err
    | inl headResult =>
        match queried with
        | inr err => inr (starfishErrToS3Err err)
        | inl result =>
            match find_entry L b bucket object (Entries result) with
            | None => inr (S3Error ErrNoSuchKey)
            | Some entry =>
                let filePath :=
                  if negb (String.eqb (FullPath entry) "")
                  then strings_TrimPrefix (FullPath entry) "/"
                  else object in
                let fileURL :=
                  fileServerURL b +:+ "/" +:+ Volume entry +:+ "/" +:+ filePath in
                match fetch fileURL (bearerToken b) with
                | RequestNotCreated msg =>
                    inr (OtherError ("failed to create file server request: " +:+ msg))
                | TransportError msg =>
                    inr (OtherError ("failed to fetch file from file server: " +:+ msg))
                | Response status body =>
                    if status =? 404 then inr (S3Error ErrNoSuchKey)
                    else if negb (status =? 200) then
                      inr (OtherError ("file server returned status " +:+ itoa status))
                    else
                      inl {| s3.Body := body;
                             s3.ObjectETag := s3.ETag headResult;
                             s3.ObjectLastModified := s3.LastModified headResult;
                             s3.ObjectContentLength := s3.ContentLength headResult |}
                end
            end
        end
    end.

(** A backend with a file server, for the examples. *)
Definition backend_with_files (server : string) : StarfishBackend :=
  {| apiEndpoint := "http://starfish.example/api"; bearerToken := "token";
     fileServerURL := server; cache := NewQueryCache 3600000000000 None;
     collections := ∅; pathRewriteConfig := None;
     backend_metricsManager := None |}.


(** The cache of the example with two more keys, set at the same instant. *)
Definition example_cache3 : QueryCache :=
  CacheSet
    (CacheSet example_cache 0 "k2" (Some example_response) "storage1:/data")
    0 "k3" (Some example_response) "storage1:/data".


(* ===================================================================== *)
(** ** sort.Slice as Go runs it (Go 1.19 and later)                        *)
(* ===================================================================== *)

(** The sort of package [sort] behind [sort.Slice]: pattern-defeating
    quicksort over [Less] and [Swap] on indices, with insertion sort for
    ranges of at most twelve elements. The slice is a list, indices are
    integers, and each loop runs for a number of rounds that bounds its
    iterations. *)
Module gosort.

Section Sort.
Context {A : Type}.
Variable less : A -> A -> bool.




































End Sort.

End gosort.




(** The cache of the backend holds under [key] the result [res], to expire
    at [expiry]; the hit counter and the insertion time are left open. *)
Definition holds (b : StarfishBackend) (key : string) (res : StarfishQueryResponse)
    (expiry : Z) : Prop :=
  exists cached,
    data (cache b) !! key = Some cached /\
    Data cached = Some res /\
    ExpiresAt cached = expiry.

(** One [ListObjects] call of a sequence: what Starfish answers at that
    time, the collections as a refresh may have left them before the call,
    the clock readings and the input. *)
Record listing_request := {
  call_request : string -> string -> string -> StarfishQueryResponse + error;
  call_collections : gmap string string;
  call_clock : readings;
  call_input : s3.ListObjectsInput
}.

(** A sequence of [ListObjects] calls on one backend: the backend after the
    last call and the answers in order; [None] when a call panics. *)
Fixpoint ListObjects_all (L : GoLib) (starfishErrToS3Err : error -> error)
    (b : StarfishBackend) (calls : list listing_request)
    : option (StarfishBackend * list (s3response.ListObjectsResult + error)) :=
  match calls with
  | [] => Some (b, [])
  | call :: rest =>
      match ListObjects L starfishErrToS3Err (call_request call)
              (with_collections b (call_collections call))
              (call_clock call) (call_input call) with
      | None => None
      | Some (b1, answer) =>
          match ListObjects_all L starfishErrToS3Err b1 rest with
          | None => None
          | Some (b2, answers) => Some (b2, answer :: answers)
          end
      end
  end.


(* ===================================================================== *)
(** * Properties                                                           *)
(* ===================================================================== *)

(** ** Machine integers *)

Lemma wrap64_small (z : Z) : MinInt64 <= z <= MaxInt64 -> wrap64 z = z.
Proof.
  unfold wrap64, MinInt64, MaxInt64. intros H.
  rewrite Z.mod_small; lia.
Qed.

Lemma wrap64_range (z : Z) : MinInt64 <= wrap64 z <= MaxInt64.
Proof.
  unfold wrap64, MinInt64, MaxInt64.
  pose proof (Z.mod_pos_bound (z + 2 ^ 63) (2 ^ 64) ltac:(lia)). lia.
Qed.

Lemma wrap64_add_l (a b : Z) : wrap64 (wrap64 a + b) = wrap64 (a + b).
Proof.
  unfold wrap64.
  replace ((a + 2 ^ 63) mod 2 ^ 64 - 2 ^ 63 + b + 2 ^ 63)
    with ((a + 2 ^ 63) mod 2 ^ 64 + b) by lia.
  rewrite Zplus_mod_idemp_l. f_equal. f_equal. lia.
Qed.

(** ** The result cache *)

Lemma Get_absent (c : QueryCache) (now : Z) (key : string) :
  data c !! key = None ->
  snd (Get c now key) = None /\ data (fst (Get c now key)) = data c.
Proof. intros H. unfold Get. rewrite H. simpl. auto. Qed.

Lemma Get_expired (c : QueryCache) (now : Z) (key : string) (cached : CachedResult) :
  data c !! key = Some cached -> ExpiresAt cached < now ->
  snd (Get c now key) = None /\ data (fst (Get c now key)) = delete key (data c).
Proof.
  intros H Hexp. unfold Get. rewrite H.
  unfold time_After. destruct (Z.ltb_spec (ExpiresAt cached) now); [simpl; auto | lia].
Qed.

Lemma Get_hit (c : QueryCache) (now : Z) (key : string) (cached : CachedResult) :
  data c !! key = Some cached -> now <= ExpiresAt cached ->
  snd (Get c now key) = Data cached /\
  data (fst (Get c now key)) = <[key := bump cached]> (data c) /\
  defaultTTL (fst (Get c now key)) = defaultTTL c.
Proof.
  intros H Hexp. unfold Get. rewrite H.
  unfold time_After. destruct (Z.ltb_spec (ExpiresAt cached) now); [lia | simpl; auto].
Qed.

(** Reads that all fall at or before the expiry of the entry return its
    data and leave an entry with the same data and expiry. *)
Lemma read_all_hits (times : list Z) :
  forall (c : QueryCache) (key : string) (cached : CachedResult),
    data c !! key = Some cached ->
    Forall (fun t => t <= ExpiresAt cached) times ->
    Forall (fun r => r = Data cached) (snd (read_all c key times)) /\
    exists cached',
      data (fst (read_all c key times)) !! key = Some cached' /\
      Data cached' = Data cached /\ ExpiresAt cached' = ExpiresAt cached.
Proof.
  induction times as [| now rest IH]; intros c key cached Hk Hall; simpl.
  - split; [constructor | exists cached; auto].
  - inversion Hall as [| ? ? Hnow Hrest]; subst.
    destruct (Get_hit c now key cached Hk Hnow) as (Hr & Hd & _).
    destruct (Get c now key) as [c1 r] eqn:HG. simpl in Hr, Hd.
    assert (Hk1 : data c1 !! key = Some (bump cached))
      by (rewrite Hd; apply lookup_insert_eq).
    destruct (IH c1 key (bump cached) Hk1 Hrest) as (Hrs & cached' & Hk' & HD & HE).
    destruct (read_all c1 key rest) as [c2 rs] eqn:HR. simpl in *.
    split; [constructor; auto | exists cached'; auto].
Qed.

(** C2, as the code has it. After [Set] at instant [t0], the entry expires
    at [t0 + TTL]; every read at or before that instant returns the stored
    result, however many reads came before it; a read strictly after that
    instant returns nil and deletes the entry. *)
Theorem C2_get_within_ttl
    (c : QueryCache) (t0 : Z) (key : string) (d : option StarfishQueryResponse)
    (vp : string) (times : list Z) (now : Z) :
  Forall (fun t => t <= t0 + defaultTTL c) times ->
  let c0 := CacheSet c t0 key d vp in
  let c1 := fst (read_all c0 key times) in
  (exists cached, data c0 !! key = Some cached /\ Data cached = d /\
                  CachedAt cached = t0 /\ ExpiresAt cached = t0 + defaultTTL c) /\
  Forall (fun r => r = d) (snd (read_all c0 key times)) /\
  (now <= t0 + defaultTTL c -> snd (Get c1 now key) = d) /\
  (t0 + defaultTTL c < now ->
     snd (Get c1 now key) = None /\ data (fst (Get c1 now key)) !! key = None).
Proof.
  intros Hall c0 c1.
  set (cached := {| Data := d; CachedAt := t0; ExpiresAt := time_Add t0 (defaultTTL c);
                    VolumeAndPath := vp; HitCount := 0 |}).
  assert (Hk : data c0 !! key = Some cached) by (apply lookup_insert_eq).
  destruct (read_all_hits times c0 key cached Hk Hall) as (Hrs & cached' & Hk' & HD & HE).
  split; [exists cached; auto |].
  split; [exact Hrs |].
  split.
  - intros Hnow.
    destruct (Get_hit c1 now key cached' Hk') as (Hr & _); [rewrite HE; exact Hnow |].
    rewrite Hr. exact HD.
  - intros Hnow.
    destruct (Get_expired c1 now key cached' Hk') as (Hr & Hd);
      [rewrite HE; exact Hnow |].
    split; [exact Hr | rewrite Hd; apply lookup_delete_eq].
Qed.

Lemma C2_get_within_ttl_witness :
  Forall (fun r => r = Some example_response)
         (snd (read_all example_cache "k" [3; 10])) /\
  snd (Get (fst (read_all example_cache "k" [3; 10])) 10 "k") = Some example_response /\
  snd (Get (fst (read_all example_cache "k" [3; 10])) 11 "k") = None.
Proof.
  assert (Hall : Forall (fun t => t <= 0 + defaultTTL (NewQueryCache 10 None)) [3; 10])
    by (repeat constructor; simpl; lia).
  pose proof (C2_get_within_ttl (NewQueryCache 10 None) 0 "k" (Some example_response)
                "storage1:/data" [3; 10] 10 Hall) as (_ & Hrs & Hin & _).
  pose proof (C2_get_within_ttl (NewQueryCache 10 None) 0 "k" (Some example_response)
                "storage1:/data" [3; 10] 11 Hall) as (_ & _ & _ & Hout).
  split; [exact Hrs |].
  split; [apply Hin; simpl; lia | apply Hout; simpl; lia].
Defined.

(** C2 as stated fails at the expiry instant itself: a read at
    [insertion time + TTL] still returns the stored result. *)
Lemma C2_counterexample_read_at_expiry :
  ExpiresAt <$> (data example_cache !! "k") = Some 10 /\
  snd (Get example_cache 10 "k") = Some example_response /\
  snd (Get example_cache 10 "k") <> None.
Proof. vm_compute. split; [reflexivity | split; [reflexivity | discriminate]]. Qed.

(** C10. A hit changes nothing in the cache but the hit counter of the
    entry read, which goes up by one: the entry keeps its data, insertion
    time, expiry (a read does not refresh the TTL) and descriptor, every
    other key keeps its entry, and the TTL of the cache is unchanged. The
    counter is an int64 below its maximum. *)
Theorem C10_hit_only_bumps_counter
    (c : QueryCache) (now : Z) (key : string) (cached : CachedResult) :
  data c !! key = Some cached ->
  time_After now (ExpiresAt cached) = false ->
  MinInt64 <= HitCount cached < MaxInt64 ->
  let c' := fst (Get c now key) in
  snd (Get c now key) = Data cached /\
  (exists cached',
     data c' !! key = Some cached' /\
     HitCount cached' = HitCount cached + 1 /\
     Data cached' = Data cached /\
     CachedAt cached' = CachedAt cached /\
     ExpiresAt cached' = ExpiresAt cached /\
     VolumeAndPath cached' = VolumeAndPath cached) /\
  (forall k, k <> key -> data c' !! k = data c !! k) /\
  dom (data c') = dom (data c) /\
  defaultTTL c' = defaultTTL c.
Proof.
  intros Hk Hexp Hrange c'.
  assert (Hnow : now <= ExpiresAt cached)
    by (unfold time_After in Hexp; apply Z.ltb_ge in Hexp; exact Hexp).
  destruct (Get_hit c now key cached Hk Hnow) as (Hr & Hd & Httl).
  subst c'. rewrite Hd.
  split; [exact Hr |].
  split.
  - exists (bump cached). rewrite lookup_insert_eq. simpl.
    repeat split; try reflexivity.
    apply wrap64_small. unfold MinInt64, MaxInt64 in *. lia.
  - split; [intros k Hne; apply lookup_insert_ne; congruence |].
    split; [| exact Httl].
    rewrite dom_insert_L.
    assert (Hin : key ∈ dom (data c)) by (apply elem_of_dom; eauto).
    apply set_eq. intros k. rewrite elem_of_union, elem_of_singleton.
    split; [intros [-> | Hk']; assumption | auto].
Qed.

Lemma C10_hit_only_bumps_counter_witness :
  snd (Get example_cache 5 "k") = Some example_response /\
  (HitCount <$> (data (fst (Get example_cache 5 "k")) !! "k")) = Some 1 /\
  (ExpiresAt <$> (data (fst (Get example_cache 5 "k")) !! "k")) = Some 10.
Proof.
  pose (cached := {| Data := Some example_response; CachedAt := 0; ExpiresAt := 10;
                     VolumeAndPath := "storage1:/data"; HitCount := 0 |}).
  assert (Hk : data example_cache !! "k" = Some cached) by (vm_compute; reflexivity).
  assert (Hexp : time_After 5 (ExpiresAt cached) = false) by reflexivity.
  assert (Hrange : MinInt64 <= HitCount cached < MaxInt64)
    by (unfold MinInt64, MaxInt64; simpl; lia).
  destruct (C10_hit_only_bumps_counter example_cache 5 "k" cached Hk Hexp Hrange)
    as (Hr & (cached' & Hk' & Hh & _ & _ & He & _) & _).
  split; [exact Hr |].
  rewrite Hk'. simpl. rewrite Hh, He. split; reflexivity.
Defined.

(** ** Clear and Stats *)

(** C8, as the code has it. [Clear] empties the map and has no result; the
    number of entries removed goes to the metrics manager, when there is
    one, as the value of [starfish_cache_clear]; [Stats] after [Clear]
    reports zero entries. *)
Theorem C8_clear_empties_cache (c : QueryCache) (now : Z) :
  let c' := fst (Clear c) in
  data c' = ∅ /\
  snd (Clear c) = tt /\
  defaultTTL c' = defaultTTL c /\
  metricsManager c' =
    match metricsManager c with
    | None => None
    | Some log =>
        Some (log ++ [ {| metric_name := "starfish_cache_clear";
                          metric_value := Z.of_nat (size (data c)); metric_tags := [] |};
                       {| metric_name := "starfish_cache_entries";
                          metric_value := 0; metric_tags := [] |} ])%list
    end /\
  total_entries (Stats c' now) = 0 /\
  valid_entries (Stats c' now) = 0 /\
  expired_entries (Stats c' now) = 0.
Proof.
  simpl. split; [reflexivity |]. split; [reflexivity |]. split; [reflexivity |].
  split.
  - destruct (metricsManager c) as [log |]; simpl; [| reflexivity].
    rewrite <- app_assoc. reflexivity.
  - unfold Stats, stats_loop. simpl.
    rewrite map_size_empty, map_to_list_empty. simpl. auto.
Qed.

(** C8 as stated fails: [Clear] returns no count. With no metrics manager,
    clearing a cache of one entry and clearing an empty cache give the same
    result and the same cache, so nothing [Clear] hands back tells how many
    entries were removed. *)
Lemma C8_counterexample_no_count_returned :
  size (data example_cache) = 1%nat /\
  size (data (NewQueryCache 10 None)) = 0%nat /\
  Clear example_cache = Clear (NewQueryCache 10 None).
Proof. vm_compute. auto. Qed.

Lemma stats_loop_counts (now : Z) (l : list (string * CachedResult)) :
  forall acc : StatsAcc,
    let r := fold_left (fun a kv => stats_step now a (snd kv)) l acc in
    acc_valid r = acc_valid acc + Z.of_nat (length (List.filter (valid_at now) l)) /\
    acc_expired r =
      acc_expired acc + Z.of_nat (length (List.filter (fun kv => negb (valid_at now kv)) l)) /\
    wrap64 (acc_totalHits r) =
      wrap64 (acc_totalHits acc + sum_hits (List.filter (valid_at now) l)) /\
    (acc_totalHits acc = wrap64 (acc_totalHits acc) ->
     acc_totalHits r = wrap64 (acc_totalHits r)).
Proof.
  induction l as [| [k cached] rest IH]; intros acc; simpl.
  - repeat split; try lia; try (f_equal; lia); auto.
  - assert (Hval : valid_at now (k, cached) = negb (time_After now (ExpiresAt cached)))
      by reflexivity.
    rewrite !Hval.
    specialize (IH (stats_step now acc cached)). cbv zeta in IH.
    destruct (time_After now (ExpiresAt cached)) eqn:HA.
    + assert (Hs : stats_step now acc cached =
                   {| acc_valid := acc_valid acc; acc_expired := acc_expired acc + 1;
                      acc_totalHits := acc_totalHits acc |})
        by (unfold stats_step; rewrite HA; reflexivity).
      rewrite Hs in *. simpl in IH |- *.
      destruct IH as (Hv & He & Hh & Hw).
      split; [rewrite Hv; lia |]. split; [rewrite He; lia |].
      split; [rewrite Hh; reflexivity |]. exact Hw.
    + assert (Hs : stats_step now acc cached =
                   {| acc_valid := acc_valid acc + 1; acc_expired := acc_expired acc;
                      acc_totalHits := wrap64 (acc_totalHits acc + HitCount cached) |})
        by (unfold stats_step; rewrite HA; reflexivity).
      rewrite Hs in *. simpl in IH |- *.
      destruct IH as (Hv & He & Hh & Hw).
      split; [rewrite Hv; lia |]. split; [rewrite He; lia |].
      split; [rewrite Hh, wrap64_add_l; f_equal; lia |].
      intros _. apply Hw.
      pose proof (wrap64_range (acc_totalHits acc + HitCount cached)) as Hr.
      symmetry. apply wrap64_small. exact Hr.
Qed.

Lemma filter_split_length {A} (p : A -> bool) (l : list A) :
  (length (List.filter p l) + length (List.filter (fun x => negb (p x)) l))%nat = length l.
Proof.
  induction l as [| x rest IH]; simpl; [reflexivity |].
  destruct (p x); simpl; lia.
Qed.

(** C9, as the code has it. [Stats] reports the number of entries, how many
    of them are valid at [now] (not after their expiry) and how many are
    expired; the total of hits is the sum, on int64, of the hit counters of
    the valid entries only; the ratio is the float64 quotient of that total,
    converted to float64, by the number of entries, converted to float64,
    and [0.0] for an empty cache. *)
Theorem C9_stats_counts_and_ratio (c : QueryCache) (now : Z) :
  let l := map_to_list (data c) in
  let s := Stats c now in
  total_entries s = Z.of_nat (size (data c)) /\
  valid_entries s = Z.of_nat (length (List.filter (valid_at now) l)) /\
  expired_entries s = Z.of_nat (length (List.filter (fun kv => negb (valid_at now kv)) l)) /\
  valid_entries s + expired_entries s = total_entries s /\
  total_hits s = wrap64 (sum_hits (List.filter (valid_at now) l)) /\
  (size (data c) <> 0%nat ->
   cache_hit_ratio s =
   float64_div
     (float64_of_int (wrap64 (sum_hits (List.filter (valid_at now) l))))
     (float64_of_int (Z.of_nat (size (data c))))) /\
  (size (data c) = 0%nat -> cache_hit_ratio s = float64_zero).
Proof.
  intros l s.
  destruct (stats_loop_counts now l
              {| acc_valid := 0; acc_expired := 0; acc_totalHits := 0 |})
    as (Hv & He & Hh & Hw).
  simpl in Hv, He, Hh, Hw.
  assert (Hlen : length l = size (data c)) by apply length_map_to_list.
  pose proof (filter_split_length (valid_at now) l) as Hsplit.
  assert (Hhits : acc_totalHits (stats_loop now l) =
                  wrap64 (sum_hits (List.filter (valid_at now) l)))
    by (unfold stats_loop; rewrite (Hw eq_refl); exact Hh).
  subst s. unfold Stats. fold l. cbn [total_entries valid_entries expired_entries
                                      total_hits cache_hit_ratio].
  split; [reflexivity |].
  split; [exact Hv |].
  split; [exact He |].
  split; [unfold stats_loop; rewrite Hv, He; lia |].
  split; [exact Hhits |].
  split.
  - intros Hne. rewrite Hhits.
    destruct (Z.ltb_spec 0 (Z.of_nat (size (data c)))); [reflexivity | lia].
  - intros Hz. rewrite Hz. reflexivity.
Qed.

Lemma C9_stats_counts_and_ratio_witness :
  total_entries (Stats (fst (Get example_cache3 5 "k")) 7) = 3 /\
  valid_entries (Stats (fst (Get example_cache3 5 "k")) 7) = 3 /\
  total_hits (Stats (fst (Get example_cache3 5 "k")) 7) = 1 /\
  cache_hit_ratio (Stats (fst (Get example_cache3 5 "k")) 7)
  = SpecFloat.S754_finite false 6004799503160661 (-54).
Proof.
  destruct (C9_stats_counts_and_ratio (fst (Get example_cache3 5 "k")) 7)
    as (Ht & Hv & _ & _ & Hh & Hr & _).
  assert (Hne : size (data (fst (Get example_cache3 5 "k"))) <> 0%nat)
    by (vm_compute; discriminate).
  specialize (Hr Hne).
  cbv zeta in *.
  rewrite Hr, Hh, Ht, Hv.
  vm_compute. auto.
Defined.

(** C9 as stated fails: the hits of expired entries are left out of the
    ratio. One entry, read once before its expiry: after the expiry
    [Stats] reports a ratio of 0.0, where the hits of all entries over the
    number of entries is 1.0. *)
Lemma C9_counterexample_expired_hits_dropped :
  let c := fst (Get example_cache 5 "k") in
  sum_hits (map_to_list (data c)) = 1 /\
  total_entries (Stats c 20) = 1 /\
  cache_hit_ratio (Stats c 20) = float64_zero /\
  float64_div (float64_of_int (sum_hits (map_to_list (data c))))
    (float64_of_int (total_entries (Stats c 20)))
  = SpecFloat.S754_finite false 4503599627370496 (-52) /\
  cache_hit_ratio (Stats c 20)
  <> float64_div (float64_of_int (sum_hits (map_to_list (data c))))
       (float64_of_int (total_entries (Stats c 20))).
Proof.
  vm_compute. repeat split; try reflexivity. discriminate.
Qed.

(** ** Sorting the rules *)

Lemma insert_after_equals_perm {A} (less : A -> A -> bool) (x : A) (l : list A) :
  Permutation (insert_after_equals less x l) (x :: l).
Proof.
  induction l as [| y rest IH]; simpl; [reflexivity |].
  destruct (less x y); [reflexivity |].
  rewrite IH. apply perm_swap.
Qed.

Lemma descending_cons_inv (y : PathRewriteRule) (l : list PathRewriteRule) :
  descending (y :: l) ->
  Forall (fun z => Priority z <= Priority y) l /\ descending l.
Proof. intros H. inversion H; subst. split; assumption. Qed.

Lemma insert_after_equals_descending (x : PathRewriteRule) (l : list PathRewriteRule) :
  descending l -> descending (insert_after_equals priority_less x l).
Proof.
  induction l as [| y rest IH]; intros Hd; simpl.
  - constructor; constructor.
  - apply descending_cons_inv in Hd as [Hy Hrest].
    unfold priority_less at 1.
    destruct (Z.ltb_spec (Priority y) (Priority x)) as [Hlt | Hge].
    + constructor; [| constructor; assumption].
      constructor; [lia |].
      eapply Forall_impl; [exact Hy |]. simpl. intros z Hz. lia.
    + constructor; [| apply IH; exact Hrest].
      eapply Permutation_Forall;
        [symmetry; apply insert_after_equals_perm |].
      constructor; assumption.
Qed.

Lemma fold_insert_sorts
    (ins : PathRewriteRule -> list PathRewriteRule -> list PathRewriteRule) :
  (forall x l, Permutation (ins x l) (x :: l)) ->
  (forall x l, descending l -> descending (ins x l)) ->
  forall l acc,
    descending acc ->
    Permutation (fold_left (fun a x => ins x a) l acc) (l ++ acc) /\
    descending (fold_left (fun a x => ins x a) l acc).
Proof.
  intros Hperm Hdesc l.
  induction l as [| x rest IH]; intros acc Hacc; simpl.
  - split; [reflexivity | exact Hacc].
  - destruct (IH (ins x acc) (Hdesc x acc Hacc)) as [Hp Hd].
    split; [| exact Hd].
    rewrite Hp, Hperm. symmetry. apply Permutation_middle.
Qed.

Lemma stable_sort_contract (l : list PathRewriteRule) :
  Permutation (stable_sort priority_less l) l /\ descending (stable_sort priority_less l).
Proof.
  destruct (fold_insert_sorts (insert_after_equals priority_less)
              (insert_after_equals_perm priority_less)
              insert_after_equals_descending l []) as [Hp Hd]; [constructor |].
  split; [| exact Hd].
  unfold stable_sort. rewrite Hp, app_nil_r. reflexivity.
Qed.

Lemma example_lib_contract : sort_Slice_contract example_lib.
Proof. intros rules. apply stable_sort_contract. Qed.

Lemma order_forward_admissible : admissible_order order_forward.
Proof. intros keys. reflexivity. Qed.

Lemma order_backward_admissible : admissible_order order_backward.
Proof. intros keys. symmetry. apply Permutation_rev. Qed.


(** ** The path rewrite engine *)

Section Rewrite.
Variable L : GoLib.
Variable ord : map_order.
Variable entry : StarfishEntry.
Variable originalKey : string.

Lemma rule_fails_spec (rule : PathRewriteRule) :
  rule_fails L ord entry originalKey rule = true <->
  regexp_Compile L (Pattern rule) = None \/
  (regexp_Compile L (Pattern rule) <> None /\
   exists err, executeTemplate L ord entry (Template rule) originalKey = inr err).
Proof.
  unfold rule_fails.
  destruct (regexp_Compile L (Pattern rule)) as [re |]; [| tauto].
  destruct (executeTemplate L ord entry (Template rule) originalKey) as [k | err].
  - split; [discriminate |]. intros [H | [_ [err H]]]; discriminate.
  - split; [| reflexivity]. intros _. right. split; [discriminate | eauto].
Qed.

Lemma applyRule_fails (rule : PathRewriteRule) :
  rule_fails L ord entry originalKey rule = true ->
  applyRule L ord entry originalKey rule = (false, originalKey).
Proof.
  unfold rule_fails, applyRule.
  destruct (regexp_Compile L (Pattern rule)) as [re |]; [| reflexivity].
  destruct (executeTemplate L ord entry (Template rule) originalKey) as [k | err];
    [discriminate |].
  intros _. destruct (negb (re originalKey)); reflexivity.
Qed.

Lemma applyRule_unmatched (rule : PathRewriteRule) (k : string) :
  applyRule L ord entry originalKey rule = (false, k) -> k = originalKey.
Proof.
  unfold applyRule.
  destruct (regexp_Compile L (Pattern rule)) as [re |]; [| congruence].
  destruct (negb (re originalKey)); [congruence |].
  destruct (executeTemplate L ord entry (Template rule) originalKey); congruence.
Qed.

Lemma try_rule_fails (bucket : string) (rule : PathRewriteRule) :
  rule_fails L ord entry originalKey rule = true ->
  try_rule L ord entry originalKey bucket rule = None.
Proof.
  intros H. unfold try_rule. rewrite (applyRule_fails rule H).
  destruct (rule_applies bucket rule); reflexivity.
Qed.

Lemma rewrite_loop_cons (bucket : string) (rule : PathRewriteRule)
    (rest : list PathRewriteRule) :
  rewrite_loop L ord entry originalKey bucket (rule :: rest) =
  match try_rule L ord entry originalKey bucket rule with
  | Some k => k
  | None => rewrite_loop L ord entry originalKey bucket rest
  end.
Proof.
  simpl. unfold try_rule.
  destruct (rule_applies bucket rule); [| reflexivity].
  destruct (applyRule L ord entry originalKey rule) as [[|] k]; reflexivity.
Qed.

Lemma rewrite_loop_skip (bucket : string) (pre rest : list PathRewriteRule) :
  Forall (fun r => try_rule L ord entry originalKey bucket r = None) pre ->
  rewrite_loop L ord entry originalKey bucket (pre ++ rest) =
  rewrite_loop L ord entry originalKey bucket rest.
Proof.
  induction pre as [| r pre IH]; intros H; [reflexivity |].
  inversion H as [| ? ? Hr Hpre]; subst.
  change ((r :: pre) ++ rest)%list with (r :: (pre ++ rest))%list.
  rewrite rewrite_loop_cons, Hr. apply IH. exact Hpre.
Qed.

Lemma rewrite_loop_first (bucket : string) (pre post : list PathRewriteRule)
    (rule : PathRewriteRule) (k : string) :
  Forall (fun r => try_rule L ord entry originalKey bucket r = None) pre ->
  try_rule L ord entry originalKey bucket rule = Some k ->
  rewrite_loop L ord entry originalKey bucket (pre ++ rule :: post) = k.
Proof.
  intros Hpre Hrule. rewrite (rewrite_loop_skip bucket pre _ Hpre).
  rewrite rewrite_loop_cons, Hrule. reflexivity.
Qed.


Lemma applyPathRewrite_sorted (b : StarfishBackend) (cfg : PathRewriteConfig)
    (bucket : string) :
  sort_Slice_contract L ->
  pathRewriteConfig b = Some cfg ->
  applyPathRewrite L ord b entry originalKey bucket =
  rewrite_loop L ord entry originalKey bucket (sort_Slice L priority_less (Rules cfg)).
Proof.
  intros HS Hcfg. unfold applyPathRewrite. rewrite Hcfg.
  destruct (Rules cfg) as [| r rs] eqn:HR; simpl; [| reflexivity].
  destruct (HS []) as [Hp _].
  symmetry in Hp. apply Permutation_nil in Hp. rewrite Hp. reflexivity.
Qed.

End Rewrite.


Lemma applyRule_yields (L : GoLib) (ord : map_order) (entry : StarfishEntry)
    (originalKey : string) (rule : PathRewriteRule) (k : string) :
  applyRule L ord entry originalKey rule = (true, k) <->
  exists re,
    regexp_Compile L (Pattern rule) = Some re /\ re originalKey = true /\
    executeTemplate L ord entry (Template rule) originalKey = inl k.
Proof.
  unfold applyRule. split.
  - destruct (regexp_Compile L (Pattern rule)) as [re |]; [| discriminate].
    destruct (re originalKey) eqn:Hm; simpl; [| discriminate].
    destruct (executeTemplate L ord entry (Template rule) originalKey) as [k' | err];
      [| discriminate].
    intros [= ->]. exists re. auto.
  - intros (re & -> & -> & ->). reflexivity.
Qed.

Lemma try_rule_some (L : GoLib) (ord : map_order) (entry : StarfishEntry)
    (originalKey bucket : string) (rule : PathRewriteRule) (k : string) :
  try_rule L ord entry originalKey bucket rule = Some k <->
  (Bucket rule = "*" \/ Bucket rule = bucket) /\
  applyRule L ord entry originalKey rule = (true, k).
Proof.
  unfold try_rule, rule_applies.
  destruct (String.eqb_spec (Bucket rule) "*") as [Hw | Hw];
    destruct (String.eqb_spec (Bucket rule) bucket) as [Hb | Hb]; simpl;
    destruct (applyRule L ord entry originalKey rule) as [[|] k'];
    split; try discriminate; try (intros [= ->]; auto); try (intros [_ [= ->]]; reflexivity);
    intros [[H | H] _]; contradiction.
Qed.

Lemma try_rule_none (L : GoLib) (ord : map_order) (entry : StarfishEntry)
    (originalKey bucket : string) (rule : PathRewriteRule) :
  try_rule L ord entry originalKey bucket rule = None <->
  ~ (Bucket rule = "*" \/ Bucket rule = bucket) \/
  forall k, applyRule L ord entry originalKey rule <> (true, k).
Proof.
  destruct (try_rule L ord entry originalKey bucket rule) as [k |] eqn:Ht.
  - apply try_rule_some in Ht as [Hb Hk]. split; [discriminate |].
    intros [H | H]; [contradiction | exfalso; exact (H k Hk)].
  - split; [| reflexivity]. intros _.
    destruct (String.eqb_spec (Bucket rule) "*") as [Hw | Hw]; [| destruct
      (String.eqb_spec (Bucket rule) bucket) as [Hb | Hb]].
    + right. intros k Hk.
      assert (Hs : try_rule L ord entry originalKey bucket rule = Some k)
        by (apply try_rule_some; auto).
      congruence.
    + right. intros k Hk.
      assert (Hs : try_rule L ord entry originalKey bucket rule = Some k)
        by (apply try_rule_some; auto).
      congruence.
    + left. tauto.
Qed.




(** C7. A rule whose pattern does not compile, whose template does not
    parse or whose template does not execute is reported by [applyRule] as
    not matched, with the original key, and [applyPathRewrite] goes on to
    the next rule: when every rule tried before a rule fails, is for
    another bucket or does not match, and that rule is for the bucket and
    yields a key, the result is that key; failing rules can be taken out of
    the list without changing what the loop returns; when every
    configured rule fails the original key comes back. [applyPathRewrite]
    returns a key in every case: it has no error result. *)
Theorem C7_rule_failure_is_not_fatal
    (L : GoLib) (ord : map_order) (entry : StarfishEntry) (originalKey : string) :
  let fails rule :=
    regexp_Compile L (Pattern rule) = None \/
    executeTemplate L ord entry (Template rule) originalKey = inr TemplateParseError \/
    executeTemplate L ord entry (Template rule) originalKey = inr TemplateExecutionError in
  (forall rule,
     fails rule -> applyRule L ord entry originalKey rule = (false, originalKey)) /\
  (forall b cfg bucket pre rule post re k,
     sort_Slice_contract L ->
     pathRewriteConfig b = Some cfg ->
     sort_Slice L priority_less (Rules cfg) = (pre ++ rule :: post)%list ->
     Forall (fun r =>
               fails r \/
               (Bucket r <> "*" /\ Bucket r <> bucket) \/
               (exists re', regexp_Compile L (Pattern r) = Some re' /\
                            re' originalKey = false)) pre ->
     Bucket rule = "*" \/ Bucket rule = bucket ->
     regexp_Compile L (Pattern rule) = Some re ->
     re originalKey = true ->
     executeTemplate L ord entry (Template rule) originalKey = inl k ->
     applyPathRewrite L ord b entry originalKey bucket = k) /\
  (forall rule bucket rest,
     fails rule ->
     rewrite_loop L ord entry originalKey bucket (rule :: rest) =
     rewrite_loop L ord entry originalKey bucket rest) /\
  (forall bucket rules,
     rewrite_loop L ord entry originalKey bucket rules =
     rewrite_loop L ord entry originalKey bucket
       (List.filter (fun r => negb (rule_fails L ord entry originalKey r)) rules)) /\
  (forall b bucket,
     sort_Slice_contract L ->
     (forall cfg rule, pathRewriteConfig b = Some cfg -> In rule (Rules cfg) ->
                       fails rule) ->
     applyPathRewrite L ord b entry originalKey bucket = originalKey).
Proof.
  intros fails.
  assert (Hfails : forall rule, fails rule ->
                                rule_fails L ord entry originalKey rule = true).
  { intros rule [Hc | [Hp | He]]; unfold rule_fails.
    - rewrite Hc. reflexivity.
    - rewrite Hp. destruct (regexp_Compile L (Pattern rule)); reflexivity.
    - rewrite He. destruct (regexp_Compile L (Pattern rule)); reflexivity. }
  assert (Hfilter : forall bucket rules,
     rewrite_loop L ord entry originalKey bucket rules =
     rewrite_loop L ord entry originalKey bucket
       (List.filter (fun r => negb (rule_fails L ord entry originalKey r)) rules)).
  { intros bucket rules. induction rules as [| r rest IH]; [reflexivity |].
    cbn [List.filter].
    destruct (rule_fails L ord entry originalKey r) eqn:Hf; cbn [negb].
    - rewrite rewrite_loop_cons, (try_rule_fails L ord entry originalKey bucket r Hf).
      exact IH.
    - rewrite !rewrite_loop_cons, IH. reflexivity. }
  split; [| split; [| split; [| split; [exact Hfilter |]]]].
  - intros rule Hf. apply applyRule_fails. apply Hfails. exact Hf.
  - intros b cfg bucket pre rule post re k HS Hcfg Hsorted Hpre Hb Hre Hm Hk.
    rewrite (applyPathRewrite_sorted L ord entry originalKey b cfg bucket HS Hcfg).
    rewrite Hsorted. apply rewrite_loop_first.
    + eapply Forall_impl; [exact Hpre |]. intros r [Hf | [[Hw Hn] | (re' & Hc & Hno)]].
      * apply try_rule_fails. apply Hfails. exact Hf.
      * apply try_rule_none. left. tauto.
      * apply try_rule_none. right. intros k' Hk'.
        apply applyRule_yields in Hk' as (re'' & Hc' & Hyes & _). congruence.
    + apply try_rule_some. split; [exact Hb |].
      apply applyRule_yields. exists re. auto.
  - intros rule bucket rest Hf.
    rewrite rewrite_loop_cons,
      (try_rule_fails L ord entry originalKey bucket rule (Hfails rule Hf)).
    reflexivity.
  - intros b bucket HS Hall.
    destruct (pathRewriteConfig b) as [cfg |] eqn:Hcfg;
      [| unfold applyPathRewrite; rewrite Hcfg; reflexivity].
    rewrite (applyPathRewrite_sorted L ord entry originalKey b cfg bucket HS Hcfg).
    destruct (HS (Rules cfg)) as [Hperm _].
    rewrite <- (app_nil_r (sort_Slice L priority_less (Rules cfg))).
    rewrite rewrite_loop_skip; [reflexivity |].
    apply List.Forall_forall. intros r Hr.
    apply try_rule_fails. apply Hfails. apply (Hall cfg r eq_refl).
    eapply Permutation_in; [exact Hperm | exact Hr].
Qed.

Lemma C7_rule_failure_is_not_fatal_witness :
  applyRule example_lib order_forward example_entry "data/document.pdf"
    (mk_rule "*" pat_bad tmpl_first 400) = (false, "data/document.pdf") /\
  applyRule example_lib order_forward example_entry "data/document.pdf"
    (mk_rule "*" pat_any tmpl_unclosed 300) = (false, "data/document.pdf") /\
  applyRule example_lib order_forward example_entry "data/document.pdf"
    (mk_rule "*" pat_any tmpl_missing_field 200) = (false, "data/document.pdf") /\
  applyPathRewrite example_lib order_forward (backend_of rules_failing)
    example_entry "data/document.pdf" "b" = "archive/document.pdf" /\
  applyPathRewrite example_lib order_forward
    (backend_of [mk_rule "*" pat_bad tmpl_first 400;
                 mk_rule "*" pat_any tmpl_missing_field 200])
    example_entry "data/document.pdf" "b" = "data/document.pdf".
Proof.
  destruct (C7_rule_failure_is_not_fatal example_lib order_forward example_entry
              "data/document.pdf") as (Hrule & Hnext & _ & _ & Hall).
  split; [apply Hrule; left; reflexivity |].
  split; [apply Hrule; right; left; reflexivity |].
  split; [apply Hrule; right; right; reflexivity |].
  split.
  - eapply (Hnext (backend_of rules_failing) {| Rules := rules_failing |} "b"
              [mk_rule "*" pat_bad tmpl_first 400;
               mk_rule "*" pat_any tmpl_unclosed 300;
               mk_rule "*" pat_any tmpl_missing_field 200]
              (mk_rule "*" pat_any tmpl_archive 100) []).
    + exact example_lib_contract.
    + reflexivity.
    + reflexivity.
    + constructor; [left; left; reflexivity |].
      constructor; [left; right; left; reflexivity |].
      constructor; [left; right; right; reflexivity | constructor].
    + left. reflexivity.
    + reflexivity.
    + reflexivity.
    + reflexivity.
  - apply Hall; [exact example_lib_contract |].
    intros cfg rule Hcfg Hin. injection Hcfg as <-.
    simpl in Hin. destruct Hin as [<- | [<- | []]];
      [left; reflexivity | right; right; reflexivity].
Defined.

(** C6 fails on the code. [GetAllTags] collects the tags in a map and
    returns its keys in the order of a [range] over it, which Go leaves
    open: the same entry, rules and bucket give two different keys under
    two orders of visiting the two tags. *)
Theorem C6_rewrite_depends_on_map_order :
  admissible_order order_forward /\
  admissible_order order_backward /\
  applyPathRewrite example_lib order_forward (backend_of rules_all_tags)
    example_entry "data/document.pdf" "Archive" = "important/project-a" /\
  applyPathRewrite example_lib order_backward (backend_of rules_all_tags)
    example_entry "data/document.pdf" "Archive" = "project-a/important".
Proof.
  split; [exact order_forward_admissible |].
  split; [exact order_backward_admissible |].
  split; vm_compute; reflexivity.
Qed.

(** ** Strings *)

Section StringFacts.
Local Open Scope nat_scope.

Lemma append_cons (c : ascii) (s t : string) : String c s +:+ t = String c (s +:+ t).
Proof. reflexivity. Qed.

Lemma length_append (s t : string) :
  String.length (s +:+ t) = String.length s + String.length t.
Proof.
  induction s as [| c s IH]; [reflexivity |].
  rewrite append_cons. simpl. rewrite IH. reflexivity.
Qed.

Lemma append_assoc (s t u : string) : (s +:+ t) +:+ u = s +:+ (t +:+ u).
Proof.
  induction s as [| c s IH]; [reflexivity |].
  rewrite !append_cons, IH. reflexivity.
Qed.

Lemma append_nil_r (s : string) : s +:+ "" = s.
Proof.
  induction s as [| c s IH]; [reflexivity |].
  rewrite append_cons, IH. reflexivity.
Qed.

Lemma prefix_split (p s : string) :
  String.prefix p s = true <-> exists r, s = p +:+ r.
Proof.
  revert s. induction p as [| c p IH]; intros s.
  - split; [intros _; exists s; reflexivity | intros _; destruct s; reflexivity].
  - destruct s as [| c' s]; simpl.
    + split; [discriminate | intros [r Hr]; rewrite append_cons in Hr; discriminate].
    + destruct (ascii_dec c c') as [-> | Hne].
      * rewrite IH. split; intros [r Hr]; exists r;
          [rewrite append_cons | rewrite append_cons in Hr]; congruence.
      * split; [discriminate | intros [r Hr]; rewrite append_cons in Hr; congruence].
Qed.

Lemma substring_all (s : string) : String.substring 0 (String.length s) s = s.
Proof. induction s as [| c s IH]; simpl; [reflexivity | rewrite IH; reflexivity]. Qed.

Lemma take_app (u v : string) : string_take (String.length u) (u +:+ v) = u.
Proof.
  unfold string_take. induction u as [| c u IH].
  - destruct v; reflexivity.
  - rewrite append_cons. simpl. rewrite IH. reflexivity.
Qed.

Lemma substring_skip (u s : string) (n : nat) :
  String.substring (String.length u) n (u +:+ s) = String.substring 0 n s.
Proof.
  induction u as [| c u IH]; [reflexivity |].
  rewrite append_cons. simpl. exact IH.
Qed.

Lemma drop_app (p r : string) : string_drop (String.length p) (p +:+ r) = r.
Proof.
  unfold string_drop. rewrite substring_skip, length_append.
  replace (String.length p + String.length r - String.length p) with (String.length r) by lia.
  apply substring_all.
Qed.

Lemma substring_at_app (u d v : string) :
  String.substring (String.length u) (String.length d) (u +:+ d +:+ v) = d.
Proof. rewrite substring_skip. apply (take_app d v). Qed.

(** An occurrence of [d] at position [m] of [s], read off [substring]. *)
Lemma substring_occurrence (d : string) :
  d <> "" ->
  forall (m : nat) (s : string),
    String.substring m (String.length d) s = d ->
    exists u v, s = u +:+ d +:+ v /\ String.length u = m.
Proof.
  intros Hd m. induction m as [| m IH]; intros s H.
  - apply prefix_correct in H. apply prefix_split in H as [v Hv].
    exists "", v. split; [exact Hv | reflexivity].
  - destruct s as [| c s].
    + simpl in H. congruence.
    + simpl in H. destruct (IH s H) as (u & v & Hs & Hu).
      exists (String c u), v. split; [rewrite append_cons; congruence | simpl; congruence].
Qed.

(** [strings.Index] finds the first occurrence. *)
Lemma strings_Index_some (s d : string) (i : nat) :
  d <> "" ->
  strings_Index s d = Some i ->
  exists u v,
    s = u +:+ d +:+ v /\ String.length u = i /\
    forall u' v', s = u' +:+ d +:+ v' -> i <= String.length u'.
Proof.
  intros Hd Hi. unfold strings_Index in Hi.
  pose proof (index_correct1 0 i d s Hi) as Hocc.
  destruct (substring_occurrence d Hd i s Hocc) as (u & v & Hs & Hu).
  exists u, v. split; [exact Hs |]. split; [exact Hu |].
  intros u' v' Hs'.
  destruct (le_lt_dec i (String.length u')) as [Hle | Hlt]; [exact Hle |].
  exfalso.
  apply (index_correct2 0 i d s Hi (String.length u')); [lia | exact Hlt |].
  rewrite Hs'. apply substring_at_app.
Qed.

Lemma strings_Index_none (s d : string) :
  d <> "" ->
  strings_Index s d = None ->
  forall u v, s <> u +:+ d +:+ v.
Proof.
  intros Hd Hi u v Hs. unfold strings_Index in Hi.
  apply (index_correct3 0 (String.length u) d s Hi Hd); [lia |].
  rewrite Hs. apply substring_at_app.
Qed.

Lemma HasPrefix_length (s p : string) :
  strings_HasPrefix s p = true -> String.length p <= String.length s.
Proof.
  unfold strings_HasPrefix. rewrite prefix_split. intros [r ->].
  rewrite length_append. lia.
Qed.

Lemma nonempty_length (v : string) : v <> "" <-> 0 < String.length v.
Proof.
  destruct v; simpl; split; intros H; try congruence; try lia.
Qed.

End StringFacts.

(** ** Common prefixes *)

(** [shouldBeCommonPrefix] holds exactly of the keys that are the prefix,
    then anything, then the delimiter, then at least one more byte. *)
Lemma shouldBeCommonPrefix_spec (key prefix delimiter : string) :
  delimiter <> "" ->
  shouldBeCommonPrefix key prefix delimiter = true <->
  exists u v, key = prefix +:+ u +:+ delimiter +:+ v /\ v <> "".
Proof.
  intros Hd. unfold shouldBeCommonPrefix. split.
  - destruct (strings_HasPrefix key prefix) eqn:Hp; simpl; [| discriminate].
    apply prefix_split in Hp as [rem ->]. rewrite drop_app.
    destruct (strings_Index rem delimiter) as [i |] eqn:Hi; [| discriminate].
    intros Hlt. apply Nat.ltb_lt in Hlt.
    destruct (strings_Index_some rem delimiter i Hd Hi) as (u & v & Hrem & Hu & _).
    exists u, v. split; [congruence |].
    apply nonempty_length. subst rem. rewrite !length_append in Hlt. lia.
  - intros (u & v & -> & Hv).
    assert (Hp : strings_HasPrefix (prefix +:+ u +:+ delimiter +:+ v) prefix = true)
      by (apply prefix_split; eauto).
    rewrite Hp, drop_app. simpl.
    destruct (strings_Index (u +:+ delimiter +:+ v) delimiter) as [i |] eqn:Hi.
    + destruct (strings_Index_some _ delimiter i Hd Hi) as (_ & _ & _ & _ & Hmin).
      specialize (Hmin u v eq_refl).
      apply nonempty_length in Hv.
      apply Nat.ltb_lt. rewrite !length_append. lia.
    + exfalso. exact (strings_Index_none _ delimiter Hd Hi u v eq_refl).
Qed.

(** On such a key [getCommonPrefix] returns the prefix and the rest up to
    and including the first occurrence of the delimiter. *)
Lemma getCommonPrefix_spec (key prefix delimiter : string) :
  delimiter <> "" ->
  shouldBeCommonPrefix key prefix delimiter = true ->
  exists u v,
    key = prefix +:+ u +:+ delimiter +:+ v /\ v <> "" /\
    getCommonPrefix key prefix delimiter = Some (prefix +:+ u +:+ delimiter) /\
    forall u' v', key = prefix +:+ u' +:+ delimiter +:+ v' ->
                  (String.length u <= String.length u')%nat.
Proof.
  intros Hd. unfold shouldBeCommonPrefix, getCommonPrefix.
  destruct (strings_HasPrefix key prefix) eqn:Hp; simpl; [| discriminate].
  pose proof (HasPrefix_length key prefix Hp) as Hlen.
  apply prefix_split in Hp as [rem ->]. rewrite drop_app.
  destruct (strings_Index rem delimiter) as [i |] eqn:Hi; [| discriminate].
  intros Hlt. apply Nat.ltb_lt in Hlt.
  destruct (strings_Index_some rem delimiter i Hd Hi) as (u & v & Hrem & Hu & Hmin).
  exists u, v.
  split; [congruence |].
  split; [apply nonempty_length; subst rem; rewrite !length_append in Hlt; lia |].
  split.
  - destruct (Nat.ltb_spec (String.length (prefix +:+ rem)) (String.length prefix));
      [lia |].
    f_equal. f_equal. subst rem i.
    rewrite <- length_append, <- append_assoc. apply take_app.
  - intros u' v' Hk. rewrite Hu. apply (Hmin u' v').
    apply (f_equal (string_drop (String.length prefix))) in Hk.
    rewrite !drop_app in Hk. exact Hk.
Qed.

(** ** The listing converter *)

Section ListingFacts.
Variable L : GoLib.
Variable b : StarfishBackend.
Variables bucket prefix delimiter startAfter : string.

Let step := convert_step L b bucket prefix delimiter startAfter.
Let loop := convert_loop L b bucket prefix delimiter startAfter.

Lemma convert_loop_cons (maxKeys : Z) (entry : StarfishEntry)
    (rest : list StarfishEntry) (st : loop_state) :
  loop maxKeys (entry :: rest) st =
  if at_limit maxKeys (count st) then Some (truncate st)
  else match step st entry with
       | Some st' => loop maxKeys rest st'
       | None => None
       end.
Proof.
  subst step loop. unfold convert_step, at_limit, skipped, folded, truncate, plain_object.
  cbn [convert_loop].
  destruct ((0 <? maxKeys) && (maxKeys <=? count st)); [reflexivity |].
  set (key := buildObjectKeyFromEntryWithBucket L b entry bucket).
  destruct (negb (String.eqb startAfter "") && String.leb key startAfter); [reflexivity |].
  destruct (negb (String.eqb delimiter "") && shouldBeCommonPrefix key prefix delimiter);
    [| reflexivity].
  destruct (getCommonPrefix key prefix delimiter) as [cp |]; [| reflexivity].
  destruct (containsCommonPrefix (commonPrefixes st) cp); reflexivity.
Qed.

(** The slice in [getCommonPrefix] is always in range where the loop calls
    it: the body never panics. *)
Lemma convert_step_total (st : loop_state) (entry : StarfishEntry) :
  exists st', step st entry = Some st'.
Proof.
  subst step. unfold convert_step.
  set (key := buildObjectKeyFromEntryWithBucket L b entry bucket).
  destruct (skipped startAfter key); [eauto |].
  destruct (folded prefix delimiter key) eqn:Hf; [| eauto].
  unfold folded in Hf. apply andb_true_iff in Hf as [_ Hs].
  unfold getCommonPrefix.
  assert (Hp : strings_HasPrefix key prefix = true).
  { unfold shouldBeCommonPrefix in Hs.
    destruct (strings_HasPrefix key prefix); [reflexivity | discriminate]. }
  apply HasPrefix_length in Hp.
  destruct (Nat.ltb_spec (String.length key) (String.length prefix)); [lia |].
  destruct (strings_Index _ delimiter);
    destruct (containsCommonPrefix _ _); eauto.
Qed.

Lemma convert_loop_total (maxKeys : Z) (entries : list StarfishEntry) :
  forall st, exists st', loop maxKeys entries st = Some st'.
Proof.
  induction entries as [| e rest IH]; intros st.
  - exists st. reflexivity.
  - rewrite convert_loop_cons.
    destruct (at_limit maxKeys (count st)); [eauto |].
    destruct (convert_step_total st e) as [st1 ->]. apply IH.
Qed.

(** A property of the loop variables that the break and every round
    preserve holds of the final state. *)
Lemma convert_loop_invariant (maxKeys : Z) (P : loop_state -> Prop) :
  (forall st, P st -> at_limit maxKeys (count st) = true -> P (truncate st)) ->
  (forall st e st', P st -> at_limit maxKeys (count st) = false ->
                    step st e = Some st' -> P st') ->
  forall entries st st',
    P st -> loop maxKeys entries st = Some st' -> P st'.
Proof.
  intros Htrunc Hstep entries.
  induction entries as [| e rest IH]; intros st st' HP Hloop.
  - simpl in Hloop. subst loop. simpl in Hloop. congruence.
  - rewrite convert_loop_cons in Hloop.
    destruct (at_limit maxKeys (count st)) eqn:Hlim.
    + injection Hloop as <-. apply Htrunc; assumption.
    + destruct (step st e) as [st1 |] eqn:Hs; [| discriminate].
      apply (IH st1 st'); [| exact Hloop].
      eapply Hstep; eassumption.
Qed.

Lemma containsCommonPrefix_In (l : list string) (cp : string) :
  containsCommonPrefix l cp = true <-> In cp l.
Proof.
  induction l as [| x rest IH]; simpl; [split; [discriminate | tauto] |].
  destruct (String.eqb_spec x cp) as [-> | Hne].
  - split; auto.
  - rewrite IH. split; [auto | intros [H | H]; [congruence | exact H]].
Qed.

Lemma NoDup_snoc (l : list string) (x : string) :
  List.NoDup l -> ~ In x l -> List.NoDup (l ++ [x]).
Proof.
  induction l as [| y rest IH]; intros Hnd Hx; simpl.
  - constructor; [simpl; tauto | constructor].
  - inversion Hnd as [| ? ? Hy Hrest]; subst.
    constructor.
    + rewrite in_app_iff. simpl. intros [H | [H | []]]; [tauto |].
      apply Hx. left. symmetry. exact H.
    + apply IH; [exact Hrest |]. intros H. apply Hx. right. exact H.
Qed.

Lemma convert_step_flag (st st' : loop_state) (e : StarfishEntry) :
  step st e = Some st' -> isTruncated st' = isTruncated st.
Proof.
  subst step. unfold convert_step.
  destruct (skipped _ _); [congruence |].
  destruct (folded _ _ _).
  - destruct (getCommonPrefix _ _ _) as [cp |]; [| discriminate].
    destruct (containsCommonPrefix _ _); intros [= <-]; reflexivity.
  - intros [= <-]. reflexivity.
Qed.

Lemma convert_step_plain (st : loop_state) (e : StarfishEntry) :
  is_plain L b bucket prefix delimiter startAfter e = true ->
  step st e =
  Some {| contents :=
            (contents st ++
             [plain_object (buildObjectKeyFromEntryWithBucket L b e bucket) e])%list;
          commonPrefixes := commonPrefixes st;
          isTruncated := isTruncated st; count := count st + 1 |}.
Proof.
  subst step. unfold is_plain, convert_step. intros H.
  apply andb_true_iff in H as [H1 H2].
  apply negb_true_iff in H1, H2. rewrite H1, H2. reflexivity.
Qed.

Lemma convert_step_not_plain (st st' : loop_state) (e : StarfishEntry) :
  is_plain L b bucket prefix delimiter startAfter e = false ->
  step st e = Some st' ->
  contents st' = contents st /\ count st' = count st.
Proof.
  subst step. unfold is_plain, convert_step. intros H.
  destruct (skipped _ _); [intros [= <-]; auto |].
  destruct (folded _ _ _); [| discriminate].
  destruct (getCommonPrefix _ _ _) as [cp |]; [| discriminate].
  destruct (containsCommonPrefix _ _); intros [= <-]; auto.
Qed.

(** A round adds the common prefix of a folded entry unless it is there
    already, and nothing else. *)
Lemma convert_step_prefixes (st st' : loop_state) (e : StarfishEntry) :
  step st e = Some st' ->
  List.NoDup (commonPrefixes st) ->
  List.NoDup (commonPrefixes st') /\
  forall cp, In cp (commonPrefixes st') <->
             In cp (commonPrefixes st) \/
             folds_to L b bucket prefix delimiter startAfter e cp.
Proof.
  subst step. unfold convert_step, folds_to. intros Hs Hnd.
  destruct (skipped _ _) eqn:Hsk.
  { injection Hs as <-. split; [exact Hnd |].
    intros cp. split; [auto | intros [H | (H & _)]; [exact H | discriminate]]. }
  destruct (folded _ _ _) eqn:Hf.
  - destruct (getCommonPrefix _ _ _) as [cp0 |] eqn:Hg; [| discriminate].
    destruct (containsCommonPrefix _ cp0) eqn:Hc; injection Hs as <-; simpl.
    + split; [exact Hnd |].
      intros cp. split; [auto |].
      intros [H | (_ & _ & [= <-])]; [exact H |].
      apply containsCommonPrefix_In. exact Hc.
    + assert (Hnot : ~ In cp0 (commonPrefixes st)).
      { rewrite <- containsCommonPrefix_In. congruence. }
      split; [apply NoDup_snoc; assumption |].
      intros cp. rewrite in_app_iff. simpl. split.
      * intros [H | [<- | []]]; [auto | right; auto].
      * intros [H | (_ & _ & [= <-])]; auto.
  - injection Hs as <-. simpl. split; [exact Hnd |].
    intros cp. split; [auto | intros [H | (_ & H & _)]; [exact H | discriminate]].
Qed.

Lemma convert_loop_app (maxKeys : Z) (pre rest : list StarfishEntry) :
  forall st st',
    loop maxKeys pre st = Some st' ->
    isTruncated st = false ->
    loop maxKeys (pre ++ rest) st =
    if isTruncated st' then Some st' else loop maxKeys rest st'.
Proof.
  induction pre as [| e pre IH]; intros st st' Hloop Hflag.
  - subst loop. simpl in Hloop. injection Hloop as <-. rewrite Hflag. reflexivity.
  - change ((e :: pre) ++ rest)%list with (e :: (pre ++ rest))%list.
    rewrite convert_loop_cons in Hloop |- *.
    destruct (at_limit maxKeys (count st)).
    + injection Hloop as <-. reflexivity.
    + destruct (step st e) as [st1 |] eqn:Hs; [| discriminate].
      apply IH; [exact Hloop |].
      rewrite (convert_step_flag st st1 e Hs). exact Hflag.
Qed.

(** A listing that was not cut short is the listing without a limit. *)
Lemma convert_loop_untruncated (maxKeys : Z) (entries : list StarfishEntry) :
  forall st st',
    loop maxKeys entries st = Some st' ->
    isTruncated st' = false ->
    loop 0 entries st = Some st'.
Proof.
  induction entries as [| e rest IH]; intros st st' Hloop Hflag.
  - exact Hloop.
  - rewrite convert_loop_cons in Hloop |- *.
    destruct (at_limit maxKeys (count st)).
    + injection Hloop as <-. discriminate.
    + change (at_limit 0 (count st)) with false. cbv iota.
      destruct (step st e) as [st1 |]; [| discriminate].
      apply IH; assumption.
Qed.

(** Where a listing that was cut short stopped. *)
Lemma convert_loop_truncated (maxKeys : Z) (entries : list StarfishEntry) :
  forall st st',
    loop maxKeys entries st = Some st' ->
    isTruncated st = false ->
    isTruncated st' = true ->
    exists pre e post st1,
      entries = (pre ++ e :: post)%list /\
      loop maxKeys pre st = Some st1 /\
      isTruncated st1 = false /\
      at_limit maxKeys (count st1) = true /\
      st' = truncate st1.
Proof.
  induction entries as [| e rest IH]; intros st st' Hloop Hflag Htr.
  - subst loop. simpl in Hloop. congruence.
  - rewrite convert_loop_cons in Hloop.
    destruct (at_limit maxKeys (count st)) eqn:Hlim.
    + injection Hloop as <-.
      exists [], e, rest, st. repeat split; auto.
    + destruct (step st e) as [st1 |] eqn:Hs; [| discriminate].
      pose proof (convert_step_flag st st1 e Hs) as Hf1. rewrite Hflag in Hf1.
      destruct (IH st1 st' Hloop Hf1 Htr) as (pre & e' & post & st2 & He & Hl & Hf2 & Hlim2 & Hst).
      exists (e :: pre), e', post, st2.
      split; [simpl; congruence |].
      split; [rewrite convert_loop_cons, Hlim, Hs; exact Hl |].
      auto.
Qed.

(** The listing without a limit: every entry gets its round. *)
Lemma convert_loop_unlimited (maxKeys : Z) (entries : list StarfishEntry) :
  maxKeys <= 0 ->
  forall st st',
    loop maxKeys entries st = Some st' ->
    List.NoDup (commonPrefixes st) ->
    contents st' =
      (contents st ++ plain_objects L b bucket prefix delimiter startAfter entries)%list /\
    count st' =
      count st +
      Z.of_nat (length (plain_objects L b bucket prefix delimiter startAfter entries)) /\
    isTruncated st' = isTruncated st /\
    List.NoDup (commonPrefixes st') /\
    forall cp, In cp (commonPrefixes st') <->
               In cp (commonPrefixes st) \/
               exists e, In e entries /\
                         folds_to L b bucket prefix delimiter startAfter e cp.
Proof.
  intros Hmax. induction entries as [| e rest IH]; intros st st' Hloop Hnd.
  - subst loop. simpl in Hloop. injection Hloop as <-.
    unfold plain_objects. simpl. rewrite app_nil_r.
    repeat split; try lia; auto.
    intros [H | (e & [] & _)]. exact H.
  - rewrite convert_loop_cons in Hloop.
    assert (Hlim : at_limit maxKeys (count st) = false).
    { unfold at_limit. destruct (Z.ltb_spec 0 maxKeys); [lia | reflexivity]. }
    rewrite Hlim in Hloop.
    destruct (step st e) as [st1 |] eqn:Hs; [| discriminate].
    destruct (convert_step_prefixes st st1 e Hs Hnd) as [Hnd1 Hin1].
    destruct (IH st1 st' Hloop Hnd1) as (Hc & Hn & Hf & Hnd' & Hin').
    pose proof (convert_step_flag st st1 e Hs) as Hf1.
    assert (Hcn : contents st1 =
                  (contents st ++
                   plain_objects L b bucket prefix delimiter startAfter [e])%list /\
                  count st1 =
                  count st +
                  Z.of_nat (length (plain_objects L b bucket prefix delimiter startAfter [e]))).
    { unfold plain_objects. cbn [List.filter].
      destruct (is_plain L b bucket prefix delimiter startAfter e) eqn:Hp.
      - rewrite (convert_step_plain st e Hp) in Hs. injection Hs as <-. simpl. auto.
      - destruct (convert_step_not_plain st st1 e Hp Hs) as [-> ->].
        simpl. rewrite app_nil_r. split; [reflexivity | lia]. }
    destruct Hcn as [Hc1 Hn1].
    assert (Hsplit : plain_objects L b bucket prefix delimiter startAfter (e :: rest) =
                     (plain_objects L b bucket prefix delimiter startAfter [e] ++
                      plain_objects L b bucket prefix delimiter startAfter rest)%list).
    { unfold plain_objects. cbn [List.filter].
      destruct (is_plain L b bucket prefix delimiter startAfter e); reflexivity. }
    rewrite Hsplit, length_app.
    split; [rewrite Hc, Hc1, app_assoc; reflexivity |].
    split; [rewrite Hn, Hn1; lia |].
    split; [congruence |].
    split; [exact Hnd' |].
    intros cp. rewrite Hin', Hin1. split.
    + intros [[H | H] | (e' & He' & H)]; [auto | right; exists e; simpl; auto |].
      right. exists e'. simpl. auto.
    + intros [H | (e' & [<- | He'] & H)]; [auto | auto |].
      right. exists e'. auto.
Qed.

Lemma is_plain_spec (e : StarfishEntry) :
  is_plain L b bucket prefix delimiter startAfter e = true \/
  is_plain L b bucket prefix delimiter startAfter e = false.
Proof. destruct (is_plain L b bucket prefix delimiter startAfter e); auto. Qed.

(** The counter is the number of objects, and stays within the limit. *)
Lemma convert_loop_count (maxKeys : Z) (entries : list StarfishEntry) (st' : loop_state) :
  loop maxKeys entries loop_init = Some st' ->
  count st' = Z.of_nat (length (contents st')) /\
  (0 < maxKeys -> count st' <= maxKeys).
Proof.
  apply (convert_loop_invariant maxKeys
           (fun st => count st = Z.of_nat (length (contents st)) /\
                      (0 < maxKeys -> count st <= maxKeys))).
  - intros st HP _. exact HP.
  - intros st e st1 [Hc Hm] Hlim Hs.
    destruct (is_plain_spec e) as [Hp | Hp].
    + rewrite (convert_step_plain st e Hp) in Hs. injection Hs as <-. simpl.
      rewrite length_app. simpl. split; [lia |].
      intros Hpos. unfold at_limit in Hlim.
      destruct (Z.ltb_spec 0 maxKeys); [| lia].
      destruct (Z.leb_spec maxKeys (count st)); [discriminate | lia].
    + destruct (convert_step_not_plain st st1 e Hp Hs) as [-> ->]. auto.
  - simpl. split; [reflexivity | lia].
Qed.

Lemma convert_loop_NoDup (maxKeys : Z) (entries : list StarfishEntry) (st' : loop_state) :
  loop maxKeys entries loop_init = Some st' ->
  List.NoDup (commonPrefixes st').
Proof.
  apply (convert_loop_invariant maxKeys (fun st => List.NoDup (commonPrefixes st))).
  - intros st HP _. exact HP.
  - intros st e st1 HP _ Hs. apply (convert_step_prefixes st st1 e Hs HP).
  - constructor.
Qed.

End ListingFacts.

Lemma folded_nonempty (prefix delimiter key : string) :
  delimiter <> "" -> folded prefix delimiter key = shouldBeCommonPrefix key prefix delimiter.
Proof.
  intros Hd. unfold folded.
  destruct (String.eqb_spec delimiter ""); [contradiction | reflexivity].
Qed.

(** The backend plays no part in the conversion: its rewrite rules are
    never looked at. *)
Lemma convert_loop_ignores_backend (L : GoLib) (b1 b2 : StarfishBackend)
    (bucket prefix delimiter startAfter : string) (maxKeys : Z)
    (entries : list StarfishEntry) :
  forall st,
    convert_loop L b1 bucket prefix delimiter startAfter maxKeys entries st =
    convert_loop L b2 bucket prefix delimiter startAfter maxKeys entries st.
Proof.
  induction entries as [| e rest IH]; intros st; [reflexivity |].
  cbn [convert_loop].
  change (buildObjectKeyFromEntryWithBucket L b2 e bucket)
    with (buildObjectKeyFromEntryWithBucket L b1 e bucket).
  destruct ((0 <? maxKeys) && (maxKeys <=? count st)); [reflexivity |].
  destruct (negb (String.eqb startAfter "") && _); [apply IH |].
  destruct (negb (String.eqb delimiter "") && _); [| apply IH].
  destruct (getCommonPrefix _ _ _); [| reflexivity].
  destruct (negb _); apply IH.
Qed.

(** C1 fails on the code. The converters take the key of an entry from
    [buildObjectKeyFromEntryWithBucket], which never calls
    [applyPathRewrite]: with a wildcard rule that rewrites every key, the
    listing still shows the key built from the full path, where the rewrite
    engine gives another key for the same entry and bucket; and the listing
    is the same whatever rules the backend holds. *)
Theorem C1_listing_ignores_rewrite_rules :
  let b := backend_of [mk_rule "*" pat_any tmpl_archive 100] in
  let resp := {| Entries := [example_entry]; Total := 1 |} in
  (List.map s3response.Key <$>
     (s3response.Contents <$>
        convertToListObjectsResult example_lib b resp "Archive" "" "" "" 1000))
  = Some ["data/document.pdf"] /\
  (List.map s3response.Key <$>
     (s3response.V2Contents <$>
        convertToListObjectsV2Result example_lib b resp "Archive" "" "" "" 1000))
  = Some ["data/document.pdf"] /\
  applyPathRewrite example_lib order_forward b example_entry "data/document.pdf" "Archive"
  = "archive/document.pdf" /\
  (forall (L : GoLib) (b1 b2 : StarfishBackend) (r : StarfishQueryResponse)
          (bucket prefix delimiter startAfter : string) (maxKeys : Z),
     convertToListObjectsResult L b1 r bucket prefix delimiter startAfter maxKeys =
     convertToListObjectsResult L b2 r bucket prefix delimiter startAfter maxKeys).
Proof.
  split; [vm_compute; reflexivity |].
  split; [vm_compute; reflexivity |].
  split; [vm_compute; reflexivity |].
  intros L b1 b2 r bucket prefix delimiter startAfter maxKeys.
  unfold convertToListObjectsResult.
  rewrite (convert_loop_ignores_backend L b1 b2). reflexivity.
Qed.

(** What the conversion returns, with and without a limit. *)
Lemma convert_listing_facts
    (L : GoLib) (b : StarfishBackend) (resp : StarfishQueryResponse)
    (bucket prefix delimiter startAfter : string) (maxKeys : Z) :
  exists r,
    convertToListObjectsResult L b resp bucket prefix delimiter startAfter maxKeys = Some r /\
    (0 < maxKeys -> Z.of_nat (length (s3response.Contents r)) <= maxKeys) /\
    (0 < maxKeys ->
     forall pre e post st,
       Entries resp = (pre ++ e :: post)%list ->
       convert_loop L b bucket prefix delimiter startAfter maxKeys pre loop_init = Some st ->
       isTruncated st = false ->
       count st = maxKeys ->
       s3response.Contents r = contents st /\
       s3response.CommonPrefixes r = commonPrefixes st /\
       s3response.IsTruncated r = true) /\
    (0 < maxKeys ->
     forall pre e post,
       Entries resp = (pre ++ e :: post)%list ->
       Z.of_nat (length (plain_objects L b bucket prefix delimiter startAfter pre)) = maxKeys ->
       s3response.IsTruncated r = true) /\
    (s3response.IsTruncated r = true ->
     0 < maxKeys /\
     Z.of_nat (length (s3response.Contents r)) = maxKeys /\
     exists pre e post,
       Entries resp = (pre ++ e :: post)%list /\
       s3response.Contents r = plain_objects L b bucket prefix delimiter startAfter pre) /\
    (s3response.IsTruncated r = false ->
     s3response.Contents r =
       plain_objects L b bucket prefix delimiter startAfter (Entries resp) /\
     forall cp, In cp (s3response.CommonPrefixes r) <->
                exists e, In e (Entries resp) /\
                          folds_to L b bucket prefix delimiter startAfter e cp) /\
    (maxKeys <= 0 -> s3response.IsTruncated r = false).
Proof.
  set (loop := convert_loop L b bucket prefix delimiter startAfter).
  destruct (convert_loop_total L b bucket prefix delimiter startAfter maxKeys
              (Entries resp) loop_init) as [st' Hloop].
  unfold convertToListObjectsResult. rewrite Hloop.
  eexists. split; [reflexivity |]. simpl.
  destruct (convert_loop_count L b bucket prefix delimiter startAfter maxKeys
              (Entries resp) st' Hloop) as [Hcount Hle].
  assert (Hnil : List.NoDup (commonPrefixes loop_init)) by constructor.
  split; [intros Hpos; rewrite <- Hcount; auto |].
  split.
  { intros Hpos pre e post st Hsplit Hpre Hflag Hc.
    rewrite Hsplit in Hloop.
    rewrite (convert_loop_app L b bucket prefix delimiter startAfter maxKeys
               pre (e :: post) loop_init st Hpre eq_refl), Hflag in Hloop.
    rewrite convert_loop_cons in Hloop.
    assert (Hlim : at_limit maxKeys (count st) = true).
    { unfold at_limit. apply andb_true_iff.
      split; [apply Z.ltb_lt | apply Z.leb_le]; lia. }
    rewrite Hlim in Hloop. injection Hloop as <-. simpl. auto. }
  split.
  { intros Hpos pre e post Hsplit Hlen.
    destruct (convert_loop_total L b bucket prefix delimiter startAfter maxKeys
                pre loop_init) as [st Hpre].
    rewrite Hsplit in Hloop.
    rewrite (convert_loop_app L b bucket prefix delimiter startAfter maxKeys
               pre (e :: post) loop_init st Hpre eq_refl) in Hloop.
    destruct (isTruncated st) eqn:Hflag; [congruence |].
    pose proof (convert_loop_untruncated L b bucket prefix delimiter startAfter
                  maxKeys pre loop_init st Hpre Hflag) as Hpre0.
    destruct (convert_loop_unlimited L b bucket prefix delimiter startAfter 0 pre
                ltac:(lia) loop_init st Hpre0 Hnil) as (_ & Hc & _).
    simpl in Hc. rewrite Hlen in Hc.
    rewrite convert_loop_cons in Hloop.
    assert (Hlim : at_limit maxKeys (count st) = true).
    { unfold at_limit. apply andb_true_iff.
      split; [apply Z.ltb_lt | apply Z.leb_le]; lia. }
    rewrite Hlim in Hloop. injection Hloop as <-. reflexivity. }
  split.
  { intros Htr.
    destruct (convert_loop_truncated L b bucket prefix delimiter startAfter maxKeys
                (Entries resp) loop_init st' Hloop eq_refl Htr)
      as (pre & e & post & st1 & Hsplit & Hpre & Hflag & Hlim & ->).
    pose proof (convert_loop_untruncated L b bucket prefix delimiter startAfter
                  maxKeys pre loop_init st1 Hpre Hflag) as Hpre0.
    destruct (convert_loop_unlimited L b bucket prefix delimiter startAfter 0 pre
                ltac:(lia) loop_init st1 Hpre0 Hnil) as (Hc & _).
    simpl in Hc, Hcount, Hle |- *.
    unfold at_limit in Hlim. apply andb_true_iff in Hlim as [Hpos Hge].
    apply Z.ltb_lt in Hpos. apply Z.leb_le in Hge.
    split; [exact Hpos |].
    split; [specialize (Hle Hpos); lia |].
    exists pre, e, post. split; [exact Hsplit | exact Hc]. }
  split.
  { intros Hflag.
    pose proof (convert_loop_untruncated L b bucket prefix delimiter startAfter
                  maxKeys (Entries resp) loop_init st' Hloop Hflag) as Hloop0.
    destruct (convert_loop_unlimited L b bucket prefix delimiter startAfter 0
                (Entries resp) ltac:(lia) loop_init st' Hloop0 Hnil)
      as (Hc & _ & _ & _ & Hin).
    simpl in Hc. split; [exact Hc |].
    intros cp. rewrite Hin. simpl. tauto. }
  intros Hmax.
  destruct (convert_loop_unlimited L b bucket prefix delimiter startAfter maxKeys
              (Entries resp) Hmax loop_init st' Hloop Hnil) as (_ & _ & Hf & _).
  exact Hf.
Qed.

(** C3, as the code has it. The conversion always returns. With a positive
    limit at most that many objects are returned. The limit is tested at
    the top of each round: when an entry is reached with the limit already
    met, the loop stops there with the objects and common prefixes found so
    far and the flag set; so the flag is set when an entry is left after the
    limit is met, and only then; with the last object the last entry the
    flag stays false. A listing whose flag is false holds every entry that
    is not skipped. A limit of zero (or below) never sets the flag. *)
Theorem C3_truncation
    (L : GoLib) (b : StarfishBackend) (resp : StarfishQueryResponse)
    (bucket prefix delimiter startAfter : string) (maxKeys : Z) :
  exists r,
    convertToListObjectsResult L b resp bucket prefix delimiter startAfter maxKeys = Some r /\
    (0 < maxKeys -> Z.of_nat (length (s3response.Contents r)) <= maxKeys) /\
    (0 < maxKeys ->
     forall pre e post st,
       Entries resp = (pre ++ e :: post)%list ->
       convert_loop L b bucket prefix delimiter startAfter maxKeys pre loop_init = Some st ->
       isTruncated st = false ->
       count st = maxKeys ->
       s3response.Contents r = contents st /\
       s3response.CommonPrefixes r = commonPrefixes st /\
       s3response.IsTruncated r = true) /\
    (0 < maxKeys ->
     forall pre e post,
       Entries resp = (pre ++ e :: post)%list ->
       Z.of_nat (length (plain_objects L b bucket prefix delimiter startAfter pre)) = maxKeys ->
       s3response.IsTruncated r = true) /\
    (s3response.IsTruncated r = true ->
     0 < maxKeys /\
     Z.of_nat (length (s3response.Contents r)) = maxKeys /\
     exists pre e post,
       Entries resp = (pre ++ e :: post)%list /\
       s3response.Contents r = plain_objects L b bucket prefix delimiter startAfter pre) /\
    (s3response.IsTruncated r = false ->
     s3response.Contents r =
       plain_objects L b bucket prefix delimiter startAfter (Entries resp) /\
     forall cp, In cp (s3response.CommonPrefixes r) <->
                exists e, In e (Entries resp) /\
                          folds_to L b bucket prefix delimiter startAfter e cp) /\
    (maxKeys <= 0 -> s3response.IsTruncated r = false).
Proof.
  exact (convert_listing_facts L b resp bucket prefix delimiter startAfter maxKeys).
Qed.

Lemma C3_truncation_witness :
  exists r,
    convertToListObjectsResult example_lib (backend_with None) five_entries
      "bk" "" "" "" 2 = Some r /\
    Z.of_nat (length (s3response.Contents r)) = 2 /\
    s3response.IsTruncated r = true.
Proof.
  destruct (C3_truncation example_lib (backend_with None) five_entries "bk" "" "" "" 2)
    as (r & Hr & _ & _ & Hflag & Hlen & _).
  assert (Htr : s3response.IsTruncated r = true).
  { apply (Hflag ltac:(lia) [entry_at "/k1"; entry_at "/k2"] (entry_at "/k3")
             [entry_at "/k4"; entry_at "/k5"]); reflexivity. }
  exists r. split; [exact Hr |]. split; [apply Hlen; exact Htr | exact Htr].
Defined.

(** C3 as stated fails when the entries run out as the limit is met: two
    entries and a limit of two give two objects, the limit is reached, and
    the flag is not set. *)
Lemma C3_counterexample_limit_met_flag_unset :
  exists r,
    convertToListObjectsResult example_lib (backend_with None)
      {| Entries := [entry_at "/k1"; entry_at "/k2"]; Total := 2 |}
      "bk" "" "" "" 2 = Some r /\
    Z.of_nat (length (s3response.Contents r)) = 2 /\
    s3response.IsTruncated r = false.
Proof. eexists. split; [vm_compute; reflexivity |]. split; reflexivity. Qed.

Lemma at_limit_zero (maxKeys : Z) : at_limit maxKeys 0 = false.
Proof.
  unfold at_limit.
  destruct (Z.ltb_spec 0 maxKeys); [| reflexivity].
  destruct (Z.leb_spec maxKeys 0); [lia | reflexivity].
Qed.

(** C4. With a non-empty delimiter, [shouldBeCommonPrefix] holds of a key
    exactly when the key is the prefix, then some text, then the delimiter,
    then at least one more byte; the common prefix is then the prefix and
    the text up to and including the first occurrence of the delimiter.
    The common prefixes of a listing are without repetition; in a listing
    that is not cut short they are the common prefixes of the folded
    entries, the entries that are neither skipped nor folded are the plain
    objects, and among these are the entries whose key does not start with
    the prefix. Keys a/b/c.txt and a/d.txt with empty prefix and delimiter
    / give the one common prefix a/ and no object. *)
Theorem C4_common_prefix_folding
    (L : GoLib) (b : StarfishBackend) (bucket prefix delimiter startAfter : string) :
  delimiter <> "" ->
  (forall key,
     shouldBeCommonPrefix key prefix delimiter = true <->
     exists u v, key = prefix +:+ u +:+ delimiter +:+ v /\ v <> "") /\
  (forall key,
     shouldBeCommonPrefix key prefix delimiter = true ->
     exists u v,
       key = prefix +:+ u +:+ delimiter +:+ v /\ v <> "" /\
       getCommonPrefix key prefix delimiter = Some (prefix +:+ u +:+ delimiter) /\
       forall u' v', key = prefix +:+ u' +:+ delimiter +:+ v' ->
                     (String.length u <= String.length u')%nat) /\
  (forall resp maxKeys,
     exists r,
       convertToListObjectsResult L b resp bucket prefix delimiter startAfter maxKeys
       = Some r /\
       List.NoDup (s3response.CommonPrefixes r) /\
       (s3response.IsTruncated r = false ->
        (forall cp,
           In cp (s3response.CommonPrefixes r) <->
           exists e,
             In e (Entries resp) /\
             skipped startAfter (buildObjectKeyFromEntryWithBucket L b e bucket) = false /\
             shouldBeCommonPrefix (buildObjectKeyFromEntryWithBucket L b e bucket)
               prefix delimiter = true /\
             getCommonPrefix (buildObjectKeyFromEntryWithBucket L b e bucket)
               prefix delimiter = Some cp) /\
        s3response.Contents r =
          List.map
            (fun e => plain_object (buildObjectKeyFromEntryWithBucket L b e bucket) e)
            (List.filter
               (fun e =>
                  let key := buildObjectKeyFromEntryWithBucket L b e bucket in
                  negb (skipped startAfter key)
                  && negb (shouldBeCommonPrefix key prefix delimiter))
               (Entries resp)) /\
        (forall e,
           In e (Entries resp) ->
           skipped startAfter (buildObjectKeyFromEntryWithBucket L b e bucket) = false ->
           strings_HasPrefix (buildObjectKeyFromEntryWithBucket L b e bucket) prefix
           = false ->
           In (plain_object (buildObjectKeyFromEntryWithBucket L b e bucket) e)
              (s3response.Contents r)))) /\
  (prefix = "" -> delimiter = "/" -> startAfter = "" ->
   forall maxKeys,
     convertToListObjectsResult L b example_listing bucket prefix delimiter startAfter
       maxKeys
     = Some {| s3response.Contents := [];
               s3response.CommonPrefixes := ["a/"];
               s3response.IsTruncated := false;
               s3response.MaxKeys := wrap32 maxKeys;
               s3response.Name := bucket;
               s3response.Prefix := "";
               s3response.Delimiter := "/" |}).
Proof.
  intros Hd.
  split; [intros key; apply shouldBeCommonPrefix_spec; exact Hd |].
  split; [intros key; apply getCommonPrefix_spec; exact Hd |].
  split.
  - intros resp maxKeys.
    destruct (convert_listing_facts L b resp bucket prefix delimiter startAfter maxKeys)
      as (r & Hr & _ & _ & _ & _ & Hfull & _).
    exists r. split; [exact Hr |].
    split.
    { unfold convertToListObjectsResult in Hr.
      destruct (convert_loop L b bucket prefix delimiter startAfter maxKeys
                  (Entries resp) loop_init) as [st |] eqn:Hloop; [| discriminate].
      injection Hr as <-. simpl.
      apply (convert_loop_NoDup L b bucket prefix delimiter startAfter maxKeys
               (Entries resp) st Hloop). }
    intros Hflag. destruct (Hfull Hflag) as [Hc Hin].
    assert (Hfilter :
      List.filter (is_plain L b bucket prefix delimiter startAfter) (Entries resp) =
      List.filter
        (fun e =>
           let key := buildObjectKeyFromEntryWithBucket L b e bucket in
           negb (skipped startAfter key)
           && negb (shouldBeCommonPrefix key prefix delimiter))
        (Entries resp)).
    { apply List.filter_ext. intros e. unfold is_plain. cbv zeta.
      rewrite (folded_nonempty prefix delimiter _ Hd). reflexivity. }
    split; [| split].
    + intros cp. rewrite Hin. unfold folds_to.
      split; intros (e & He & Hs & Hf & Hg); exists e;
        (split; [exact He |]); (split; [exact Hs |]); (split; [| exact Hg]).
      * rewrite <- (folded_nonempty prefix delimiter _ Hd). exact Hf.
      * rewrite (folded_nonempty prefix delimiter _ Hd). exact Hf.
    + rewrite Hc. unfold plain_objects. rewrite Hfilter. reflexivity.
    + intros e He Hs Hp. rewrite Hc. unfold plain_objects.
      apply (List.in_map
               (fun e => plain_object (buildObjectKeyFromEntryWithBucket L b e bucket) e)).
      apply List.filter_In. split; [exact He |].
      unfold is_plain. cbv zeta.
      rewrite Hs, (folded_nonempty prefix delimiter _ Hd).
      unfold shouldBeCommonPrefix. rewrite Hp. reflexivity.
  - intros -> -> -> maxKeys.
    unfold convertToListObjectsResult, example_listing. cbn [Entries].
    pose (st1 := {| contents := []; commonPrefixes := ["a/"];
                    isTruncated := false; count := 0 |}).
    assert (H1 : convert_step L b bucket "" "/" "" loop_init (entry_at "/a/b/c.txt")
                 = Some st1) by (vm_compute; reflexivity).
    assert (H2 : convert_step L b bucket "" "/" "" st1 (entry_at "/a/d.txt")
                 = Some st1) by (vm_compute; reflexivity).
    rewrite convert_loop_cons. cbn [count loop_init].
    rewrite at_limit_zero, H1.
    rewrite convert_loop_cons. cbn [count st1].
    rewrite at_limit_zero, H2.
    reflexivity.
Qed.

Lemma C4_common_prefix_folding_witness :
  shouldBeCommonPrefix "a/b/c.txt" "" "/" = true /\
  getCommonPrefix "a/b/c.txt" "" "/" = Some "a/" /\
  (s3response.CommonPrefixes <$>
     convertToListObjectsResult example_lib (backend_with None) example_listing
       "bk" "" "/" "" 1000) = Some ["a/"] /\
  (s3response.Contents <$>
     convertToListObjectsResult example_lib (backend_with None) example_listing
       "bk" "" "/" "" 1000) = Some [].
Proof.
  assert (Hd : "/" <> "") by discriminate.
  destruct (C4_common_prefix_folding example_lib (backend_with None) "bk" "" "/" "" Hd)
    as (Hiff & _ & _ & Hex).
  split.
  { apply Hiff. exists "a", "b/c.txt". split; [reflexivity | discriminate]. }
  split; [reflexivity |].
  rewrite (Hex eq_refl eq_refl eq_refl 1000). split; reflexivity.
Defined.

(** What [Stats] computes. *)
Lemma Stats_facts (c : QueryCache) (now : Z) :
  let l := map_to_list (data c) in
  let s := Stats c now in
  total_entries s = Z.of_nat (size (data c)) /\
  valid_entries s = Z.of_nat (length (List.filter (valid_at now) l)) /\
  expired_entries s = Z.of_nat (length (List.filter (fun kv => negb (valid_at now kv)) l)) /\
  valid_entries s + expired_entries s = total_entries s /\
  total_hits s = wrap64 (sum_hits (List.filter (valid_at now) l)).
Proof.
  intros l s.
  destruct (stats_loop_counts now l
              {| acc_valid := 0; acc_expired := 0; acc_totalHits := 0 |})
    as (Hv & He & Hh & Hw).
  simpl in Hv, He, Hh, Hw.
  assert (Hlen : length l = size (data c)) by apply length_map_to_list.
  pose proof (filter_split_length (valid_at now) l) as Hsplit.
  subst s. unfold Stats, stats_loop. fold l. simpl.
  split; [reflexivity |].
  split; [exact Hv |].
  split; [exact He |].
  split; [rewrite Hv, He; lia |].
  rewrite (Hw eq_refl); exact Hh.
Qed.

(* ===================================================================== *)
(** * Further properties of the cache                                      *)
(* ===================================================================== *)

(** After [Invalidate] the key is gone: a read of it returns nil at any
    instant; the entries of the other keys are as they were; one entry
    fewer is held when the key was present, and the cache, its metrics
    included, is untouched when it was absent. *)
Theorem Invalidate_forgets_key (c : QueryCache) (key : string) (now : Z) :
  snd (Get (Invalidate c key) now key) = None /\
  data (Invalidate c key) !! key = None /\
  (forall k, k <> key -> data (Invalidate c key) !! k = data c !! k) /\
  (is_Some (data c !! key) ->
   S (size (data (Invalidate c key))) = size (data c)) /\
  (data c !! key = None -> Invalidate c key = c).
Proof.
  assert (Hgone : data (Invalidate c key) !! key = None).
  { unfold Invalidate. destruct (data c !! key) eqn:Hk; simpl.
    - apply lookup_delete_eq.
    - exact Hk. }
  split; [apply Get_absent; exact Hgone |].
  split; [exact Hgone |].
  split.
  - intros k Hne. unfold Invalidate.
    destruct (data c !! key); simpl; [| reflexivity].
    apply lookup_delete_ne. congruence.
  - split.
    + intros [cached Hk]. unfold Invalidate. rewrite Hk. simpl.
      assert (Hin : is_Some (data c !! key)) by eauto.
      rewrite (map_size_delete_Some key (data c) Hin).
      pose proof (map_size_ne_0_lookup_2 (data c) key Hin). lia.
    + intros Hk. unfold Invalidate. rewrite Hk. reflexivity.
Qed.

Lemma Invalidate_forgets_key_witness :
  size (data example_cache) = 1%nat /\
  size (data (Invalidate example_cache "k")) = 0%nat /\
  Invalidate (NewQueryCache 10 None) "k" = NewQueryCache 10 None.
Proof.
  destruct (Invalidate_forgets_key example_cache "k" 0) as (_ & _ & _ & Hsz & _).
  destruct (Invalidate_forgets_key (NewQueryCache 10 None) "k" 0) as (_ & _ & _ & _ & Hid).
  assert (Hin : is_Some (data example_cache !! "k")) by (vm_compute; eauto).
  specialize (Hsz Hin).
  assert (H1 : size (data example_cache) = 1%nat) by (vm_compute; reflexivity).
  split; [exact H1 |]. split; [lia |].
  apply Hid. reflexivity.
Defined.

(** The last [Set] wins: a second [Set] of a key leaves the cache map as
    if the first had not happened, with the data, insertion time and expiry
    of the second and a hit counter of zero; reads up to the new expiry
    return the new data; the other keys keep their entries. *)
Theorem Set_replaces_entry
    (c : QueryCache) (t1 t2 : Z) (key : string)
    (d1 d2 : option StarfishQueryResponse) (vp1 vp2 : string) (now : Z) :
  let c1 := CacheSet c t1 key d1 vp1 in
  let c2 := CacheSet c1 t2 key d2 vp2 in
  data c2 = data (CacheSet c t2 key d2 vp2) /\
  data c2 !! key =
    Some {| Data := d2; CachedAt := t2; ExpiresAt := t2 + defaultTTL c;
            VolumeAndPath := vp2; HitCount := 0 |} /\
  size (data c2) = size (data c1) /\
  (forall k, k <> key -> data c2 !! k = data c !! k) /\
  (now <= t2 + defaultTTL c -> snd (Get c2 now key) = d2) /\
  (t2 + defaultTTL c < now -> snd (Get c2 now key) = None).
Proof.
  intros c1 c2.
  assert (Hk : data c2 !! key =
               Some {| Data := d2; CachedAt := t2; ExpiresAt := t2 + defaultTTL c;
                       VolumeAndPath := vp2; HitCount := 0 |})
    by (apply lookup_insert_eq).
  split; [apply insert_insert_eq |].
  split; [exact Hk |].
  split.
  { subst c2 c1. simpl.
    assert (Hin : is_Some (<[key := {| Data := d1; CachedAt := t1;
                                       ExpiresAt := time_Add t1 (defaultTTL c);
                                       VolumeAndPath := vp1; HitCount := 0 |}]>
                             (data c) !! key))
      by (rewrite lookup_insert_eq; eauto).
    destruct Hin as [old Hold].
    apply map_size_insert_Some. eauto. }
  split.
  { intros k Hne. subst c2 c1. simpl.
    rewrite !lookup_insert_ne by congruence. reflexivity. }
  split.
  - intros Hnow. apply (Get_hit c2 now key _ Hk). exact Hnow.
  - intros Hnow. apply (Get_expired c2 now key _ Hk). exact Hnow.
Qed.

Lemma Set_replaces_entry_witness :
  snd (Get (CacheSet example_cache 100 "k" None "v2") 105 "k") = None /\
  snd (Get (CacheSet example_cache 100 "k" (Some example_response) "v2") 110 "k")
  = Some example_response /\
  snd (Get (CacheSet example_cache 100 "k" (Some example_response) "v2") 111 "k") = None.
Proof.
  destruct (Set_replaces_entry (NewQueryCache 10 None) 0 100 "k"
              (Some example_response) None "storage1:/data" "v2" 105)
    as (_ & _ & _ & _ & H1 & _).
  destruct (Set_replaces_entry (NewQueryCache 10 None) 0 100 "k"
              (Some example_response) (Some example_response) "storage1:/data" "v2" 110)
    as (_ & _ & _ & _ & H2 & _).
  destruct (Set_replaces_entry (NewQueryCache 10 None) 0 100 "k"
              (Some example_response) (Some example_response) "storage1:/data" "v2" 111)
    as (_ & _ & _ & _ & _ & H3).
  split; [apply H1; simpl; lia |].
  split; [apply H2; simpl; lia | apply H3; simpl; lia].
Defined.

Lemma read_all_counts (times : list Z) :
  forall (c : QueryCache) (key : string) (cached : CachedResult),
    data c !! key = Some cached ->
    Forall (fun t => t <= ExpiresAt cached) times ->
    MinInt64 <= HitCount cached ->
    HitCount cached + Z.of_nat (length times) <= MaxInt64 ->
    exists cached',
      data (fst (read_all c key times)) !! key = Some cached' /\
      HitCount cached' = HitCount cached + Z.of_nat (length times) /\
      ExpiresAt cached' = ExpiresAt cached.
Proof.
  induction times as [| now rest IH]; intros c key cached Hk Hall Hlo Hhi.
  - exists cached. simpl. split; [exact Hk |]. split; [lia | reflexivity].
  - inversion Hall as [| ? ? Hnow Hrest]; subst.
    simpl length in Hhi. rewrite Nat2Z.inj_succ in Hhi.
    destruct (Get_hit c now key cached Hk Hnow) as (_ & Hd & _).
    simpl. destruct (Get c now key) as [c1 r] eqn:HG. simpl in Hd.
    assert (Hk1 : data c1 !! key = Some (bump cached))
      by (rewrite Hd; apply lookup_insert_eq).
    assert (Hb : HitCount (bump cached) = HitCount cached + 1).
    { simpl. apply wrap64_small. unfold MinInt64, MaxInt64 in *. lia. }
    destruct (IH c1 key (bump cached) Hk1 Hrest) as (cached' & Hk' & Hh & He).
    + rewrite Hb. lia.
    + rewrite Hb. lia.
    + destruct (read_all c1 key rest) as [c2 rs]. simpl in *.
      exists cached'. split; [exact Hk' |].
      split; [rewrite Hh, Hb, Nat2Z.inj_succ; lia | exact He].
Qed.

(** The hit counter counts the reads: after [Set] and any number of reads
    of the key at or before its expiry, the counter of the entry is the
    number of those reads, and that is what [Stats] reports as the total of
    hits of a cache that holds no other entry. *)
Theorem hit_count_counts_reads
    (ttl : Z) (mm : option (list MetricEvent)) (t0 : Z) (key : string)
    (d : option StarfishQueryResponse) (vp : string) (times : list Z) (now : Z) :
  Forall (fun t => t <= t0 + ttl) times ->
  Z.of_nat (length times) <= MaxInt64 ->
  now <= t0 + ttl ->
  let c := fst (read_all (CacheSet (NewQueryCache ttl mm) t0 key d vp) key times) in
  (HitCount <$> data c !! key) = Some (Z.of_nat (length times)) /\
  total_hits (Stats c now) = Z.of_nat (length times).
Proof.
  intros Hall Hlen Hnow c.
  set (c0 := CacheSet (NewQueryCache ttl mm) t0 key d vp) in *.
  set (cached := {| Data := d; CachedAt := t0; ExpiresAt := time_Add t0 ttl;
                    VolumeAndPath := vp; HitCount := 0 |}).
  assert (Hk : data c0 !! key = Some cached) by (apply lookup_insert_eq).
  destruct (read_all_counts times c0 key cached Hk Hall) as (cached' & Hk' & Hh & He).
  { unfold MinInt64. simpl. lia. }
  { simpl. lia. }
  simpl in Hh, He.
  split; [subst c; rewrite Hk'; simpl; rewrite Hh; reflexivity |].
  assert (Hdata : data c = {[ key := cached' ]}).
  { apply map_eq. intros k. destruct (decide (k = key)) as [-> | Hne].
    - rewrite lookup_singleton_eq. exact Hk'.
    - rewrite lookup_singleton_ne by congruence.
      subst c. clear - Hne. revert c0.
      assert (Hgen : forall ts c1, data c1 !! k = None ->
                       data (fst (read_all c1 key ts)) !! k = None).
      { induction ts as [| t ts IH]; intros c1 H1; [exact H1 |].
        simpl. destruct (Get c1 t key) as [c2 r] eqn:HG.
        assert (H2 : data c2 !! k = None).
        { replace c2 with (fst (Get c1 t key)) by (rewrite HG; reflexivity).
          unfold Get. destruct (data c1 !! key) as [cc |]; [| exact H1].
          destruct (time_After t (ExpiresAt cc)); simpl.
          - rewrite lookup_delete_ne by congruence. exact H1.
          - rewrite lookup_insert_ne by congruence. exact H1. }
        specialize (IH c2 H2). destruct (read_all c2 key ts). exact IH. }
      intros c0. apply Hgen. unfold c0. simpl.
      rewrite lookup_insert_ne by congruence. apply lookup_empty. }
  destruct (Stats_facts c now) as (_ & _ & _ & _ & Hhits).
  rewrite Hhits, Hdata, map_to_list_singleton. simpl.
  unfold valid_at, time_After. simpl. rewrite He.
  destruct (Z.ltb_spec (time_Add t0 ttl) now) as [Hlt | _];
    [unfold time_Add in Hlt; lia |].
  simpl. rewrite Hh, Z.add_0_r. apply wrap64_small.
  unfold MinInt64. lia.
Qed.

Lemma hit_count_counts_reads_witness :
  (HitCount <$>
     data (fst (read_all example_cache "k" [1; 2; 10])) !! "k") = Some 3 /\
  total_hits (Stats (fst (read_all example_cache "k" [1; 2; 10])) 10) = 3.
Proof.
  apply (hit_count_counts_reads 10 None 0 "k" (Some example_response)
           "storage1:/data" [1; 2; 10] 10).
  - repeat constructor; lia.
  - unfold MaxInt64. simpl. lia.
  - lia.
Defined.

(** [GetCacheMetrics] and [Stats] agree: read at the same instant, the four
    int64 of the one are the counts of the other, and there is no fifth. *)
Theorem GetCacheMetrics_agrees_with_Stats (c : QueryCache) (now : Z) :
  GetCacheMetrics c now !! "starfish_cache_total_entries"
    = Some (total_entries (Stats c now)) /\
  GetCacheMetrics c now !! "starfish_cache_valid_entries"
    = Some (valid_entries (Stats c now)) /\
  GetCacheMetrics c now !! "starfish_cache_expired_entries"
    = Some (expired_entries (Stats c now)) /\
  GetCacheMetrics c now !! "starfish_cache_total_hits"
    = Some (total_hits (Stats c now)) /\
  size (GetCacheMetrics c now) = 4%nat /\
  GetCacheMetrics c now !! "starfish_cache_valid_entries"
    = Some (Z.of_nat (length (List.filter (valid_at now) (map_to_list (data c))))).
Proof.
  destruct (Stats_facts c now) as (_ & Hv & _).
  cbv zeta in Hv. rewrite <- Hv.
  unfold GetCacheMetrics, Stats. cbn [total_entries valid_entries expired_entries total_hits].
  split; [rewrite !lookup_insert_ne by discriminate; apply lookup_insert_eq |].
  split; [rewrite !lookup_insert_ne by discriminate; apply lookup_insert_eq |].
  split; [rewrite !lookup_insert_ne by discriminate; apply lookup_insert_eq |].
  split; [apply lookup_insert_eq |].
  split; [| rewrite !lookup_insert_ne by discriminate; apply lookup_insert_eq].
  rewrite !map_size_insert_None; [rewrite map_size_empty; reflexivity | ..];
    repeat (rewrite lookup_insert_ne by discriminate); apply lookup_empty.
Qed.

(** A read concerns its key only: whatever the outcome, the entry of every
    other key is what it was, no key is added, the TTL of the cache is
    unchanged, and a read that returns data leaves its key in the cache. *)
Theorem Get_frames_other_keys (c : QueryCache) (now : Z) (key : string) :
  let c' := fst (Get c now key) in
  (forall k, k <> key -> data c' !! k = data c !! k) /\
  dom (data c') ⊆ dom (data c) /\
  (size (data c') <= size (data c))%nat /\
  defaultTTL c' = defaultTTL c /\
  (snd (Get c now key) <> None -> is_Some (data c' !! key)) /\
  (data c' !! key = None ->
   snd (Get c now key) = None /\ forall later, snd (Get c' later key) = None).
Proof.
  intros c'. subst c'. unfold Get.
  destruct (data c !! key) as [cached |] eqn:Hk.
  - destruct (time_After now (ExpiresAt cached)) eqn:Hexp; simpl.
    + split; [intros k Hne; apply lookup_delete_ne; congruence |].
      split; [intros k; rewrite dom_delete_L, elem_of_difference; tauto |].
      split; [rewrite map_size_delete, Hk; simpl; lia |].
      split; [reflexivity |].
      split; [congruence |].
      intros _. split; [reflexivity |].
      intros later. rewrite lookup_delete_eq. reflexivity.
    + split; [intros k Hne; apply lookup_insert_ne; congruence |].
      split.
      { rewrite dom_insert_L.
        assert (key ∈ dom (data c)) by (apply elem_of_dom; eauto).
        intros k. rewrite elem_of_union, elem_of_singleton.
        intros [-> | Hin]; assumption. }
      split; [rewrite map_size_insert, Hk; simpl; lia |].
      split; [reflexivity |].
      split; [intros _; rewrite lookup_insert_eq; eauto |].
      rewrite lookup_insert_eq. discriminate.
  - simpl.
    split; [reflexivity |].
    split; [reflexivity |].
    split; [lia |].
    split; [reflexivity |].
    split; [congruence |].
    intros _. split; [reflexivity |].
    intros later. rewrite Hk. reflexivity.
Qed.

Lemma Get_frames_other_keys_witness :
  snd (Get (fst (Get example_cache 11 "k")) 12 "k") = None.
Proof.
  destruct (Get_frames_other_keys example_cache 11 "k") as (_ & _ & _ & _ & _ & Hgone).
  apply Hgone. reflexivity.
Defined.

(* ===================================================================== *)
(** * Further properties of the rewrite engine                             *)
(* ===================================================================== *)

(** A request is left alone when nothing is configured for its bucket:
    without a configuration, with an empty rule list, or when no rule is
    a wildcard or names the bucket, the original key comes back, whatever
    the patterns and templates of the rules do. *)
Theorem unscoped_bucket_is_not_rewritten
    (L : GoLib) (ord : map_order) (b : StarfishBackend)
    (entry : StarfishEntry) (originalKey bucket : string) :
  sort_Slice_contract L ->
  (forall cfg rule,
     pathRewriteConfig b = Some cfg -> In rule (Rules cfg) ->
     Bucket rule <> "*" /\ Bucket rule <> bucket) ->
  applyPathRewrite L ord b entry originalKey bucket = originalKey.
Proof.
  intros HS Hnone.
  destruct (pathRewriteConfig b) as [cfg |] eqn:Hcfg;
    [| unfold applyPathRewrite; rewrite Hcfg; reflexivity].
  rewrite (applyPathRewrite_sorted L ord entry originalKey b cfg bucket HS Hcfg).
  destruct (HS (Rules cfg)) as [Hperm _].
  rewrite <- (app_nil_r (sort_Slice L priority_less (Rules cfg))).
  rewrite rewrite_loop_skip; [reflexivity |].
  apply List.Forall_forall. intros r Hr.
  destruct (Hnone cfg r eq_refl) as [Hw Hb].
  { eapply Permutation_in; [exact Hperm | exact Hr]. }
  unfold try_rule, rule_applies.
  destruct (String.eqb_spec (Bucket r) "*"); [contradiction |].
  destruct (String.eqb_spec (Bucket r) bucket); [contradiction |].
  reflexivity.
Qed.

Lemma unscoped_bucket_is_not_rewritten_witness :
  applyPathRewrite example_lib order_forward
    (backend_of [mk_rule "Archive" pat_any tmpl_archive 200;
                 mk_rule "Tagged-Data" pat_any tmpl_by_size 300])
    example_entry "data/document.pdf" "Reports" = "data/document.pdf".
Proof.
  apply unscoped_bucket_is_not_rewritten; [exact example_lib_contract |].
  intros cfg rule Hcfg Hin. injection Hcfg as <-.
  simpl in Hin. destruct Hin as [<- | [<- | []]]; split; discriminate.
Defined.

Lemma priority_determines_rule (l : list PathRewriteRule) (a b : PathRewriteRule) :
  List.NoDup (List.map Priority l) ->
  In a l -> In b l -> Priority a = Priority b -> a = b.
Proof.
  induction l as [| x rest IH]; intros Hnd Ha Hb Hp; [destruct Ha |].
  simpl in Hnd. inversion Hnd as [| ? ? Hx Hrest]; subst.
  destruct Ha as [<- | Ha], Hb as [<- | Hb].
  - reflexivity.
  - exfalso. apply Hx. rewrite Hp. apply List.in_map. exact Hb.
  - exfalso. apply Hx. rewrite <- Hp. apply List.in_map. exact Ha.
  - apply IH; assumption.
Qed.

(** Two descending arrangements of rules with pairwise distinct priorities
    are the same list. *)
Lemma descending_perm_unique (l1 : list PathRewriteRule) :
  forall l2,
    descending l1 -> descending l2 -> Permutation l1 l2 ->
    List.NoDup (List.map Priority l1) -> l1 = l2.
Proof.
  induction l1 as [| a l1 IH]; intros l2 Hd1 Hd2 Hp Hnd.
  - apply Permutation_nil in Hp. congruence.
  - destruct l2 as [| b l2].
    { symmetry in Hp. apply Permutation_nil in Hp. discriminate. }
    assert (Ha2 : In a (b :: l2))
      by (eapply Permutation_in; [exact Hp | left; reflexivity]).
    assert (Hb1 : In b (a :: l1))
      by (eapply Permutation_in; [symmetry; exact Hp | left; reflexivity]).
    pose proof (descending_cons_inv a l1 Hd1) as [Hmax1 Hd1'].
    pose proof (descending_cons_inv b l2 Hd2) as [Hmax2 Hd2'].
    rewrite List.Forall_forall in Hmax1, Hmax2.
    assert (Hpab : Priority a = Priority b).
    { assert (Priority b <= Priority a)
        by (destruct Hb1 as [<- | Hb1]; [lia | apply Hmax1; exact Hb1]).
      assert (Priority a <= Priority b)
        by (destruct Ha2 as [<- | Ha2]; [lia | apply Hmax2; exact Ha2]).
      lia. }
    assert (Hab : a = b).
    { apply (priority_determines_rule (a :: l1)); auto. left. reflexivity. }
    subst b. f_equal.
    apply IH; auto.
    + eapply Permutation_cons_inv. exact Hp.
    + simpl in Hnd. inversion Hnd. assumption.
Qed.

Lemma rewrite_loop_ext (L : GoLib) (ord1 ord2 : map_order) (entry : StarfishEntry)
    (originalKey bucket : string) (rules : list PathRewriteRule) :
  (forall rule, In rule rules ->
     applyRule L ord1 entry originalKey rule = applyRule L ord2 entry originalKey rule) ->
  rewrite_loop L ord1 entry originalKey bucket rules =
  rewrite_loop L ord2 entry originalKey bucket rules.
Proof.
  induction rules as [| r rest IH]; intros Hsame; [reflexivity |].
  cbn [rewrite_loop]. rewrite (Hsame r) by (left; reflexivity).
  rewrite IH by (intros rule Hin; apply Hsame; right; exact Hin).
  reflexivity.
Qed.

(** With pairwise distinct priorities the configuration order is
    immaterial and so is the instability of sort.Slice: two calls on rule
    lists that hold the same rules give the same key, which is the key of
    the stable order of the specification, provided every rule gives the
    same outcome under the orders in which the two calls visit the tag map
    (as when the calls see the same order, or no template lists all
    tags). *)
Theorem distinct_priorities_fix_the_order
    (L : GoLib) (ord1 ord2 : map_order) (b1 b2 : StarfishBackend)
    (cfg1 cfg2 : PathRewriteConfig)
    (entry : StarfishEntry) (originalKey bucket : string) :
  sort_Slice_contract L ->
  pathRewriteConfig b1 = Some cfg1 ->
  pathRewriteConfig b2 = Some cfg2 ->
  Permutation (Rules cfg1) (Rules cfg2) ->
  List.NoDup (List.map Priority (Rules cfg1)) ->
  (forall rule, In rule (Rules cfg1) ->
     applyRule L ord1 entry originalKey rule = applyRule L ord2 entry originalKey rule) ->
  applyPathRewrite L ord1 b1 entry originalKey bucket =
  applyPathRewrite L ord2 b2 entry originalKey bucket /\
  applyPathRewrite L ord1 b1 entry originalKey bucket =
  applyPathRewrite_stable L ord1 b1 entry originalKey bucket.
Proof.
  intros HS H1 H2 Hperm Hnd Hsame.
  rewrite (applyPathRewrite_sorted L ord1 entry originalKey b1 cfg1 bucket HS H1).
  rewrite (applyPathRewrite_sorted L ord2 entry originalKey b2 cfg2 bucket HS H2).
  unfold applyPathRewrite_stable. rewrite H1.
  destruct (HS (Rules cfg1)) as [Hp1 Hd1].
  destruct (HS (Rules cfg2)) as [Hp2 Hd2].
  destruct (stable_sort_contract (Rules cfg1)) as [Hp3 Hd3].
  assert (Hnd1 : List.NoDup (List.map Priority (sort_Slice L priority_less (Rules cfg1)))).
  { eapply Permutation_NoDup; [| exact Hnd].
    apply Permutation_map. symmetry. exact Hp1. }
  assert (H12 : sort_Slice L priority_less (Rules cfg1) =
                sort_Slice L priority_less (Rules cfg2)).
  { apply descending_perm_unique; auto. rewrite Hp1, Hp2. exact Hperm. }
  split.
  - rewrite <- H12. apply rewrite_loop_ext.
    intros rule Hin. apply Hsame.
    eapply Permutation_in; [exact Hp1 | exact Hin].
  - f_equal. apply descending_perm_unique; auto.
    rewrite Hp1, Hp3. reflexivity.
Qed.

Lemma distinct_priorities_fix_the_order_witness :
  applyPathRewrite example_lib order_forward
    (backend_of rules_by_bucket) example_entry "data/document.pdf" "Archive"
  = applyPathRewrite example_lib order_backward
      (backend_of (rev rules_by_bucket)) example_entry "data/document.pdf" "Archive".
Proof.
  apply (distinct_priorities_fix_the_order example_lib order_forward order_backward
           (backend_of rules_by_bucket) (backend_of (rev rules_by_bucket))
           {| Rules := rules_by_bucket |} {| Rules := rev rules_by_bucket |}).
  - exact example_lib_contract.
  - reflexivity.
  - reflexivity.
  - apply Permutation_rev.
  - simpl. repeat constructor; simpl; intuition discriminate.
  - intros rule Hin. simpl in Hin.
    destruct Hin as [<- | [<- | [<- | []]]]; reflexivity.
Defined.

Lemma rule_ok_dec (rule : PathRewriteRule) :
  (String.eqb (Bucket rule) "" = false /\ String.eqb (Pattern rule) "" = false /\
   String.eqb (Template rule) "" = false /\ (Priority rule <? 0) = false) <-> rule_ok rule.
Proof.
  unfold rule_ok. rewrite !String.eqb_neq, Z.ltb_ge. tauto.
Qed.

Lemma validate_rules_spec (rules : list PathRewriteRule) :
  forall i : Z,
    (validate_rules i rules = None <-> Forall rule_ok rules) /\
    (forall msg, validate_rules i rules = Some msg ->
       exists (n : nat) (rule : PathRewriteRule) (what : string),
         rules !! n = Some rule /\ ~ rule_ok rule /\
         Forall rule_ok (take n rules) /\
         msg = "rule " +:+ itoa (i + Z.of_nat n) +:+ ": " +:+ what).
Proof.
  induction rules as [| r rest IH]; intros i.
  - split; [split; [constructor | reflexivity] | discriminate].
  - destruct (IH (i + 1)) as [IHok IHerr].
    cbn [validate_rules].
    assert (Hfirst : forall what,
      ~ rule_ok r ->
      exists (n : nat) (rule : PathRewriteRule) (what' : string),
        (r :: rest) !! n = Some rule /\ ~ rule_ok rule /\
        Forall rule_ok (take n (r :: rest)) /\
        "rule " +:+ itoa i +:+ ": " +:+ what =
        "rule " +:+ itoa (i + Z.of_nat n) +:+ ": " +:+ what').
    { intros what Hbad. exists 0%nat, r, what.
      split; [reflexivity |]. split; [exact Hbad |].
      split; [constructor |]. rewrite Z.add_0_r. reflexivity. }
    destruct (String.eqb_spec (Bucket r) "") as [Hb | Hb].
    { assert (Hbad : ~ rule_ok r) by (unfold rule_ok; tauto).
      split; [split; [discriminate | intros H; inversion H; contradiction] |].
      intros msg [= <-]. apply (Hfirst "bucket name cannot be empty" Hbad). }
    destruct (String.eqb_spec (Pattern r) "") as [Hp | Hp].
    { assert (Hbad : ~ rule_ok r) by (unfold rule_ok; tauto).
      split; [split; [discriminate | intros H; inversion H; contradiction] |].
      intros msg [= <-]. apply (Hfirst "pattern cannot be empty" Hbad). }
    destruct (String.eqb_spec (Template r) "") as [Ht | Ht].
    { assert (Hbad : ~ rule_ok r) by (unfold rule_ok; tauto).
      split; [split; [discriminate | intros H; inversion H; contradiction] |].
      intros msg [= <-]. apply (Hfirst "template cannot be empty" Hbad). }
    destruct (Z.ltb_spec (Priority r) 0) as [Hn | Hn].
    { assert (Hbad : ~ rule_ok r) by (unfold rule_ok; lia).
      split; [split; [discriminate | intros H; inversion H; contradiction] |].
      intros msg [= <-]. apply (Hfirst "priority cannot be negative" Hbad). }
    assert (Hok : rule_ok r) by (unfold rule_ok; auto).
    split.
    + rewrite IHok. split; [intros H; constructor; assumption |].
      intros H. inversion H; assumption.
    + intros msg Hmsg.
      destruct (IHerr msg Hmsg) as (n & rule & what & Hn' & Hbad & Htake & ->).
      exists (S n), rule, what.
      split; [exact Hn' |]. split; [exact Hbad |].
      split; [simpl; constructor; assumption |].
      rewrite Nat2Z.inj_succ. do 2 f_equal. f_equal. lia.
Qed.

(** The validation at load time accepts a configuration exactly when every
    rule has a bucket, a pattern and a template that are not empty and a
    priority that is not negative; a missing configuration is accepted; an
    error names the first rule at fault, counted from zero; the default
    configuration is accepted. Whether a pattern compiles or a template
    parses is not looked at. *)
Theorem validation_accepts_well_formed_rules (cfg : PathRewriteConfig) :
  validatePathRewriteConfig None = None /\
  (validatePathRewriteConfig (Some cfg) = None <-> Forall rule_ok (Rules cfg)) /\
  (forall msg,
     validatePathRewriteConfig (Some cfg) = Some msg ->
     exists (n : nat) (rule : PathRewriteRule) (what : string),
       Rules cfg !! n = Some rule /\ ~ rule_ok rule /\
       Forall rule_ok (take n (Rules cfg)) /\
       msg = "rule " +:+ itoa (Z.of_nat n) +:+ ": " +:+ what) /\
  validatePathRewriteConfig (Some CreateDefaultPathRewriteConfig) = None.
Proof.
  destruct (validate_rules_spec (Rules cfg) 0) as [Hok Herr].
  split; [reflexivity |]. split; [exact Hok |]. split; [| reflexivity].
  intros msg Hmsg. destruct (Herr msg Hmsg) as (n & rule & what & H1 & H2 & H3 & H4).
  exists n, rule, what. auto.
Qed.

Lemma validation_accepts_well_formed_rules_witness :
  validatePathRewriteConfig (Some {| Rules := rules_by_bucket |}) = None /\
  exists n rule what,
    [mk_rule "*" pat_any tmpl_archive 100; mk_rule "Archive" "" tmpl_archive 5] !! n
      = Some rule /\
    validatePathRewriteConfig
      (Some {| Rules := [mk_rule "*" pat_any tmpl_archive 100;
                         mk_rule "Archive" "" tmpl_archive 5] |})
    = Some ("rule " +:+ itoa (Z.of_nat n) +:+ ": " +:+ what).
Proof.
  split.
  - destruct (validation_accepts_well_formed_rules {| Rules := rules_by_bucket |})
      as (_ & Hiff & _).
    apply Hiff. repeat constructor; simpl; try discriminate; try lia.
  - destruct (validation_accepts_well_formed_rules
                {| Rules := [mk_rule "*" pat_any tmpl_archive 100;
                             mk_rule "Archive" "" tmpl_archive 5] |})
      as (_ & _ & Herr & _).
    destruct (Herr "rule 1: pattern cannot be empty" eq_refl)
      as (n & rule & what & Hn & _ & _ & Hmsg).
    exists n, rule, what. split; [exact Hn |]. rewrite <- Hmsg. reflexivity.
Defined.

(** ** Tags *)

Lemma split_rounds_nonempty (n : nat) (s sep : string) : split_rounds n s sep <> [].
Proof.
  destruct n; simpl; [discriminate |].
  destruct (strings_Index s sep); discriminate.
Qed.

Lemma concat_cons (sep x : string) (rest : list string) :
  rest <> [] -> String.concat sep (x :: rest) = x +:+ sep +:+ String.concat sep rest.
Proof. destruct rest; [congruence | reflexivity]. Qed.

Lemma Index_cut (s sep : string) (i : nat) :
  sep <> "" ->
  strings_Index s sep = Some i ->
  s = string_take i s +:+ sep +:+ string_drop (i + String.length sep) s /\
  strings_Index (string_take i s) sep = None /\
  (String.length (string_drop (i + String.length sep) s) < String.length s)%nat.
Proof.
  intros Hsep Hi.
  destruct (strings_Index_some s sep i Hsep Hi) as (u & v & Hs & Hu & Hmin).
  assert (Htake : string_take i s = u) by (rewrite Hs, <- Hu; apply take_app).
  assert (Hdrop : string_drop (i + String.length sep) s = v).
  { rewrite Hs, <- Hu, <- length_append, <- append_assoc. apply drop_app. }
  rewrite Htake, Hdrop.
  split; [exact Hs |].
  split.
  - destruct (strings_Index u sep) as [j |] eqn:Hj; [| reflexivity].
    exfalso.
    destruct (strings_Index_some u sep j Hsep Hj) as (u1 & v1 & Hu1 & Hj1 & _).
    specialize (Hmin u1 (v1 +:+ sep +:+ v)).
    rewrite Hs, Hu1, !append_assoc in Hmin. specialize (Hmin eq_refl).
    apply nonempty_length in Hsep.
    rewrite <- Hu, Hu1, !length_append in Hmin. lia.
  - rewrite Hs, !length_append. apply nonempty_length in Hsep. lia.
Qed.

(** Joining the pieces of a split gives the string back. *)
Lemma split_rounds_join (sep : string) :
  sep <> "" ->
  forall (n : nat) (s : string), strings_Join (split_rounds n s sep) sep = s.
Proof.
  intros Hsep n. unfold strings_Join.
  induction n as [| n IH]; intros s; [reflexivity |].
  cbn [split_rounds].
  destruct (strings_Index s sep) as [i |] eqn:Hi; [| reflexivity].
  rewrite concat_cons by apply split_rounds_nonempty.
  rewrite IH. symmetry. apply (Index_cut s sep i Hsep Hi).
Qed.

(** With enough rounds no piece holds the separator. *)
Lemma split_rounds_pieces (sep : string) :
  sep <> "" ->
  forall (n : nat) (s : string),
    (String.length s <= n)%nat ->
    Forall (fun piece => strings_Contains piece sep = false) (split_rounds n s sep).
Proof.
  intros Hsep n. induction n as [| n IH]; intros s Hlen.
  - simpl. constructor; [| constructor].
    destruct s; [| simpl in Hlen; lia].
    unfold strings_Contains.
    destruct (strings_Index "" sep) as [i |] eqn:Hi; [| reflexivity].
    destruct (strings_Index_some "" sep i Hsep Hi) as (u & v & Hs & _).
    apply (f_equal String.length) in Hs. rewrite !length_append in Hs.
    apply nonempty_length in Hsep. simpl in Hs. lia.
  - cbn [split_rounds].
    destruct (strings_Index s sep) as [i |] eqn:Hi.
    + destruct (Index_cut s sep i Hsep Hi) as (_ & Hnone & Hshort).
      constructor.
      * unfold strings_Contains. rewrite Hnone. reflexivity.
      * apply IH. lia.
    + constructor; [| constructor].
      unfold strings_Contains. rewrite Hi. reflexivity.
Qed.

(** The tags of an entry are the comma-separated pieces of the string the
    upstream sends: joined with commas they give the string back, no tag
    holds a comma, and there is at least one; the empty string is no tag at
    all, not one empty tag. Inherited tags are read the same way. *)
Theorem tags_split_and_join (L : GoLib) (e : StarfishEntry) :
  (TagsExplicitStr e = "" -> GetTagsExplicit L e = []) /\
  (TagsExplicitStr e <> "" ->
   GetTagsExplicit L e <> [] /\
   strings_Join (GetTagsExplicit L e) "," = TagsExplicitStr e /\
   Forall (fun tag => strings_Contains tag "," = false) (GetTagsExplicit L e)) /\
  (TagsInheritedStr e = "" -> GetTagsInherited L e = []) /\
  (TagsInheritedStr e <> "" ->
   GetTagsInherited L e <> [] /\
   strings_Join (GetTagsInherited L e) "," = TagsInheritedStr e /\
   Forall (fun tag => strings_Contains tag "," = false) (GetTagsInherited L e)).
Proof.
  assert (Hsep : "," <> "") by discriminate.
  unfold GetTagsExplicit, GetTagsInherited, strings_Split.
  cbn [String.eqb Ascii.eqb].
  change (String.eqb "," "") with false. cbv iota.
  split; [intros ->; reflexivity |].
  split.
  { intros Hne. destruct (String.eqb_spec (TagsExplicitStr e) ""); [contradiction |].
    split; [apply split_rounds_nonempty |].
    split; [apply split_rounds_join; exact Hsep |].
    apply split_rounds_pieces; [exact Hsep | lia]. }
  split; [intros ->; reflexivity |].
  intros Hne. destruct (String.eqb_spec (TagsInheritedStr e) ""); [contradiction |].
  split; [apply split_rounds_nonempty |].
  split; [apply split_rounds_join; exact Hsep |].
  apply split_rounds_pieces; [exact Hsep | lia].
Qed.

Lemma tags_split_and_join_witness :
  GetTagsExplicit example_lib example_entry = ["project-a"; "important"] /\
  strings_Join (GetTagsExplicit example_lib example_entry) "," = "project-a,important" /\
  GetTagsInherited example_lib example_entry = [].
Proof.
  destruct (tags_split_and_join example_lib example_entry) as (_ & Hex & Hin & _).
  destruct Hex as (_ & Hjoin & _); [discriminate |].
  split; [reflexivity |]. split; [exact Hjoin |]. apply Hin. reflexivity.
Defined.

Lemma mark_tags_lookup (tags : list string) :
  forall (m : gmap string bool) (t : string),
    is_Some (mark_tags tags m !! t) <-> is_Some (m !! t) \/ In t tags.
Proof.
  unfold mark_tags.
  induction tags as [| x rest IH]; intros m t; simpl; [tauto |].
  rewrite IH. destruct (decide (x = t)) as [-> | Hne].
  - rewrite lookup_insert_eq. split; [intros _; right; left; reflexivity |].
    intros _. left. eauto.
  - rewrite lookup_insert_ne by exact Hne.
    split; [tauto | intros [H | [H | H]]; [tauto | contradiction | tauto]].
Qed.

(** [GetAllTags] returns the union of the explicit and the inherited tags,
    each tag once, whatever order the map is visited in. Only the order of
    the result depends on the run. *)
Theorem all_tags_is_the_deduplicated_union
    (L : GoLib) (ord : map_order) (e : StarfishEntry) :
  admissible_order ord ->
  List.NoDup (GetAllTags L ord e) /\
  (forall t, In t (GetAllTags L ord e) <->
             In t (GetTagsExplicit L e) \/ In t (GetTagsInherited L e)) /\
  (forall ord', admissible_order ord' ->
                Permutation (GetAllTags L ord e) (GetAllTags L ord' e)).
Proof.
  intros Hord. unfold GetAllTags.
  set (tagMap := mark_tags (GetTagsInherited L e) (mark_tags (GetTagsExplicit L e) ∅)).
  pose proof (Hord ((map_to_list tagMap).*1)) as Hperm.
  split; [| split].
  - eapply Permutation_NoDup; [symmetry; exact Hperm |].
    apply NoDup_ListNoDup. apply NoDup_fst_map_to_list.
  - intros t.
    assert (Hin : In t (ord (map_to_list tagMap).*1) <-> is_Some (tagMap !! t)).
    { split.
      - intros H. apply (Permutation_in _ Hperm) in H.
        apply list_elem_of_In in H. apply list_elem_of_fmap in H as ([k v] & -> & Hkv).
        apply elem_of_map_to_list in Hkv. simpl. eauto.
      - intros [v Hv]. apply (Permutation_in _ (Permutation_sym Hperm)).
        apply list_elem_of_In. apply list_elem_of_fmap. exists (t, v).
        split; [reflexivity | apply elem_of_map_to_list; exact Hv]. }
    rewrite Hin. subst tagMap. rewrite !mark_tags_lookup, lookup_empty.
    split; [intros [[[x Hx] | H] | H]; [discriminate | tauto | tauto] | tauto].
  - intros ord' Hord'. rewrite Hperm. symmetry. apply Hord'.
Qed.

Lemma all_tags_is_the_deduplicated_union_witness :
  Permutation (GetAllTags example_lib order_backward example_entry)
              ["project-a"; "important"].
Proof.
  destruct (all_tags_is_the_deduplicated_union example_lib order_backward example_entry
              order_backward_admissible) as (_ & _ & Hp).
  rewrite (Hp order_forward order_forward_admissible).
  vm_compute. apply perm_swap.
Defined.

(* ===================================================================== *)
(** * Further properties of the listing converter                          *)
(* ===================================================================== *)

Lemma plain_objects_app (L : GoLib) (b : StarfishBackend)
    (bucket prefix delimiter startAfter : string) (l1 l2 : list StarfishEntry) :
  plain_objects L b bucket prefix delimiter startAfter (l1 ++ l2) =
  (plain_objects L b bucket prefix delimiter startAfter l1 ++
   plain_objects L b bucket prefix delimiter startAfter l2)%list.
Proof. unfold plain_objects. rewrite List.filter_app, List.map_app. reflexivity. Qed.

Lemma plain_objects_In (L : GoLib) (b : StarfishBackend)
    (bucket prefix delimiter startAfter : string) (entries : list StarfishEntry)
    (obj : s3response.Object) :
  In obj (plain_objects L b bucket prefix delimiter startAfter entries) <->
  exists e,
    In e entries /\
    is_plain L b bucket prefix delimiter startAfter e = true /\
    obj = plain_object (key_of L b bucket e) e.
Proof.
  unfold plain_objects. rewrite List.in_map_iff. split.
  - intros (e & <- & He). apply List.filter_In in He as [He Hp]. eauto.
  - intros (e & He & Hp & ->). exists e. split; [reflexivity |].
    apply List.filter_In. auto.
Qed.

Lemma listing_contents
    (L : GoLib) (b : StarfishBackend) (resp : StarfishQueryResponse)
    (bucket prefix delimiter startAfter : string) (maxKeys : Z) :
  exists r,
    convertToListObjectsResult L b resp bucket prefix delimiter startAfter maxKeys = Some r /\
    (0 < maxKeys ->
     s3response.Contents r =
     firstn (Z.to_nat maxKeys)
       (plain_objects L b bucket prefix delimiter startAfter (Entries resp))) /\
    (maxKeys <= 0 ->
     s3response.Contents r =
     plain_objects L b bucket prefix delimiter startAfter (Entries resp)) /\
    (s3response.IsTruncated r = false <->
     (maxKeys <= 0 \/
      exists st,
        convert_loop L b bucket prefix delimiter startAfter 0 (Entries resp) loop_init
        = Some st /\
        convert_loop L b bucket prefix delimiter startAfter maxKeys (Entries resp)
          loop_init = Some st)).
Proof.
  destruct (convert_listing_facts L b resp bucket prefix delimiter startAfter maxKeys)
    as (r & Hr & Hle & _ & _ & Htr & Hfull & Hzero).
  exists r. split; [exact Hr |].
  split; [| split].
  - intros Hpos.
    destruct (s3response.IsTruncated r) eqn:Hflag.
    + destruct (Htr eq_refl) as (_ & Hlen & pre & e & post & Hsplit & Hc).
      rewrite Hsplit, plain_objects_app, Hc.
      rewrite Hc in Hlen. rewrite <- Hlen, Nat2Z.id.
      rewrite List.firstn_app, Nat.sub_diag, List.firstn_all. simpl.
      rewrite app_nil_r. reflexivity.
    + destruct (Hfull eq_refl) as [Hc _].
      specialize (Hle Hpos). rewrite Hc in Hle |- *.
      symmetry. apply List.firstn_all2. lia.
  - intros Hmax. apply Hfull. apply Hzero. exact Hmax.
  - unfold convertToListObjectsResult in Hr.
    destruct (convert_loop L b bucket prefix delimiter startAfter maxKeys
                (Entries resp) loop_init) as [st |] eqn:Hloop; [| discriminate].
    injection Hr as <-. simpl. split.
    + intros Hflag. right. exists st. split; [| reflexivity].
      apply (convert_loop_untruncated L b bucket prefix delimiter startAfter maxKeys
               (Entries resp) loop_init st Hloop Hflag).
    + intros [Hmax | (st0 & H0 & Hm)].
      * apply (Hzero Hmax).
      * injection Hm as <-.
        destruct (convert_loop_unlimited L b bucket prefix delimiter startAfter 0
                    (Entries resp) ltac:(lia) loop_init st H0) as (_ & _ & Hf & _);
          [constructor |].
        exact Hf.
Qed.

(** The objects of a listing are the first [maxKeys] of the entries that
    are neither skipped nor folded, in the order of the entries; all of
    them when the limit is zero or negative. *)
Theorem objects_are_the_first_plain_entries
    (L : GoLib) (b : StarfishBackend) (resp : StarfishQueryResponse)
    (bucket prefix delimiter startAfter : string) (maxKeys : Z) :
  exists r,
    convertToListObjectsResult L b resp bucket prefix delimiter startAfter maxKeys = Some r /\
    (0 < maxKeys ->
     s3response.Contents r =
     firstn (Z.to_nat maxKeys)
       (plain_objects L b bucket prefix delimiter startAfter (Entries resp))) /\
    (maxKeys <= 0 ->
     s3response.Contents r =
     plain_objects L b bucket prefix delimiter startAfter (Entries resp)) /\
    (s3response.IsTruncated r = false <->
     (maxKeys <= 0 \/
      exists st,
        convert_loop L b bucket prefix delimiter startAfter 0 (Entries resp) loop_init
        = Some st /\
        convert_loop L b bucket prefix delimiter startAfter maxKeys (Entries resp)
          loop_init = Some st)).
Proof.
  exact (listing_contents L b resp bucket prefix delimiter startAfter maxKeys).
Qed.

Lemma objects_are_the_first_plain_entries_witness :
  (List.map s3response.Key <$>
     (s3response.Contents <$>
        convertToListObjectsResult example_lib (backend_with None) five_entries
          "bk" "" "" "k2" 2)) = Some ["k3"; "k4"].
Proof.
  destruct (objects_are_the_first_plain_entries example_lib (backend_with None)
              five_entries "bk" "" "" "k2" 2) as (r & Hr & Hfirst & _).
  rewrite Hr. simpl. rewrite Hfirst by lia. reflexivity.
Defined.

Lemma In_firstn {A} (n : nat) (l : list A) (x : A) : In x (firstn n l) -> In x l.
Proof.
  intros H. rewrite <- (List.firstn_skipn n l). apply in_or_app. left. exact H.
Qed.

Lemma leb_false_ltb (s t : string) : String.leb s t = false -> String.ltb t s = true.
Proof.
  unfold String.leb, String.ltb. rewrite (String.compare_antisym t s).
  destruct (String.compare s t); simpl; congruence.
Qed.

Lemma convert_loop_prefix_origin (L : GoLib) (b : StarfishBackend)
    (bucket prefix delimiter startAfter : string) (maxKeys : Z)
    (entries : list StarfishEntry) :
  forall st st',
    convert_loop L b bucket prefix delimiter startAfter maxKeys entries st = Some st' ->
    List.NoDup (commonPrefixes st) ->
    forall cp, In cp (commonPrefixes st') ->
               In cp (commonPrefixes st) \/
               exists e, In e entries /\
                         folds_to L b bucket prefix delimiter startAfter e cp.
Proof.
  induction entries as [| e rest IH]; intros st st' Hloop Hnd cp Hcp.
  - simpl in Hloop. injection Hloop as <-. left. exact Hcp.
  - rewrite convert_loop_cons in Hloop.
    destruct (at_limit maxKeys (count st)).
    + injection Hloop as <-. left. exact Hcp.
    + destruct (convert_step L b bucket prefix delimiter startAfter st e)
        as [st1 |] eqn:Hs; [| discriminate].
      destruct (convert_step_prefixes L b bucket prefix delimiter startAfter
                  st st1 e Hs Hnd) as [Hnd1 Hin1].
      destruct (IH st1 st' Hloop Hnd1 cp Hcp) as [H1 | (e' & He' & Hf)].
      * apply Hin1 in H1 as [H1 | H1]; [left; exact H1 |].
        right. exists e. split; [left; reflexivity | exact H1].
      * right. exists e'. split; [right; exact He' | exact Hf].
Qed.

(** With a cursor, everything listed lies strictly after it: the key of
    every object is greater than [startAfter], and every common prefix
    stands for an entry whose key is. *)
Theorem listing_resumes_strictly_after_cursor
    (L : GoLib) (b : StarfishBackend) (resp : StarfishQueryResponse)
    (bucket prefix delimiter startAfter : string) (maxKeys : Z)
    (r : s3response.ListObjectsResult) :
  startAfter <> "" ->
  convertToListObjectsResult L b resp bucket prefix delimiter startAfter maxKeys = Some r ->
  (forall obj, In obj (s3response.Contents r) ->
               String.ltb startAfter (s3response.Key obj) = true /\
               exists e, In e (Entries resp) /\
                         obj = plain_object (key_of L b bucket e) e) /\
  (forall cp, In cp (s3response.CommonPrefixes r) ->
              exists e, In e (Entries resp) /\
                        String.ltb startAfter (key_of L b bucket e) = true /\
                        getCommonPrefix (key_of L b bucket e) prefix delimiter = Some cp).
Proof.
  intros Hsa Hr.
  assert (Hskip : forall key, skipped startAfter key = false ->
                              String.ltb startAfter key = true).
  { intros key. unfold skipped.
    destruct (String.eqb_spec startAfter ""); [contradiction |]. simpl.
    apply leb_false_ltb. }
  split.
  - intros obj Hobj.
    destruct (listing_contents L b resp bucket prefix delimiter
                startAfter maxKeys) as (r' & Hr' & Hpos & Hneg & _).
    rewrite Hr in Hr'. injection Hr' as <-.
    assert (Hin : In obj (plain_objects L b bucket prefix delimiter startAfter
                            (Entries resp))).
    { destruct (Z.ltb_spec 0 maxKeys) as [Hp | Hn].
      - rewrite (Hpos Hp) in Hobj. eapply In_firstn. exact Hobj.
      - rewrite (Hneg Hn) in Hobj. exact Hobj. }
    apply plain_objects_In in Hin as (e & He & Hplain & ->).
    split; [| eauto]. simpl. apply Hskip.
    unfold is_plain in Hplain. apply andb_true_iff in Hplain as [H1 _].
    apply negb_true_iff in H1. exact H1.
  - intros cp Hcp.
    unfold convertToListObjectsResult in Hr.
    destruct (convert_loop L b bucket prefix delimiter startAfter maxKeys
                (Entries resp) loop_init) as [st |] eqn:Hloop; [| discriminate].
    injection Hr as <-. simpl in Hcp.
    destruct (convert_loop_prefix_origin L b bucket prefix delimiter startAfter maxKeys
                (Entries resp) loop_init st Hloop ltac:(constructor) cp Hcp)
      as [[] | (e & He & Hs & _ & Hg)].
    exists e. split; [exact He |]. split; [apply Hskip; exact Hs | exact Hg].
Qed.

Lemma listing_resumes_strictly_after_cursor_witness :
  String.ltb "k2" (s3response.Key (plain_object "k4" (entry_at "/k4"))) = true.
Proof.
  assert (Hsa : "k2" <> "") by discriminate.
  assert (Hr : convertToListObjectsResult example_lib (backend_with None) five_entries
                 "bk" "" "" "k2" 2
               = Some {| s3response.Contents :=
                           [plain_object "k3" (entry_at "/k3");
                            plain_object "k4" (entry_at "/k4")];
                         s3response.CommonPrefixes := [];
                         s3response.IsTruncated := true;
                         s3response.MaxKeys := 2;
                         s3response.Name := "bk";
                         s3response.Prefix := "";
                         s3response.Delimiter := "" |})
    by (vm_compute; reflexivity).
  destruct (listing_resumes_strictly_after_cursor example_lib (backend_with None)
              five_entries "bk" "" "" "k2" 2 _ Hsa Hr) as [Hobjs _].
  apply (Hobjs (plain_object "k4" (entry_at "/k4"))).
  simpl. auto.
Defined.

(** An empty delimiter disables folding: the listing has no common prefix,
    and its objects are the first [maxKeys] entries that the cursor does
    not skip. *)
Theorem empty_delimiter_never_folds
    (L : GoLib) (b : StarfishBackend) (resp : StarfishQueryResponse)
    (bucket prefix startAfter : string) (maxKeys : Z) :
  exists r,
    convertToListObjectsResult L b resp bucket prefix "" startAfter maxKeys = Some r /\
    s3response.CommonPrefixes r = [] /\
    s3response.Contents r =
      (if 0 <? maxKeys then firstn (Z.to_nat maxKeys) else fun l => l)
        (List.map (fun e => plain_object (key_of L b bucket e) e)
           (List.filter (fun e => negb (skipped startAfter (key_of L b bucket e)))
              (Entries resp))).
Proof.
  destruct (listing_contents L b resp bucket prefix "" startAfter
              maxKeys) as (r & Hr & Hpos & Hneg & _).
  exists r. split; [exact Hr |].
  split.
  - unfold convertToListObjectsResult in Hr.
    destruct (convert_loop L b bucket prefix "" startAfter maxKeys
                (Entries resp) loop_init) as [st |] eqn:Hloop; [| discriminate].
    injection Hr as <-. simpl.
    destruct (commonPrefixes st) as [| cp rest] eqn:Hcps; [reflexivity |].
    exfalso.
    destruct (convert_loop_prefix_origin L b bucket prefix "" startAfter maxKeys
                (Entries resp) loop_init st Hloop ltac:(constructor) cp)
      as [[] | (e & _ & _ & Hf & _)]; [rewrite Hcps; left; reflexivity |].
    unfold folded in Hf. simpl in Hf. discriminate.
  - assert (Hsame : plain_objects L b bucket prefix "" startAfter (Entries resp) =
                    List.map (fun e => plain_object (key_of L b bucket e) e)
                      (List.filter
                         (fun e => negb (skipped startAfter (key_of L b bucket e)))
                         (Entries resp))).
    { unfold plain_objects. f_equal. apply List.filter_ext. intros e.
      unfold is_plain, folded, key_of. simpl. apply andb_true_r. }
    rewrite <- Hsame.
    destruct (Z.ltb_spec 0 maxKeys) as [Hp | Hn]; [apply Hpos | apply Hneg]; assumption.
Qed.

Lemma HasSuffix_app (x d : string) : strings_HasSuffix (x +:+ d) d = true.
Proof.
  unfold strings_HasSuffix. rewrite length_append.
  apply andb_true_iff. split; [apply Nat.leb_le; lia |].
  replace (String.length x + String.length d - String.length d)%nat
    with (String.length x) by lia.
  rewrite drop_app. apply String.eqb_refl.
Qed.

(** Every common prefix of a listing has the shape the delimiter gives it:
    it starts with the requested prefix, ends with the delimiter, holds the
    delimiter nowhere else after the prefix, and is a proper beginning of
    the key of some entry. *)
Theorem common_prefixes_end_at_first_delimiter
    (L : GoLib) (b : StarfishBackend) (resp : StarfishQueryResponse)
    (bucket prefix delimiter startAfter : string) (maxKeys : Z)
    (r : s3response.ListObjectsResult) (cp : string) :
  delimiter <> "" ->
  convertToListObjectsResult L b resp bucket prefix delimiter startAfter maxKeys = Some r ->
  In cp (s3response.CommonPrefixes r) ->
  exists e u v,
    In e (Entries resp) /\
    cp = prefix +:+ u +:+ delimiter /\
    key_of L b bucket e = cp +:+ v /\ v <> "" /\
    strings_Contains u delimiter = false /\
    strings_HasPrefix cp prefix = true /\
    strings_HasSuffix cp delimiter = true.
Proof.
  intros Hd Hr Hcp.
  unfold convertToListObjectsResult in Hr.
  destruct (convert_loop L b bucket prefix delimiter startAfter maxKeys
              (Entries resp) loop_init) as [st |] eqn:Hloop; [| discriminate].
  injection Hr as <-. simpl in Hcp.
  destruct (convert_loop_prefix_origin L b bucket prefix delimiter startAfter maxKeys
              (Entries resp) loop_init st Hloop ltac:(constructor) cp Hcp)
    as [[] | (e & He & _ & Hf & Hg)].
  rewrite (folded_nonempty prefix delimiter _ Hd) in Hf.
  destruct (getCommonPrefix_spec _ prefix delimiter Hd Hf)
    as (u & v & Hkey & Hv & Hg' & Hmin).
  rewrite Hg in Hg'. injection Hg' as ->.
  exists e, u, v. split; [exact He |]. split; [reflexivity |].
  split; [unfold key_of; rewrite Hkey, !append_assoc; reflexivity |].
  split; [exact Hv |].
  split.
  - unfold strings_Contains.
    destruct (strings_Index u delimiter) as [i |] eqn:Hi; [| reflexivity].
    exfalso.
    destruct (strings_Index_some u delimiter i Hd Hi) as (u1 & v1 & Hu & _).
    assert (Hk2 : buildObjectKeyFromEntryWithBucket L b e bucket =
                  prefix +:+ u1 +:+ delimiter +:+ v1 +:+ delimiter +:+ v)
      by (rewrite Hkey, Hu, !append_assoc; reflexivity).
    pose proof (Hmin u1 (v1 +:+ delimiter +:+ v) Hk2) as Hle.
    rewrite Hu, !length_append in Hle.
    apply nonempty_length in Hd. lia.
  - split; [apply prefix_split; eauto |].
    rewrite <- append_assoc. apply HasSuffix_app.
Qed.

Lemma common_prefixes_end_at_first_delimiter_witness :
  exists e u v,
    In e (Entries example_listing) /\
    "a/" = "" +:+ u +:+ "/" /\
    key_of example_lib (backend_with None) "bk" e = "a/" +:+ v /\ v <> "" /\
    strings_Contains u "/" = false /\
    strings_HasPrefix "a/" "" = true /\
    strings_HasSuffix "a/" "/" = true.
Proof.
  assert (Hd : "/" <> "") by discriminate.
  assert (Hr : convertToListObjectsResult example_lib (backend_with None) example_listing
                 "bk" "" "/" "" 1000
               = Some {| s3response.Contents := [];
                         s3response.CommonPrefixes := ["a/"];
                         s3response.IsTruncated := false;
                         s3response.MaxKeys := 1000;
                         s3response.Name := "bk";
                         s3response.Prefix := "";
                         s3response.Delimiter := "/" |})
    by (vm_compute; reflexivity).
  apply (common_prefixes_end_at_first_delimiter example_lib (backend_with None)
           example_listing "bk" "" "/" "" 1000 _ "a/" Hd Hr).
  simpl. left. reflexivity.
Defined.

(** ** HeadObject against the listing *)

Lemma find_entry_some (L : GoLib) (b : StarfishBackend) (bucket object : string)
    (entries : list StarfishEntry) (e : StarfishEntry) :
  find_entry L b bucket object entries = Some e ->
  exists pre post,
    entries = (pre ++ e :: post)%list /\
    key_of L b bucket e = object /\
    Forall (fun e' => key_of L b bucket e' <> object) pre.
Proof.
  induction entries as [| x rest IH]; simpl; [discriminate |].
  destruct (String.eqb_spec (buildObjectKeyFromEntryWithBucket L b x bucket) object)
    as [Hk | Hk].
  - intros [= <-]. exists [], rest. split; [reflexivity |]. split; [exact Hk | constructor].
  - intros H. destruct (IH H) as (pre & post & -> & Hkey & Hpre).
    exists (x :: pre), post. split; [reflexivity |].
    split; [exact Hkey | constructor; assumption].
Qed.

Lemma find_entry_none (L : GoLib) (b : StarfishBackend) (bucket object : string)
    (entries : list StarfishEntry) :
  find_entry L b bucket object entries = None <->
  forall e, In e entries -> key_of L b bucket e <> object.
Proof.
  induction entries as [| x rest IH]; simpl.
  - split; [intros _ e [] | reflexivity].
  - destruct (String.eqb_spec (buildObjectKeyFromEntryWithBucket L b x bucket) object)
      as [Hk | Hk].
    + split; [discriminate |]. intros H. exfalso. apply (H x); [left; reflexivity | exact Hk].
    + rewrite IH. split.
      * intros H e [<- | He]; [exact Hk | apply H; exact He].
      * intros H e He. apply H. right. exact He.
Qed.

Lemma key_determines_entry (L : GoLib) (b : StarfishBackend) (bucket : string)
    (entries : list StarfishEntry) (e1 e2 : StarfishEntry) :
  List.NoDup (List.map (key_of L b bucket) entries) ->
  In e1 entries -> In e2 entries ->
  key_of L b bucket e1 = key_of L b bucket e2 -> e1 = e2.
Proof.
  induction entries as [| x rest IH]; intros Hnd H1 H2 Hk; [destruct H1 |].
  simpl in Hnd. inversion Hnd as [| ? ? Hx Hrest]; subst.
  destruct H1 as [<- | H1], H2 as [<- | H2].
  - reflexivity.
  - exfalso. apply Hx. rewrite Hk. apply List.in_map. exact H2.
  - exfalso. apply Hx. rewrite <- Hk. apply List.in_map. exact H1.
  - apply IH; assumption.
Qed.

(** [HeadObject] against the listing of the same query result. It answers
    no-such-key exactly when no entry has the key, an error of the query is
    passed through the conversion, and every object that a listing shows
    can be headed; the answer describes the first entry with that key, so
    when the keys of the entries are pairwise distinct the entity tag, size
    and time of the answer are those the listing showed. *)
Theorem head_finds_what_the_listing_shows
    (L : GoLib) (toS3 : error -> error) (b : StarfishBackend)
    (resp : StarfishQueryResponse) (bucket : string) :
  (forall object,
     HeadObject L toS3 b (inl resp) bucket object = inr (S3Error ErrNoSuchKey) <->
     forall e, In e (Entries resp) -> key_of L b bucket e <> object) /\
  (forall err object, HeadObject L toS3 b (inr err) bucket object = inr (toS3 err)) /\
  (forall prefix delimiter startAfter maxKeys r obj,
     convertToListObjectsResult L b resp bucket prefix delimiter startAfter maxKeys
     = Some r ->
     In obj (s3response.Contents r) ->
     exists out,
       HeadObject L toS3 b (inl resp) bucket (s3response.Key obj) = inl out /\
       (List.NoDup (List.map (key_of L b bucket) (Entries resp)) ->
        s3.ETag out = s3response.ETag obj /\
        s3.LastModified out = s3response.LastModified obj /\
        s3.ContentLength out = s3response.Size obj)).
Proof.
  split; [| split].
  - intros object. unfold HeadObject.
    rewrite <- find_entry_none.
    destruct (find_entry L b bucket object (Entries resp)); split; congruence.
  - reflexivity.
  - intros prefix delimiter startAfter maxKeys r obj Hr Hobj.
    destruct (listing_contents L b resp bucket prefix delimiter
                startAfter maxKeys) as (r' & Hr' & Hpos & Hneg & _).
    rewrite Hr in Hr'. injection Hr' as <-.
    assert (Hin : In obj (plain_objects L b bucket prefix delimiter startAfter
                            (Entries resp))).
    { destruct (Z.ltb_spec 0 maxKeys) as [Hp | Hn].
      - rewrite (Hpos Hp) in Hobj. eapply In_firstn. exact Hobj.
      - rewrite (Hneg Hn) in Hobj. exact Hobj. }
    apply plain_objects_In in Hin as (e & He & _ & ->).
    unfold HeadObject. cbn [s3response.Key plain_object].
    destruct (find_entry L b bucket (key_of L b bucket e) (Entries resp))
      as [e' |] eqn:Hfind.
    + eexists. split; [reflexivity |].
      intros Hnd.
      destruct (find_entry_some L b bucket _ _ e' Hfind) as (pre & post & Hsplit & Hk & _).
      assert (e' = e).
      { apply (key_determines_entry L b bucket (Entries resp)); auto.
        rewrite Hsplit. apply in_elt. }
      subst e'. simpl. auto.
    + exfalso. rewrite find_entry_none in Hfind. apply (Hfind e He). reflexivity.
Qed.

Lemma head_finds_what_the_listing_shows_witness :
  exists out,
    HeadObject example_lib (fun err => err) (backend_with None) (inl five_entries)
      "bk" "k3" = inl out /\
    s3.ETag out = generateETag (entry_at "/k3").
Proof.
  destruct (head_finds_what_the_listing_shows example_lib (fun err => err)
              (backend_with None) five_entries "bk") as (_ & _ & Hlist).
  assert (Hr : convertToListObjectsResult example_lib (backend_with None) five_entries
                 "bk" "" "" "k2" 2
               = Some {| s3response.Contents :=
                           [plain_object "k3" (entry_at "/k3");
                            plain_object "k4" (entry_at "/k4")];
                         s3response.CommonPrefixes := [];
                         s3response.IsTruncated := true;
                         s3response.MaxKeys := 2;
                         s3response.Name := "bk";
                         s3response.Prefix := "";
                         s3response.Delimiter := "" |})
    by (vm_compute; reflexivity).
  destruct (Hlist "" "" "k2" 2 _ (plain_object "k3" (entry_at "/k3")) Hr)
    as (out & Hout & Hsame); [simpl; auto |].
  exists out. split; [exact Hout |].
  apply Hsame. vm_compute. repeat constructor; simpl; intuition discriminate.
Defined.

(** ** Collections *)

Lemma collections_fold_lookup (tagNames : list string) :
  forall (m : gmap string string) (name : string),
    fold_left (fun m tagName => <[tagName := "Collections:" +:+ tagName]> m) tagNames m
      !! name
    = if In_dec string_dec name tagNames then Some ("Collections:" +:+ name)
      else m !! name.
Proof.
  induction tagNames as [| t rest IH]; intros m name; simpl.
  - reflexivity.
  - rewrite IH.
    destruct (In_dec string_dec name rest) as [Hin | Hnin];
      destruct (string_dec t name) as [-> | Hne]; try reflexivity.
    + apply lookup_insert_eq.
    + apply lookup_insert_ne. exact Hne.
Qed.

Lemma fold_insert_lookup (l : list (string * string)) :
  forall (acc : gmap string string) (k : string),
    List.NoDup (List.map fst l) ->
    (forall v, In (k, v) l ->
       fold_left (fun result kv => <[fst kv := snd kv]> result) l acc !! k = Some v) /\
    (~ In k (List.map fst l) ->
       fold_left (fun result kv => <[fst kv := snd kv]> result) l acc !! k = acc !! k).
Proof.
  induction l as [| [k0 v0] rest IH]; intros acc k Hnd; simpl.
  - split; [intros v [] | reflexivity].
  - simpl in Hnd. inversion Hnd as [| ? ? Hk0 Hrest]; subst.
    destruct (IH (<[k0 := v0]> acc) k Hrest) as [IHin IHout].
    split.
    + intros v [[= -> ->] | Hin]; [| apply IHin; exact Hin].
      rewrite IHout by exact Hk0. apply lookup_insert_eq.
    + intros Hnot. rewrite IHout by tauto.
      apply lookup_insert_ne. tauto.
Qed.

(** The collections are exactly the tag names of the last successful
    discovery: each name is a bucket whose tag is [Collections:] followed
    by the name, buckets of an earlier discovery that are no longer listed
    are gone, and a bucket that is not listed is answered no-such-bucket. A
    discovery that fails leaves the backend as it was. [GetAllCollections]
    returns the map itself, and a collection that is added is found. *)
Theorem collections_follow_the_tag_list
    (b : StarfishBackend) (tagNames : list string) (name : string) :
  let b' := fst (InitializeCollections b (inl tagNames)) in
  snd (InitializeCollections b (inl tagNames)) = None /\
  (In name tagNames ->
   GetCollectionTag b' name = ("Collections:" +:+ name, true) /\
   HeadBucket b' name = None) /\
  (~ In name tagNames ->
   GetCollectionTag b' name = ("", false) /\
   HeadBucket b' name = Some (S3Error ErrNoSuchBucket)) /\
  (forall err, InitializeCollections b (inr err) = (b, Some err)) /\
  GetAllCollections b = collections b /\
  (forall tag, GetCollectionTag (AddCollection b name tag) name = (tag, true)).
Proof.
  intros b'. subst b'. simpl.
  assert (Hlook : collections_of tagNames !! name =
                  if In_dec string_dec name tagNames then Some ("Collections:" +:+ name)
                  else None).
  { unfold collections_of. rewrite collections_fold_lookup, lookup_empty. reflexivity. }
  split; [reflexivity |].
  split; [| split; [| split; [reflexivity | split]]].
  - intros Hin. unfold GetCollectionTag, HeadBucket. simpl. rewrite Hlook.
    destruct (In_dec string_dec name tagNames); [auto | contradiction].
  - intros Hnin. unfold GetCollectionTag, HeadBucket. simpl. rewrite Hlook.
    destruct (In_dec string_dec name tagNames); [contradiction | auto].
  - unfold GetAllCollections. apply map_eq. intros k.
    pose proof (NoDup_fst_map_to_list (collections b)) as Hnd.
    apply NoDup_ListNoDup in Hnd.
    destruct (fold_insert_lookup (map_to_list (collections b)) ∅ k Hnd) as [Hin Hout].
    destruct (collections b !! k) as [v |] eqn:Hk.
    + apply Hin. apply list_elem_of_In. apply elem_of_map_to_list. exact Hk.
    + rewrite Hout; [apply lookup_empty |].
      intros H. apply List.in_map_iff in H as ([k' v] & Hfst & Hkv). simpl in Hfst. subst k'.
      apply list_elem_of_In in Hkv. apply elem_of_map_to_list in Hkv. congruence.
  - intros tag. unfold GetCollectionTag, AddCollection. simpl.
    rewrite lookup_insert_eq. reflexivity.
Qed.

Lemma collections_follow_the_tag_list_witness :
  GetCollectionTag
    (fst (InitializeCollections
            (AddCollection (backend_with None) "Old" "Collections:Old")
            (inl ["Archive"; "Tagged-Data"]))) "Archive"
  = ("Collections:Archive", true) /\
  HeadBucket
    (fst (InitializeCollections
            (AddCollection (backend_with None) "Old" "Collections:Old")
            (inl ["Archive"; "Tagged-Data"]))) "Old"
  = Some (S3Error ErrNoSuchBucket).
Proof.
  destruct (collections_follow_the_tag_list
              (AddCollection (backend_with None) "Old" "Collections:Old")
              ["Archive"; "Tagged-Data"] "Archive") as (_ & Hin & _).
  destruct (collections_follow_the_tag_list
              (AddCollection (backend_with None) "Old" "Collections:Old")
              ["Archive"; "Tagged-Data"] "Old") as (_ & _ & Hout & _).
  split.
  - apply Hin. simpl. auto.
  - apply Hout. simpl. intros [H | [H | []]]; discriminate.
Defined.

(* ===================================================================== *)
(** * The listing operations and the cache                                 *)
(* ===================================================================== *)

Lemma Get_defaultTTL (c : QueryCache) (now : Z) (key : string) :
  defaultTTL (fst (Get c now key)) = defaultTTL c.
Proof.
  unfold Get. destruct (data c !! key) as [cached |]; [| reflexivity].
  destruct (time_After now (ExpiresAt cached)); reflexivity.
Qed.

Lemma convert_ignores_backend (L : GoLib) (b1 b2 : StarfishBackend)
    (resp : StarfishQueryResponse) (bucket prefix delimiter startAfter : string)
    (maxKeys : Z) :
  convertToListObjectsResult L b1 resp bucket prefix delimiter startAfter maxKeys =
  convertToListObjectsResult L b2 resp bucket prefix delimiter startAfter maxKeys.
Proof.
  unfold convertToListObjectsResult.
  rewrite (convert_loop_ignores_backend L b1 b2). reflexivity.
Qed.

Lemma convertV2_ignores_backend (L : GoLib) (b1 b2 : StarfishBackend)
    (resp : StarfishQueryResponse) (bucket prefix delimiter startAfter : string)
    (maxKeys : Z) :
  convertToListObjectsV2Result L b1 resp bucket prefix delimiter startAfter maxKeys =
  convertToListObjectsV2Result L b2 resp bucket prefix delimiter startAfter maxKeys.
Proof.
  unfold convertToListObjectsV2Result.
  rewrite (convert_loop_ignores_backend L b1 b2). reflexivity.
Qed.

Section ListingCallFacts.
Variable toS3 : error -> error.
Context {R : Type}.
Variables (version operation : string).
Variable convert : StarfishBackend -> StarfishQueryResponse -> option R.
Variables (bucket prefix delimiter : string).

Local Abbreviation key := (cacheKey version bucket prefix delimiter).

(** A call that finds nothing to return in the cache asks Starfish. *)
Lemma listing_call_miss
    (request : string -> string -> string -> StarfishQueryResponse + error)
    (b : StarfishBackend) (clk : readings) :
  snd (Get (cache b) (at_Get clk) key) = None ->
  listing_call toS3 request version operation convert b clk bucket prefix delimiter =
  let b1 := with_cache b (fst (Get (cache b) (at_Get clk) key)) in
  let queried := QueryStarfish b request bucket "" "type=f" in
  let b2 := record_query b1 operation bucket clk queried in
  match queried with
  | inr err => Some (b2, inr (toS3 err))
  | inl result =>
      let b3 := with_cache b2
                  (CacheSet (cache b1) (at_Set clk) key (Some result) bucket) in
      match convert b3 result with
      | Some r => Some (b3, inl r)
      | None => None
      end
  end.
Proof.
  intros Hmiss. unfold listing_call.
  destruct (Get (cache b) (at_Get clk) key) as [c1 cached]. simpl in Hmiss. subst cached.
  reflexivity.
Qed.

(** A call that finds data in the cache returns its conversion and asks
    nobody. *)
Lemma listing_call_hit
    (request : string -> string -> string -> StarfishQueryResponse + error)
    (b : StarfishBackend) (clk : readings) (hit : StarfishQueryResponse) :
  snd (Get (cache b) (at_Get clk) key) = Some hit ->
  listing_call toS3 request version operation convert b clk bucket prefix delimiter =
  let b1 := with_cache b (fst (Get (cache b) (at_Get clk) key)) in
  match convert b1 hit with
  | Some r => Some (b1, inl r)
  | None => None
  end.
Proof.
  intros Hhit. unfold listing_call.
  destruct (Get (cache b) (at_Get clk) key) as [c1 cached]. simpl in Hhit. subst cached.
  reflexivity.
Qed.

(** What a successful miss leaves behind, and what later calls make of it. *)
Lemma listing_call_caches
    (request : string -> string -> string -> StarfishQueryResponse + error)
    (b : StarfishBackend) (clk : readings) (res : StarfishQueryResponse) :
  (forall b' resp, exists r, convert b' resp = Some r) ->
  snd (Get (cache b) (at_Get clk) key) = None ->
  QueryStarfish b request bucket "" "type=f" = inl res ->
  exists b1 r1,
    listing_call toS3 request version operation convert b clk bucket prefix delimiter
    = Some (b1, inl r1) /\
    convert b1 res = Some r1 /\
    data (cache b1) !! key
    = Some {| Data := Some res; CachedAt := at_Set clk;
              ExpiresAt := at_Set clk + defaultTTL (cache b);
              VolumeAndPath := bucket; HitCount := 0 |}.
Proof.
  intros Htotal Hmiss Hq.
  rewrite (listing_call_miss request b clk Hmiss). cbv zeta. rewrite Hq.
  match goal with
  | |- context [convert ?b3 res] => destruct (Htotal b3 res) as [r Hr]; rewrite Hr
  end.
  eexists _, r. split; [reflexivity |]. split; [exact Hr |].
  simpl. rewrite lookup_insert_eq. unfold time_Add. rewrite Get_defaultTTL. reflexivity.
Qed.

Lemma listing_call_served
    (request : string -> string -> string -> StarfishQueryResponse + error)
    (b : StarfishBackend) (clk : readings) (cached : CachedResult)
    (res : StarfishQueryResponse) :
  (forall b' resp, exists r, convert b' resp = Some r) ->
  data (cache b) !! key = Some cached ->
  Data cached = Some res ->
  at_Get clk <= ExpiresAt cached ->
  exists b2 r2,
    listing_call toS3 request version operation convert b clk bucket prefix delimiter
    = Some (b2, inl r2) /\
    convert b2 res = Some r2 /\
    collections b2 = collections b /\
    data (cache b2) !! key = Some (bump cached).
Proof.
  intros Htotal Hk Hdata Hfresh.
  destruct (Get_hit (cache b) (at_Get clk) key cached Hk Hfresh) as (Hsnd & Hmap & _).
  rewrite Hdata in Hsnd.
  rewrite (listing_call_hit request b clk res Hsnd). cbv zeta.
  match goal with
  | |- context [convert ?b1 res] => destruct (Htotal b1 res) as [r Hr]; rewrite Hr
  end.
  eexists _, r. split; [reflexivity |]. split; [exact Hr |]. split; [reflexivity |].
  simpl. rewrite Hmap. apply lookup_insert_eq.
Qed.

Lemma listing_call_stale
    (request : string -> string -> string -> StarfishQueryResponse + error)
    (b : StarfishBackend) (clk : readings) (cached : CachedResult) (err : error) :
  data (cache b) !! key = Some cached ->
  ExpiresAt cached < at_Get clk ->
  QueryStarfish b request bucket "" "type=f" = inr err ->
  exists b2,
    listing_call toS3 request version operation convert b clk bucket prefix delimiter
    = Some (b2, inr (toS3 err)) /\
    data (cache b2) !! key = None.
Proof.
  intros Hk Hstale Hq.
  destruct (Get_expired (cache b) (at_Get clk) key cached Hk Hstale) as (Hsnd & Hdata).
  rewrite (listing_call_miss request b clk Hsnd). cbv zeta. rewrite Hq.
  eexists. split; [reflexivity |].
  simpl. rewrite Hdata. apply lookup_delete_eq.
Qed.

Lemma listing_call_fails
    (request : string -> string -> string -> StarfishQueryResponse + error)
    (b : StarfishBackend) (clk : readings) (err : error) :
  snd (Get (cache b) (at_Get clk) key) = None ->
  QueryStarfish b request bucket "" "type=f" = inr err ->
  exists b1,
    listing_call toS3 request version operation convert b clk bucket prefix delimiter
    = Some (b1, inr (toS3 err)) /\
    cache b1 = fst (Get (cache b) (at_Get clk) key) /\
    collections b1 = collections b.
Proof.
  intros Hmiss Hq.
  rewrite (listing_call_miss request b clk Hmiss). cbv zeta. rewrite Hq.
  eexists. split; [reflexivity |]. split; reflexivity.
Qed.

End ListingCallFacts.

Lemma convert_total (L : GoLib) (bucket prefix delimiter startAfter : string)
    (maxKeys : Z) (b : StarfishBackend) (resp : StarfishQueryResponse) :
  exists r,
    convertToListObjectsResult L b resp bucket prefix delimiter startAfter maxKeys = Some r.
Proof.
  destruct (convert_listing_facts L b resp bucket prefix delimiter startAfter maxKeys)
    as (r & Hr & _).
  eauto.
Qed.

Lemma convertV2_total (L : GoLib) (bucket prefix delimiter startAfter : string)
    (maxKeys : Z) (b : StarfishBackend) (resp : StarfishQueryResponse) :
  exists r,
    convertToListObjectsV2Result L b resp bucket prefix delimiter startAfter maxKeys
    = Some r.
Proof.
  unfold convertToListObjectsV2Result.
  destruct (convert_loop_total L b bucket prefix delimiter startAfter maxKeys
              (Entries resp) loop_init) as [st ->].
  eauto.
Qed.

(** A listing that had to ask Starfish stores the answer, to expire at the
    instant of the [Set] plus the TTL. From any state of the backend in
    which that entry is still held, a [ListObjects] for the same bucket,
    prefix and delimiter that reads the cache at or before the expiry is
    answered from it, with its own marker and limit, and leaves it held:
    Starfish is not asked, so the answer is the same when Starfish is down
    or the bucket has left the collections meanwhile. Hence every call of
    a sequence of such calls is answered from the entry, however many came
    before. A call that reads the cache after the expiry asks Starfish
    again, and fails if Starfish does. *)
Theorem repeated_listing_is_served_from_cache
    (L : GoLib) (toS3 : error -> error)
    (request : string -> string -> string -> StarfishQueryResponse + error)
    (b : StarfishBackend) (clk : readings) (input : s3.ListObjectsInput)
    (bucket : string) (res : StarfishQueryResponse) :
  let prefix := default "" (s3.Prefix input) in
  let delimiter := default "" (s3.Delimiter input) in
  let key := cacheKey "v1" bucket prefix delimiter in
  let expiry := at_Set clk + defaultTTL (cache b) in
  let same_listing input' :=
    s3.Bucket input' = Some bucket /\
    default "" (s3.Prefix input') = prefix /\
    default "" (s3.Delimiter input') = delimiter in
  let served input' :=
    convertToListObjectsResult L b res bucket prefix delimiter
      (default "" (s3.Marker input')) (default 1000 (s3.MaxKeys input')) in
  s3.Bucket input = Some bucket ->
  snd (Get (cache b) (at_Get clk) key) = None ->
  QueryStarfish b request bucket "" "type=f" = inl res ->
  exists b1 r1,
    ListObjects L toS3 request b clk input = Some (b1, inl r1) /\
    served input = Some r1 /\
    holds b1 key res expiry /\
    (forall request' b' clk' input',
       holds b' key res expiry ->
       same_listing input' ->
       (at_Get clk' <= expiry ->
        exists b2 r2,
          ListObjects L toS3 request' b' clk' input' = Some (b2, inl r2) /\
          served input' = Some r2 /\
          holds b2 key res expiry) /\
       (expiry < at_Get clk' ->
        forall err,
          QueryStarfish b' request' bucket "" "type=f" = inr err ->
          exists b2,
            ListObjects L toS3 request' b' clk' input' = Some (b2, inr (toS3 err)))) /\
    (forall calls,
       Forall (fun call => same_listing (call_input call) /\
                           at_Get (call_clock call) <= expiry) calls ->
       exists bn answers,
         ListObjects_all L toS3 b1 calls = Some (bn, answers) /\
         Forall2 (fun call answer =>
                    exists r, answer = inl r /\ served (call_input call) = Some r)
           calls answers /\
         holds bn key res expiry).
Proof.
  intros prefix delimiter key expiry same_listing served Hb Hmiss Hq.
  assert (Hstep : forall request' b' clk' input',
       holds b' key res expiry ->
       same_listing input' ->
       (at_Get clk' <= expiry ->
        exists b2 r2,
          ListObjects L toS3 request' b' clk' input' = Some (b2, inl r2) /\
          served input' = Some r2 /\
          holds b2 key res expiry) /\
       (expiry < at_Get clk' ->
        forall err,
          QueryStarfish b' request' bucket "" "type=f" = inr err ->
          exists b2,
            ListObjects L toS3 request' b' clk' input' = Some (b2, inr (toS3 err)))).
  { intros request' b' clk' input' (cached & Hentry & Hdata & Hexp) (Hb' & Hp' & Hd').
    unfold ListObjects. rewrite Hb', Hp', Hd'. fold key.
    split.
    - intros Hfresh. rewrite <- Hexp in Hfresh.
      destruct (listing_call_served toS3 "v1" "ListObjects"
                  (fun b'' result =>
                     convertToListObjectsResult L b'' result bucket prefix delimiter
                       (default "" (s3.Marker input')) (default 1000 (s3.MaxKeys input')))
                  bucket prefix delimiter request' b' clk' cached res
                  (convert_total L bucket prefix delimiter _ _) Hentry Hdata Hfresh)
        as (b2 & r2 & Hcall2 & Hr2 & _ & Hkept).
      exists b2, r2. split; [exact Hcall2 |].
      split; [unfold served; rewrite (convert_ignores_backend L b b2); exact Hr2 |].
      exists (bump cached). split; [exact Hkept |]. split; [exact Hdata | exact Hexp].
    - intros Hstale err Hq'. rewrite <- Hexp in Hstale.
      destruct (listing_call_stale toS3 "v1" "ListObjects"
                  (fun b'' result =>
                     convertToListObjectsResult L b'' result bucket prefix delimiter
                       (default "" (s3.Marker input')) (default 1000 (s3.MaxKeys input')))
                  bucket prefix delimiter request' b' clk' cached err Hentry Hstale Hq')
        as (b2 & Hcall2 & _).
      exists b2. exact Hcall2. }
  unfold ListObjects at 1. rewrite Hb. fold prefix delimiter.
  destruct (listing_call_caches toS3 "v1" "ListObjects"
              (fun b' result =>
                 convertToListObjectsResult L b' result bucket prefix delimiter
                   (default "" (s3.Marker input)) (default 1000 (s3.MaxKeys input)))
              bucket prefix delimiter request b clk res
              (convert_total L bucket prefix delimiter _ _) Hmiss Hq)
    as (b1 & r1 & Hcall & Hr1 & Hentry).
  exists b1, r1. split; [exact Hcall |].
  split; [unfold served; rewrite (convert_ignores_backend L b b1); exact Hr1 |].
  assert (Hheld : holds b1 key res expiry).
  { eexists. split; [exact Hentry |]. split; reflexivity. }
  split; [exact Hheld |]. split; [exact Hstep |].
  intros calls. clear Hcall Hr1 Hentry. revert b1 Hheld.
  induction calls as [| call rest IH]; intros b1 Hheld Hall.
  - exists b1, []. split; [reflexivity |]. split; [constructor | exact Hheld].
  - inversion Hall as [| ? ? [Hsame Hfresh] Hrest]; subst.
    assert (Hheld' : holds (with_collections b1 (call_collections call)) key res expiry)
      by exact Hheld.
    destruct (Hstep (call_request call) _ (call_clock call) (call_input call)
                Hheld' Hsame) as [Hserved _].
    destruct (Hserved Hfresh) as (b2 & r2 & Hcall2 & Hr2 & Hheld2).
    destruct (IH b2 Hheld2 Hrest) as (bn & answers & Hrun & Hanswers & Hheldn).
    exists bn, (inl r2 :: answers).
    split; [cbn [ListObjects_all]; rewrite Hcall2, Hrun; reflexivity |].
    split; [| exact Hheldn].
    constructor; [exists r2; auto | exact Hanswers].
Qed.

Lemma repeated_listing_is_served_from_cache_witness :
  exists bn r2 r3,
    ListObjects_all example_lib (fun err => err)
      (with_cache (AddCollection (backend_with None) "bk" "Collections:bk")
         (CacheSet (NewQueryCache 3600000000000 None) 5 "v1:bk::" (Some five_entries) "bk"))
      [ {| call_request := fun _ _ _ => inr (OtherError "down");
           call_collections := ∅;
           call_clock := {| at_Get := 100; at_start := 0; at_Since := 0; at_Set := 0 |};
           call_input := {| s3.Bucket := Some "bk"; s3.Prefix := None;
                            s3.Delimiter := None; s3.Marker := None;
                            s3.MaxKeys := Some 2 |} |};
        {| call_request := fun _ _ _ => inr (OtherError "down");
           call_collections := ∅;
           call_clock := {| at_Get := 3600000000005; at_start := 0; at_Since := 0;
                            at_Set := 0 |};
           call_input := {| s3.Bucket := Some "bk"; s3.Prefix := None;
                            s3.Delimiter := None; s3.Marker := Some "k2";
                            s3.MaxKeys := Some 2 |} |} ]
    = Some (bn, [inl r2; inl r3]) /\
    List.map s3response.Key (s3response.Contents r2) = ["k1"; "k2"] /\
    List.map s3response.Key (s3response.Contents r3) = ["k3"; "k4"].
Proof.
  pose (b := AddCollection (backend_with None) "bk" "Collections:bk").
  pose (clk := {| at_Get := 1; at_start := 2; at_Since := 4; at_Set := 5 |}).
  pose (input := {| s3.Bucket := Some "bk"; s3.Prefix := None; s3.Delimiter := None;
                    s3.Marker := None; s3.MaxKeys := None |}).
  destruct (repeated_listing_is_served_from_cache example_lib (fun err => err)
              (fun _ _ _ => inl five_entries) b clk input "bk" five_entries
              eq_refl eq_refl eq_refl) as (b1 & r1 & Hcall & _ & _ & _ & Hseq).
  vm_compute in Hcall. injection Hcall as Hb1 _.
  match goal with
  | |- exists bn r2 r3, ListObjects_all _ _ _ ?calls = _ /\ _ =>
      destruct (Hseq calls) as (bn & answers & Hrun & Hanswers & _)
  end.
  - constructor; [split; [repeat split | vm_compute; discriminate] |].
    constructor; [split; [repeat split | vm_compute; discriminate] | constructor].
  - inversion Hanswers as [| ? a2 ? rest2 (r2 & -> & Hr2) Hrest]; subst.
    inversion Hrest as [| ? a3 ? rest3 (r3 & -> & Hr3) Hnil]; subst.
    inversion Hnil; subst.
    exists bn, r2, r3. split.
    + exact Hrun.
    + vm_compute in Hr2, Hr3. injection Hr2 as <-. injection Hr3 as <-.
      split; reflexivity.
Defined.

(** A listing that Starfish fails is not remembered. The caller gets the
    converted error, the cache holds what the read left of it and nothing
    under the key of the call, so the next call asks again; for a bucket
    without a collection the error is the one of the lookup, and no
    request is made. The same holds of [ListObjectsV2]. *)
Theorem failed_listing_caches_nothing
    (L : GoLib) (toS3 : error -> error)
    (request : string -> string -> string -> StarfishQueryResponse + error)
    (b : StarfishBackend) (clk : readings) (bucket : string)
    (prefix delimiter marker : option string) (maxKeys : option Z) :
  let input := {| s3.Bucket := Some bucket; s3.Prefix := prefix;
                  s3.Delimiter := delimiter; s3.Marker := marker;
                  s3.MaxKeys := maxKeys |} in
  let inputV2 := {| s3.V2Bucket := Some bucket; s3.V2Prefix := prefix;
                    s3.V2Delimiter := delimiter; s3.V2StartAfter := marker;
                    s3.V2MaxKeys := maxKeys |} in
  let key version := cacheKey version bucket (default "" prefix) (default "" delimiter) in
  (forall err,
     QueryStarfish b request bucket "" "type=f" = inr err ->
     (snd (Get (cache b) (at_Get clk) (key "v1")) = None ->
      exists b1,
        ListObjects L toS3 request b clk input = Some (b1, inr (toS3 err)) /\
        cache b1 = fst (Get (cache b) (at_Get clk) (key "v1")) /\
        (data (cache b) !! key "v1" = None -> data (cache b1) = data (cache b))) /\
     (snd (Get (cache b) (at_Get clk) (key "v2")) = None ->
      exists b1,
        ListObjectsV2 L toS3 request b clk inputV2 = Some (b1, inr (toS3 err)) /\
        cache b1 = fst (Get (cache b) (at_Get clk) (key "v2")) /\
        (data (cache b) !! key "v2" = None -> data (cache b1) = data (cache b)))) /\
  (collections b !! bucket = None ->
   QueryStarfish b request bucket "" "type=f"
   = inr (OtherError ("no Collections: tag found for bucket: " +:+ bucket))).
Proof.
  intros input inputV2 key. split.
  - intros err Hq. split; intros Hmiss.
    + unfold ListObjects. cbn [input s3.Bucket s3.Prefix s3.Delimiter s3.Marker s3.MaxKeys].
      destruct (listing_call_fails toS3 "v1" "ListObjects"
                  (fun b' result =>
                     convertToListObjectsResult L b' result bucket (default "" prefix)
                       (default "" delimiter) (default "" marker) (default 1000 maxKeys))
                  bucket (default "" prefix) (default "" delimiter) request b clk err
                  Hmiss Hq) as (b1 & Hcall & Hcache & _).
      exists b1. split; [exact Hcall |]. split; [exact Hcache |].
      intros Habs. rewrite Hcache. apply Get_absent. exact Habs.
    + unfold ListObjectsV2.
      cbn [inputV2 s3.V2Bucket s3.V2Prefix s3.V2Delimiter s3.V2StartAfter s3.V2MaxKeys].
      destruct (listing_call_fails toS3 "v2" "ListObjectsV2"
                  (fun b' result =>
                     convertToListObjectsV2Result L b' result bucket (default "" prefix)
                       (default "" delimiter) (default "" marker) (default 1000 maxKeys))
                  bucket (default "" prefix) (default "" delimiter) request b clk err
                  Hmiss Hq) as (b1 & Hcall & Hcache & _).
      exists b1. split; [exact Hcall |]. split; [exact Hcache |].
      intros Habs. rewrite Hcache. apply Get_absent. exact Habs.
  - intros Hnone. unfold QueryStarfish, GetCollectionTag. rewrite Hnone. reflexivity.
Qed.

Lemma failed_listing_caches_nothing_witness :
  exists b1,
    ListObjects example_lib (fun _ => S3Error ErrInternalError)
      (fun _ _ _ => inl five_entries) (backend_with None)
      {| at_Get := 1; at_start := 2; at_Since := 4; at_Set := 5 |}
      {| s3.Bucket := Some "bk"; s3.Prefix := None; s3.Delimiter := Some "/";
         s3.Marker := None; s3.MaxKeys := None |}
    = Some (b1, inr (S3Error ErrInternalError)) /\
    data (cache b1) = ∅.
Proof.
  destruct (failed_listing_caches_nothing example_lib (fun _ => S3Error ErrInternalError)
              (fun _ _ _ => inl five_entries) (backend_with None)
              {| at_Get := 1; at_start := 2; at_Since := 4; at_Set := 5 |}
              "bk" None (Some "/") None None) as [Hfail Hunknown].
  destruct (Hfail _ (Hunknown eq_refl)) as [Hv1 _].
  destruct (Hv1 eq_refl) as (b1 & Hcall & _ & Hdata).
  exists b1. split; [exact Hcall |].
  rewrite Hdata; reflexivity.
Defined.

(** [ListObjectsV2] converts as [ListObjects] does: for the same entries and
    parameters both show the same objects, common prefixes and truncation
    flag. The key count of the second version is the number of objects
    alone, common prefixes are not counted, and it is at most a positive
    limit. *)
Theorem v2_listing_agrees_with_v1
    (L : GoLib) (b : StarfishBackend) (resp : StarfishQueryResponse)
    (bucket prefix delimiter startAfter : string) (maxKeys : Z) :
  exists r1 r2,
    convertToListObjectsResult L b resp bucket prefix delimiter startAfter maxKeys
    = Some r1 /\
    convertToListObjectsV2Result L b resp bucket prefix delimiter startAfter maxKeys
    = Some r2 /\
    s3response.V2Contents r2 = s3response.Contents r1 /\
    s3response.V2CommonPrefixes r2 = s3response.CommonPrefixes r1 /\
    s3response.V2IsTruncated r2 = s3response.IsTruncated r1 /\
    s3response.V2StartAfter r2 = startAfter /\
    (0 < maxKeys < 2 ^ 31 ->
     s3response.V2KeyCount r2 = Z.of_nat (length (s3response.Contents r1)) /\
     0 <= s3response.V2KeyCount r2 <= maxKeys /\
     s3response.V2MaxKeys r2 = maxKeys).
Proof.
  destruct (convert_listing_facts L b resp bucket prefix delimiter startAfter maxKeys)
    as (r1 & Hr1 & Hle & _).
  exists r1.
  unfold convertToListObjectsV2Result, convertToListObjectsResult in *.
  destruct (convert_loop L b bucket prefix delimiter startAfter maxKeys
              (Entries resp) loop_init) as [st |]; [| discriminate].
  injection Hr1 as <-. eexists. split; [reflexivity |]. split; [reflexivity |].
  cbn. split; [reflexivity |]. split; [reflexivity |]. split; [reflexivity |].
  split; [reflexivity |].
  intros Hmax. cbn in Hle. specialize (Hle ltac:(lia)).
  assert (Hw : forall z, 0 <= z < 2 ^ 31 -> wrap32 z = z).
  { intros z Hz. unfold wrap32.
    rewrite Z.mod_small by lia. lia. }
  rewrite !Hw by lia. lia.
Qed.

Lemma v2_listing_agrees_with_v1_witness :
  (s3response.V2KeyCount <$>
     convertToListObjectsV2Result example_lib (backend_with None) example_listing
       "bk" "" "/" "" 1000) = Some 0.
Proof.
  destruct (v2_listing_agrees_with_v1 example_lib (backend_with None) example_listing
              "bk" "" "/" "" 1000) as (r1 & r2 & Hr1 & Hr2 & _ & _ & _ & _ & Hcount).
  rewrite Hr2. simpl. f_equal.
  destruct Hcount as (Hk & _); [lia |].
  rewrite Hk. vm_compute in Hr1. injection Hr1 as <-. reflexivity.
Defined.

(* ===================================================================== *)
(** * Entity tags                                                          *)
(* ===================================================================== *)

Lemma uint_string_digits (d : Decimal.uint) :
  all_digits (NilEmpty.string_of_uint d) = true.
Proof. induction d; simpl; auto. Qed.

Lemma uint_string_nonempty (d : Decimal.uint) :
  d <> Decimal.Nil -> NilEmpty.string_of_uint d <> "".
Proof. destruct d; simpl; congruence. Qed.

(** [%d] of an integer is a non-empty run of digits, after a minus sign
    when the integer is negative. *)
Lemma itoa_shape (z : Z) :
  exists ds,
    all_digits ds = true /\ ds <> "" /\
    (itoa z = ds \/ itoa z = String "-" ds).
Proof.
  unfold itoa. destruct z as [| p | p]; simpl.
  - exists "0". repeat split; [discriminate | left; reflexivity].
  - pose proof (DecimalPos.Unsigned.to_uint_nonnil p) as Hnn.
    exists (NilEmpty.string_of_uint (Pos.to_uint p)).
    split; [apply uint_string_digits |].
    split; [apply uint_string_nonempty; exact Hnn |].
    left. unfold NilZero.string_of_uint. destruct (Pos.to_uint p); congruence.
  - pose proof (DecimalPos.Unsigned.to_uint_nonnil p) as Hnn.
    exists (NilEmpty.string_of_uint (Pos.to_uint p)).
    split; [apply uint_string_digits |].
    split; [apply uint_string_nonempty; exact Hnn |].
    right. unfold NilZero.string_of_uint. destruct (Pos.to_uint p); congruence.
Qed.

Lemma itoa_inj (a b : Z) : itoa a = itoa b -> a = b.
Proof.
  unfold itoa. intros H.
  apply DecimalZ.to_int_inj.
  assert (Hnn : forall z, Z.to_int z <> Decimal.Pos Decimal.Nil /\
                          Z.to_int z <> Decimal.Neg Decimal.Nil).
  { intros [| p | p]; simpl; split; try discriminate;
      intros [= Hp]; exact (DecimalPos.Unsigned.to_uint_nonnil p Hp). }
  destruct (Hnn a) as [Ha1 Ha2], (Hnn b) as [Hb1 Hb2].
  pose proof (NilZero.isi _ Ha1 Ha2) as Hia.
  pose proof (NilZero.isi _ Hb1 Hb2) as Hib.
  rewrite H in Hia. congruence.
Qed.

(** A run of digits ends where the first other byte stands. *)
Lemma digits_split (c : ascii) (s1 : string) :
  forall s2 t1 t2,
    is_digit c = false ->
    all_digits s1 = true -> all_digits s2 = true ->
    s1 +:+ String c t1 = s2 +:+ String c t2 ->
    s1 = s2 /\ t1 = t2.
Proof.
  induction s1 as [| x s1 IH]; intros s2 t1 t2 Hc H1 H2 Heq.
  - destruct s2 as [| y s2].
    + cbn in Heq. injection Heq as ->. auto.
    + rewrite append_cons in Heq. cbn in Heq. injection Heq as <- _.
      simpl in H2. rewrite Hc in H2. discriminate.
  - destruct s2 as [| y s2].
    + rewrite append_cons in Heq. cbn in Heq. injection Heq as -> _.
      simpl in H1. rewrite Hc in H1. discriminate.
    + rewrite !append_cons in Heq. injection Heq as -> Heq.
      simpl in H1, H2.
      apply andb_true_iff in H1 as [_ H1]. apply andb_true_iff in H2 as [_ H2].
      destruct (IH s2 t1 t2 Hc H1 H2 Heq) as [-> ->]. auto.
Qed.

Lemma itoa_split (c : ascii) (a b : Z) (t1 t2 : string) :
  is_digit c = false ->
  itoa a +:+ String c t1 = itoa b +:+ String c t2 ->
  a = b /\ t1 = t2.
Proof.
  intros Hc Heq.
  destruct (itoa_shape a) as (da & Hda & Hna & Ha).
  destruct (itoa_shape b) as (db & Hdb & Hnb & Hb).
  assert (Hminus : is_digit "-" = false) by reflexivity.
  assert (Hfirst : forall ds rest u,
             all_digits ds = true -> ds <> "" ->
             String "-" rest <> ds +:+ u).
  { intros ds rest u Hds Hne. destruct ds as [| y ds]; [congruence |].
    rewrite append_cons. intros [= <- _]. simpl in Hds. discriminate. }
  destruct Ha as [Ha | Ha], Hb as [Hb | Hb]; rewrite Ha, Hb in Heq.
  - destruct (digits_split c da db t1 t2 Hc Hda Hdb Heq) as [Hd ->].
    split; [| reflexivity]. apply itoa_inj. congruence.
  - rewrite append_cons in Heq. symmetry in Heq.
    exfalso. exact (Hfirst da _ _ Hda Hna Heq).
  - rewrite append_cons in Heq.
    exfalso. exact (Hfirst db _ _ Hdb Hnb Heq).
  - rewrite !append_cons in Heq. injection Heq as Heq.
    destruct (digits_split c da db t1 t2 Hc Hda Hdb Heq) as [Hd ->].
    split; [| reflexivity]. apply itoa_inj. congruence.
Qed.

(** The entity tag of an entry stands for its size and its modification
    time, and for nothing else: two entries have the same tag exactly when
    both agree, whatever their names, paths and other fields. *)
Theorem etag_identifies_size_and_mtime (e1 e2 : StarfishEntry) :
  generateETag e1 = generateETag e2 <->
  Size e1 = Size e2 /\ ModifyTimeUnix e1 = ModifyTimeUnix e2.
Proof.
  unfold generateETag, dquote. split.
  - intros H. rewrite !append_cons in H. injection H as H.
    change ("" +:+ ?x) with x in H.
    change ("-" +:+ ?x) with (String "-" x) in H.
    apply itoa_split in H as [Hs H]; [| reflexivity].
    apply itoa_split in H as [Hm _]; [| reflexivity].
    auto.
  - intros [-> ->]. reflexivity.
Qed.

Lemma etag_identifies_size_and_mtime_witness :
  generateETag (entry_at "/a/b/c.txt") = generateETag (entry_at "/k1").
Proof.
  apply (etag_identifies_size_and_mtime (entry_at "/a/b/c.txt") (entry_at "/k1")).
  split; reflexivity.
Defined.

(* ===================================================================== *)
(** * GetObject                                                            *)
(* ===================================================================== *)

(** [GetObject] asks the file server for volume and key. Without a file
    server nothing is asked and the call is not implemented. With one, an
    object that the first query does not hold is no such key, and when both
    queries hold it the URL is the server, the volume of the first entry
    of the second query with that key, and the key itself, whichever branch
    computed the path; only status 200 gives an object, whose tag, time and
    length are those [HeadObject] gave for the first query. *)
Theorem GetObject_fetches_volume_and_key
    (L : GoLib) (toS3 : error -> error) (b : StarfishBackend)
    (fetch : string -> string -> fetch_result)
    (headQueried queried : StarfishQueryResponse + error) (bucket object : string) :
  (fileServerURL b = "" ->
   GetObject L toS3 b fetch headQueried queried bucket object
   = inr (S3Error ErrNotImplemented)) /\
  (fileServerURL b <> "" ->
   (forall r1,
      headQueried = inl r1 ->
      (forall e, In e (Entries r1) -> key_of L b bucket e <> object) ->
      GetObject L toS3 b fetch headQueried queried bucket object
      = inr (S3Error ErrNoSuchKey)) /\
   (forall r1 r2 e1 e2,
      headQueried = inl r1 -> queried = inl r2 ->
      find_entry L b bucket object (Entries r1) = Some e1 ->
      find_entry L b bucket object (Entries r2) = Some e2 ->
      GetObject L toS3 b fetch headQueried queried bucket object
      = match fetch (fileServerURL b +:+ "/" +:+ Volume e2 +:+ "/" +:+ object)
                (bearerToken b) with
        | Response 200 body =>
            inl {| s3.Body := body;
                   s3.ObjectETag := generateETag e1;
                   s3.ObjectLastModified := GetModifyTime e1;
                   s3.ObjectContentLength := Size e1 |}
        | Response 404 _ => inr (S3Error ErrNoSuchKey)
        | Response status _ =>
            inr (OtherError ("file server returned status " +:+ itoa status))
        | RequestNotCreated msg =>
            inr (OtherError ("failed to create file server request: " +:+ msg))
        | TransportError msg =>
            inr (OtherError ("failed to fetch file from file server: " +:+ msg))
        end)).
Proof.
  split.
  - intros Hnone. unfold GetObject. rewrite Hnone. reflexivity.
  - intros Hsome. unfold GetObject.
    destruct (String.eqb_spec (fileServerURL b) "") as [Heq | _]; [contradiction |].
    split.
    + intros r1 -> Hnone. unfold HeadObject.
      apply find_entry_none in Hnone. rewrite Hnone. reflexivity.
    + intros r1 r2 e1 e2 -> -> H1 H2. unfold HeadObject. rewrite H1, H2.
      assert (Hpath : (if negb (String.eqb (FullPath e2) "")
                       then strings_TrimPrefix (FullPath e2) "/" else object) = object).
      { destruct (find_entry_some L b bucket object (Entries r2) e2 H2)
          as (_ & _ & _ & Hkey & _).
        unfold key_of, buildObjectKeyFromEntryWithBucket in Hkey.
        destruct (negb (String.eqb (FullPath e2) "")); [exact Hkey | reflexivity]. }
      rewrite Hpath.
      destruct (fetch _ (bearerToken b)) as [msg | msg | status body]; try reflexivity.
      destruct (Z.eqb_spec status 404) as [-> | H404]; [reflexivity |].
      destruct (Z.eqb_spec status 200) as [-> | H200]; [reflexivity |].
      simpl.
      destruct status as [| p | p]; try reflexivity.
      repeat (destruct p as [p | p |]; try reflexivity; try contradiction).
Qed.

Lemma GetObject_fetches_volume_and_key_witness :
  GetObject example_lib (fun err => err) (backend_with_files "http://files")
    (fun url token =>
       if String.eqb url "http://files/storage1/data/document.pdf"
       then Response 200 "content" else Response 404 "")
    (inl example_response) (inl example_response) "bk" "data/document.pdf"
  = inl {| s3.Body := "content";
           s3.ObjectETag := generateETag example_entry;
           s3.ObjectLastModified := GetModifyTime example_entry;
           s3.ObjectContentLength := 1048576 |}.
Proof.
  destruct (GetObject_fetches_volume_and_key example_lib (fun err => err)
              (backend_with_files "http://files")
              (fun url token =>
                 if String.eqb url "http://files/storage1/data/document.pdf"
                 then Response 200 "content" else Response 404 "")
              (inl example_response) (inl example_response) "bk" "data/document.pdf")
    as [_ Hwith].
  destruct Hwith as [_ Hfound]; [discriminate |].
  rewrite (Hfound example_response example_response example_entry example_entry
             eq_refl eq_refl eq_refl eq_refl).
  reflexivity.
Defined.

(* ===================================================================== *)
(** * Sizes in templates                                                   *)
(* ===================================================================== *)

Lemma formatSize_auto (size : Z) :
  formatSize size =
  if size <? KB then itoa size +:+ "B"
  else if size <? MB then itoa (size ÷ KB) +:+ "KB"
  else if size <? GB then itoa (size ÷ MB) +:+ "MB"
  else if size <? TB then itoa (size ÷ GB) +:+ "GB"
  else itoa (size ÷ TB) +:+ "TB".
Proof. reflexivity. Qed.

(** The size that templates see as [SizeFormatted] is the size in the
    largest unit that it reaches, rounded down: the number printed is the
    whole count of that unit, it is at least 1 except for an empty file and
    below 1024 for every unit but the last. A negative size is printed in
    bytes. *)
Theorem auto_size_rounds_down_to_the_largest_unit (size : Z) :
  (size < 0 -> formatSize size = itoa size +:+ "B") /\
  (0 <= size ->
   exists q u name,
     formatSize size = itoa q +:+ name /\
     In (u, name) [(1, "B"); (KB, "KB"); (MB, "MB"); (GB, "GB"); (TB, "TB")] /\
     q * u <= size < (q + 1) * u /\
     (size = 0 \/ 1 <= q) /\
     (u < TB -> q < 1024)).
Proof.
  rewrite formatSize_auto. unfold KB, MB, GB, TB. split.
  - intros Hneg. destruct (Z.ltb_spec size 1024); [reflexivity | lia].
  - intros Hpos.
    assert (Hquot : forall u, 0 < u -> u <= size ->
                      (size ÷ u) * u <= size < (size ÷ u + 1) * u /\ 1 <= size ÷ u).
    { intros u Hu Hle. rewrite Z.quot_div_nonneg by lia.
      pose proof (Z.mul_div_le size u Hu).
      pose proof (Z.mul_succ_div_gt size u Hu).
      assert (1 <= size / u) by (apply Z.div_le_lower_bound; lia).
      lia. }
    assert (Hsmall : forall u, 0 < u -> size < 1024 * u -> size ÷ u < 1024).
    { intros u Hu Hlt. rewrite Z.quot_div_nonneg by lia.
      apply Z.div_lt_upper_bound; lia. }
    destruct (Z.ltb_spec size 1024) as [H1 | H1].
    { exists size, 1, "B". split; [reflexivity |].
      split; [simpl; auto |]. lia. }
    destruct (Z.ltb_spec size (1024 * 1024)) as [H2 | H2].
    { exists (size ÷ 1024), 1024, "KB". split; [reflexivity |].
      split; [simpl; auto |].
      pose proof (Hquot 1024 ltac:(lia) H1). pose proof (Hsmall 1024 ltac:(lia) H2).
      lia. }
    destruct (Z.ltb_spec size (1024 * 1024 * 1024)) as [H3 | H3].
    { exists (size ÷ (1024 * 1024)), (1024 * 1024), "MB". split; [reflexivity |].
      split; [simpl; auto |].
      pose proof (Hquot (1024 * 1024) ltac:(lia) H2).
      pose proof (Hsmall (1024 * 1024) ltac:(lia) ltac:(lia)).
      lia. }
    destruct (Z.ltb_spec size (1024 * 1024 * 1024 * 1024)) as [H4 | H4].
    { exists (size ÷ (1024 * 1024 * 1024)), (1024 * 1024 * 1024), "GB".
      split; [reflexivity |].
      split; [simpl; auto 6 |].
      pose proof (Hquot (1024 * 1024 * 1024) ltac:(lia) H3).
      pose proof (Hsmall (1024 * 1024 * 1024) ltac:(lia) ltac:(lia)).
      lia. }
    exists (size ÷ (1024 * 1024 * 1024 * 1024)), (1024 * 1024 * 1024 * 1024), "TB".
    split; [reflexivity |].
    split; [simpl; auto 7 |].
    pose proof (Hquot (1024 * 1024 * 1024 * 1024) ltac:(lia) H4).
    lia.
Qed.

Lemma auto_size_rounds_down_to_the_largest_unit_witness :
  formatSize (Size example_entry) = "1MB".
Proof.
  destruct (auto_size_rounds_down_to_the_largest_unit (Size example_entry))
    as [_ Hpos].
  destruct Hpos as (q & u & name & Hfmt & _); [simpl; lia |].
  rewrite Hfmt. rewrite formatSize_auto in Hfmt. vm_compute in Hfmt.
  symmetry. exact Hfmt.
Defined.
